(** * OpenCoder: the plan engine and the agentic tool-use loop

    A shallow embedding of the TypeScript sources
    [src/planning/types.ts], [src/planning/plan-manager.ts],
    [src/planning/verifier.ts], [src/planning/executor.ts],
    [src/planning/planner.ts], [src/agent/parser.ts],
    [src/agent/context.ts], [src/agent/agent.ts], [src/tools/index.ts],
    [src/tools/base.ts], [src/tools/edit.ts], [src/tools/write.ts],
    [src/tools/bash.ts] and [src/utils/paths.ts], followed by the
    properties proved of them.

    Objects that the source mutates in place are threaded explicitly:
    every method of a class takes the object and returns its new value
    next to the method's result. *)

From Stdlib Require Import String Ascii List Bool Arith Lia ZArith.
From stdpp Require Import base decidable option list strings.

Set Default Proof Using "Type".
Set Warnings "-register-all".
Close Scope string_scope.
Open Scope nat_scope.

(** * JavaScript strings

    A JavaScript string is a sequence of UTF-16 code units. The
    embedding covers the strings whose code units are all below 256 and
    writes them as lists of [ascii]; every string primitive the sources
    use is defined on them as ECMAScript defines it. *)

Abbreviation jsstring := (list ascii).

Definition str (s : string) : jsstring := list_ascii_of_string s.

(** The quotation mark, the apostrophe, the backslash and the line feed. *)
Definition dquote : ascii := ascii_of_nat 34.
Definition squote : ascii := ascii_of_nat 39.
Definition backslash : ascii := ascii_of_nat 92.
Definition lf : ascii := ascii_of_nat 10.

Module JS.

(** [WhiteSpace] and [LineTerminator] below 256: TAB, LF, VT, FF, CR,
    SP and NBSP. This is the class [\s] and what [trim] strips. *)
Definition isWhiteSpace (c : ascii) : bool :=
  let n := nat_of_ascii c in
  (n =? 9) || (n =? 10) || (n =? 11) || (n =? 12) || (n =? 13)
  || (n =? 32) || (n =? 160).

(** [LineTerminator] below 256, which [.] does not match. *)
Definition isLineTerminator (c : ascii) : bool :=
  let n := nat_of_ascii c in (n =? 10) || (n =? 13).

Fixpoint trimStart (s : jsstring) : jsstring :=
  match s with
  | c :: s' => if isWhiteSpace c then trimStart s' else s
  | [] => []
  end.

Definition trimEnd (s : jsstring) : jsstring := rev (trimStart (rev s)).

(** [String.prototype.trim] *)
Definition trim (s : jsstring) : jsstring := trimEnd (trimStart s).

(** [String.prototype.startsWith], also the test of one position of
    [indexOf]. *)
Fixpoint startsWith (s w : jsstring) {struct w} : bool :=
  match w, s with
  | [], _ => true
  | _ :: _, [] => false
  | a :: w', b :: s' => bool_decide (a = b) && startsWith s' w'
  end.

Fixpoint indexOf_from (s w : jsstring) (i : nat) : option nat :=
  if startsWith s w then Some i
  else match s with
       | [] => None
       | _ :: s' => indexOf_from s' w (S i)
       end.

(** [String.prototype.indexOf]; [None] is the source's [-1]. *)
Definition indexOf (s w : jsstring) : option nat := indexOf_from s w 0.

(** [String.prototype.substring(start, end)]: both arguments are clamped
    to the length and swapped when out of order. *)
Definition substring (s : jsstring) (a b : nat) : jsstring :=
  let a' := a `min` length s in
  let b' := b `min` length s in
  take ((a' `max` b') - (a' `min` b')) (drop (a' `min` b') s).

(** [String.prototype.replace(pattern, replacement)] for a string
    pattern: the first occurrence only. The replacement is inserted as
    it is; the sources pass the empty string, which has no [$] pattern. *)
Definition replaceString (s w r : jsstring) : jsstring :=
  match indexOf s w with
  | Some i => take i s ++ r ++ drop (i + length w) s
  | None => s
  end.

(** [String.prototype.toLowerCase] on code units below 256: the Latin
    capitals and the capitals of the Latin-1 supplement. *)
Definition toLowerCaseChar (c : ascii) : ascii :=
  let n := nat_of_ascii c in
  if ((65 <=? n) && (n <=? 90))
     || ((192 <=? n) && (n <=? 222) && negb (n =? 215))
  then ascii_of_nat (n + 32) else c.

Definition toLowerCase (s : jsstring) : jsstring := map toLowerCaseChar s.

(** The truth value of a string. *)
Definition truthy (s : jsstring) : bool :=
  match s with [] => false | _ => true end.

(** [String.prototype.endsWith] *)
Definition endsWith (s w : jsstring) : bool := startsWith (rev s) (rev w).

(** [String.prototype.includes] *)
Definition includes (s w : jsstring) : bool :=
  match indexOf s w with Some _ => true | None => false end.

(** [String.prototype.split(separator)] for a string separator and no
    limit: the pieces between the successive occurrences of the
    separator, each search starting where the previous occurrence
    ended; with the empty separator, the code units. An occurrence of a
    separator that is not empty takes at least one character, so there
    are at most [length s] of them. *)
Fixpoint splitLoop (fuel : nat) (s sep : jsstring) : list jsstring :=
  match fuel with
  | O => [s]
  | S fuel' =>
      match indexOf s sep with
      | None => [s]
      | Some j => take j s :: splitLoop fuel' (drop (j + length sep) s) sep
      end
  end.

Definition split (s sep : jsstring) : list jsstring :=
  match sep with
  | [] => (λ c, [c]) <$> s
  | _ :: _ => splitLoop (length s) s sep
  end.

(** [GetSubstitution] for a string pattern, which has no capture
    group: in the replacement text a dollar sign followed by a dollar
    sign is a dollar sign, followed by an ampersand the matched text,
    followed by a backtick what precedes the match, followed by an
    apostrophe what follows it; any other dollar sign stands for
    itself. *)
Fixpoint getSubstitution (matched before after template : jsstring) : jsstring :=
  match template with
  | [] => []
  | c :: r =>
      if bool_decide (c = "$"%char) then
        match r with
        | d :: r' =>
            if bool_decide (d = "$"%char) then
              "$"%char :: getSubstitution matched before after r'
            else if bool_decide (d = "&"%char) then
              matched ++ getSubstitution matched before after r'
            else if bool_decide (d = "`"%char) then
              before ++ getSubstitution matched before after r'
            else if bool_decide (d = squote) then
              after ++ getSubstitution matched before after r'
            else c :: getSubstitution matched before after r
        | [] => [c]
        end
      else c :: getSubstitution matched before after r
  end.

(** [String.prototype.replace(searchValue, replaceValue)] for two
    strings: the first occurrence only, replaced by the substitution of
    the replacement text. *)
Definition replace (s w r : jsstring) : jsstring :=
  match indexOf s w with
  | Some i =>
      take i s
      ++ getSubstitution w (take i s) (drop (i + length w) s) r
      ++ drop (i + length w) s
  | None => s
  end.

End JS.

(** * Regular expressions

    The backtracking matcher of ECMAScript for the constructs that the
    regular expressions of [parser.ts] use. *)

Module Regex.

Inductive regex :=
| Lit (w : jsstring)                 (* a sequence of pattern characters *)
| Class (p : ascii → bool)           (* a character class or escape *)
| Seq (r1 r2 : regex)
| Opt (r : regex)                    (* r?  *)
| Star (greedy : bool) (r : regex)   (* r*  and  r*?  *)
| Plus (r : regex)                   (* r+  *)
| Group (r : regex)                  (* ( r ), the capture group 1 *)
| Eos.                               (* $ without the m flag *)

Definition orElse {A} (x y : option A) : option A :=
  match x with Some _ => x | None => y end.

(** A sequence of terms. *)
Fixpoint seq (rs : list regex) : regex :=
  match rs with
  | [] => Lit []
  | [r] => r
  | r :: rs' => Seq r (seq rs')
  end.

(** The classes of the patterns in [parser.ts]. *)
Definition space : ascii → bool := JS.isWhiteSpace.               (* \s *)
Definition anyChar : ascii → bool := λ _, true.                   (* [\s\S] *)
Definition dot : ascii → bool := λ c, negb (JS.isLineTerminator c). (* . *)
Definition noneOf (w : jsstring) : ascii → bool :=               (* [^...] *)
  λ c, negb (bool_decide (c ∈ w)).

Section Matcher.
Context {R : Type}.

(** A continuation receives the rest of the input and the capture. *)
Definition cont := jsstring → option jsstring → option R.

(** The iterations of [r*] and [r*?], [step] being the matcher of [r]:
    a greedy quantifier tries one more iteration before the
    continuation, a lazy one tries the continuation first, and an
    iteration that consumes nothing is rejected. Every iteration that
    counts shortens the input, so a fuel above its length is never used
    up. *)
Fixpoint starLoop (step : jsstring → option jsstring → cont → option R)
    (greedy : bool) (k : cont) (fuel : nat) (s : jsstring) (cap : option jsstring)
    : option R :=
  match fuel with
  | O => None
  | S fuel' =>
      let more :=
        step s cap
          (λ s' cap',
             if length s' <? length s then starLoop step greedy k fuel' s' cap'
             else None) in
      if greedy then orElse more (k s cap) else orElse (k s cap) more
  end.

(** [rmatch r s cap k]: match [r] at the head of [s], then run [k] on
    what is left; alternatives are tried in the order of ECMAScript's
    backtracking. *)
Fixpoint rmatch (r : regex) (s : jsstring) (cap : option jsstring) (k : cont)
    : option R :=
  match r with
  | Lit w =>
      if JS.startsWith s w then k (drop (length w) s) cap else None
  | Class p =>
      match s with
      | c :: s' => if p c then k s' cap else None
      | [] => None
      end
  | Seq r1 r2 =>
      rmatch r1 s cap (λ s' cap', rmatch r2 s' cap' k)
  | Opt r1 =>
      orElse
        (rmatch r1 s cap
           (λ s' cap', if length s' <? length s then k s' cap' else None))
        (k s cap)
  | Star greedy r1 =>
      starLoop (rmatch r1) greedy k (S (length s)) s cap
  | Plus r1 =>
      rmatch r1 s cap
        (λ s1 cap1, starLoop (rmatch r1) true k (S (length s1)) s1 cap1)
  | Group r1 =>
      rmatch r1 s cap
        (λ s' _, k s' (Some (take (length s - length s') s)))
  | Eos =>
      match s with [] => k s cap | _ => None end
  end.

End Matcher.

(** A successful match: [index], the matched text [m[0]] and the
    capture [m[1]]. *)
Record Match := mkMatch {
  index : nat;
  matched : jsstring;
  group1 : option jsstring
}.

(** The match of [r] at the head of [s], if any. *)
Definition matchHere (r : regex) (s : jsstring) : option (jsstring * option jsstring) :=
  rmatch r s None (λ s' cap, Some (s', cap)).

(** The leftmost match in [s], the suffix of the subject that starts at
    index [i]. *)
Fixpoint search (r : regex) (s : jsstring) (i : nat) : option Match :=
  match matchHere r s with
  | Some (rest, cap) => Some (mkMatch i (take (length s - length rest) s) cap)
  | None =>
      match s with
      | [] => None
      | _ :: s' => search r s' (S i)
      end
  end.

(** [RegExp.prototype.exec] of a global regular expression whose
    [lastIndex] is [lastIndex]. *)
Definition exec (r : regex) (s : jsstring) (lastIndex : nat) : option Match :=
  if length s <? lastIndex then None else search r (drop lastIndex s) lastIndex.

Definition endIndex (m : Match) : nat := index m + length (matched m).

(** The loop [while ((match = re.exec(s)) !== null)]: the successive
    matches, [lastIndex] starting at 0 and moving to the end of each
    match. None of the patterns below matches the empty string, so
    [lastIndex] grows with every match and there are at most [length s]
    of them. *)
Fixpoint execLoop (r : regex) (s : jsstring) (fuel lastIndex : nat) : list Match :=
  match fuel with
  | O => []
  | S fuel' =>
      match exec r s lastIndex with
      | None => []
      | Some m => m :: execLoop r s fuel' (endIndex m)
      end
  end.

Definition execAll (r : regex) (s : jsstring) : list Match :=
  execLoop r s (S (length s)) 0.

(** [s.replace(re, replacement)] for a regular expression without the
    [g] flag: the leftmost match only. *)
Definition replaceFirst (r : regex) (repl : Match → jsstring) (s : jsstring) : jsstring :=
  match search r s 0 with
  | None => s
  | Some m => take (index m) s ++ repl m ++ drop (endIndex m) s
  end.

(** [s.replace(re, replacement)] for a global regular expression: every
    match, left to right, each search starting where the previous match
    ended (one code unit further after an empty match). *)
Fixpoint replaceLoop (r : regex) (repl : Match → jsstring) (fuel : nat)
    (s : jsstring) : jsstring :=
  match fuel with
  | O => s
  | S fuel' =>
      match search r s 0 with
      | None => s
      | Some m =>
          let rest := drop (endIndex m) s in
          take (index m) s ++ repl m ++
          match matched m, rest with
          | [], c :: rest' => c :: replaceLoop r repl fuel' rest'
          | [], [] => []
          | _ :: _, _ => replaceLoop r repl fuel' rest
          end
      end
  end.

Definition replaceAll (r : regex) (repl : Match → jsstring) (s : jsstring) : jsstring :=
  replaceLoop r repl (S (length s)) s.

(** The replacement patterns [''], ['}'] and ['"$1"']. *)
Definition constant (w : jsstring) : Match → jsstring := λ _, w.

Definition quoted1 : Match → jsstring :=
  λ m, [dquote] ++ default [] (group1 m) ++ [dquote].

End Regex.

(** * JSON.parse *)

Module Json.

(** The values [JSON.parse] returns. A number keeps its lexeme; an
    object keeps its members in the order of the text, and a property is
    read from the last member with the key, as later duplicates
    overwrite earlier ones. *)
Inductive json :=
| JNull
| JBool (b : bool)
| JNumber (lexeme : jsstring)
| JString (s : jsstring)
| JArray (xs : list json)
| JObject (members : list (jsstring * json)).

(** JSON white space: TAB, LF, CR and SP. *)
Definition isJsonSpace (c : ascii) : bool :=
  let n := nat_of_ascii c in (n =? 9) || (n =? 10) || (n =? 13) || (n =? 32).

Fixpoint skipWs (s : jsstring) : jsstring :=
  match s with
  | c :: s' => if isJsonSpace c then skipWs s' else s
  | [] => []
  end.

Definition isDigit (c : ascii) : bool :=
  let n := nat_of_ascii c in (48 <=? n) && (n <=? 57).

Definition hexValue (c : ascii) : option nat :=
  let n := nat_of_ascii c in
  if (48 <=? n) && (n <=? 57) then Some (n - 48)
  else if (65 <=? n) && (n <=? 70) then Some (n - 55)
  else if (97 <=? n) && (n <=? 102) then Some (n - 87)
  else None.

(** The characters of a string literal after its opening quote. An
    escape [\uXXXX] of a code unit from 256 on denotes a string outside
    the alphabet of the embedding and has no value here. *)
Fixpoint parseString (s acc : jsstring) : option (jsstring * jsstring) :=
  match s with
  | [] => None
  | c :: s' =>
      if bool_decide (c = dquote) then Some (rev acc, s')
      else if bool_decide (c = backslash) then
        match s' with
        | [] => None
        | e :: s'' =>
            if bool_decide (e = "u"%char) then
              match s'' with
              | h1 :: h2 :: h3 :: h4 :: s5 =>
                  match hexValue h1, hexValue h2, hexValue h3, hexValue h4 with
                  | Some 0, Some 0, Some d3, Some d4 =>
                      parseString s5 (ascii_of_nat (16 * d3 + d4) :: acc)
                  | _, _, _, _ => None
                  end
              | _ => None
              end
            else
              match
                (if bool_decide (e = dquote) then Some dquote
                 else if bool_decide (e = backslash) then Some backslash
                 else if bool_decide (e = "/"%char) then Some "/"%char
                 else if bool_decide (e = "b"%char) then Some (ascii_of_nat 8)
                 else if bool_decide (e = "f"%char) then Some (ascii_of_nat 12)
                 else if bool_decide (e = "n"%char) then Some (ascii_of_nat 10)
                 else if bool_decide (e = "r"%char) then Some (ascii_of_nat 13)
                 else if bool_decide (e = "t"%char) then Some (ascii_of_nat 9)
                 else None)
              with
              | Some x => parseString s'' (x :: acc)
              | None => None
              end
        end
      else if nat_of_ascii c <? 32 then None
      else parseString s' (c :: acc)
  end.

(** The longest prefix of digits. *)
Fixpoint digits (s : jsstring) : jsstring * jsstring :=
  match s with
  | c :: s' =>
      if isDigit c then let '(ds, r) := digits s' in (c :: ds, r) else ([], s)
  | [] => ([], [])
  end.

(** A number literal: an optional minus sign; a zero or a digit from 1
    to 9 followed by digits; optionally a point and one digit or more;
    optionally e or E, an optional sign and one digit or more. *)
Definition parseNumber (s : jsstring) : option (jsstring * jsstring) :=
  let '(sign, s1) :=
    match s with
    | c :: r => if bool_decide (c = "-"%char) then ([c], r) else ([], s)
    | [] => ([], s)
    end in
  let '(int, s2) := digits s1 in
  match int with
  | [] => None
  | d :: ds =>
      if bool_decide (d = "0"%char) && negb (bool_decide (ds = [])) then None
      else
        let frac :=
          match s2 with
          | c :: r =>
              if bool_decide (c = "."%char) then
                let '(fs, r') := digits r in
                match fs with [] => None | _ => Some (c :: fs, r') end
              else Some ([], s2)
          | [] => Some ([], s2)
          end in
        match frac with
        | None => None
        | Some (fr, s3) =>
            let exp :=
              match s3 with
              | c :: r =>
                  if bool_decide (c = "e"%char) || bool_decide (c = "E"%char) then
                    let '(sg, r1) :=
                      match r with
                      | g :: r' =>
                          if bool_decide (g = "+"%char) || bool_decide (g = "-"%char)
                          then ([g], r') else ([], r)
                      | [] => ([], r)
                      end in
                    let '(es, r2) := digits r1 in
                    match es with [] => None | _ => Some (c :: sg ++ es, r2) end
                  else Some ([], s3)
              | [] => Some ([], s3)
              end in
            match exp with
            | None => None
            | Some (ex, s4) => Some (sign ++ int ++ fr ++ ex, s4)
            end
        end
  end.

(** The grammar of values, by recursive descent. Every recursive call
    follows the consumption of at least one character, so a fuel above
    the length of the text is never used up. *)
Fixpoint parseValue (fuel : nat) (s : jsstring) : option (json * jsstring) :=
  match fuel with
  | O => None
  | S fuel' =>
      match skipWs s with
      | [] => None
      | c :: r =>
          if bool_decide (c = "{"%char) then
            match skipWs r with
            | c' :: r' =>
                if bool_decide (c' = "}"%char) then Some (JObject [], r')
                else parseMembers fuel' (c' :: r') []
            | [] => None
            end
          else if bool_decide (c = "["%char) then
            match skipWs r with
            | c' :: r' =>
                if bool_decide (c' = "]"%char) then Some (JArray [], r')
                else parseElements fuel' (c' :: r') []
            | [] => None
            end
          else if bool_decide (c = dquote) then
            match parseString r [] with
            | Some (x, r') => Some (JString x, r')
            | None => None
            end
          else if JS.startsWith (c :: r) (str "true") then Some (JBool true, drop 4 (c :: r))
          else if JS.startsWith (c :: r) (str "false") then Some (JBool false, drop 5 (c :: r))
          else if JS.startsWith (c :: r) (str "null") then Some (JNull, drop 4 (c :: r))
          else
            match parseNumber (c :: r) with
            | Some (x, r') => Some (JNumber x, r')
            | None => None
            end
      end
  end
with parseMembers (fuel : nat) (s : jsstring) (acc : list (jsstring * json))
    : option (json * jsstring) :=
  match fuel with
  | O => None
  | S fuel' =>
      match s with
      | q :: r =>
          if bool_decide (q = dquote) then
            match parseString r [] with
            | Some (key, r1) =>
                match skipWs r1 with
                | c :: r2 =>
                    if bool_decide (c = ":"%char) then
                      match parseValue fuel' r2 with
                      | Some (v, r3) =>
                          match skipWs r3 with
                          | d :: r4 =>
                              if bool_decide (d = ","%char) then
                                parseMembers fuel' (skipWs r4) ((key, v) :: acc)
                              else if bool_decide (d = "}"%char) then
                                Some (JObject (rev ((key, v) :: acc)), r4)
                              else None
                          | [] => None
                          end
                      | None => None
                      end
                    else None
                | [] => None
                end
            | None => None
            end
          else None
      | [] => None
      end
  end
with parseElements (fuel : nat) (s : jsstring) (acc : list json)
    : option (json * jsstring) :=
  match fuel with
  | O => None
  | S fuel' =>
      match parseValue fuel' s with
      | Some (v, r) =>
          match skipWs r with
          | d :: r' =>
              if bool_decide (d = ","%char) then parseElements fuel' r' (v :: acc)
              else if bool_decide (d = "]"%char) then Some (JArray (rev (v :: acc)), r')
              else None
          | [] => None
          end
      | None => None
      end
  end.

(** [JSON.parse(text)]; [None] is the [SyntaxError] it throws. *)
Definition JSON_parse (text : jsstring) : option json :=
  match parseValue (S (length text)) text with
  | Some (v, rest) => match skipWs rest with [] => Some v | _ => None end
  | None => None
  end.

(** [o[key]] for an own property of a parsed object. *)
Fixpoint getMember (ms : list (jsstring * json)) (key : jsstring) : option json :=
  match ms with
  | [] => None
  | (k, v) :: ms' =>
      match getMember ms' key with
      | Some v' => Some v'
      | None => if bool_decide (k = key) then Some v else None
      end
  end.

(** Whether the double nearest to a number literal is zero: the digits
    are all zero, or the value is at most [2^-1075], half of the least
    positive double. *)
Definition digitsValue (ds : jsstring) : N :=
  fold_left (λ acc c, (10 * acc + N.of_nat (nat_of_ascii c - 48))%N) ds 0%N.

Definition isZeroLexeme (lexeme : jsstring) : bool :=
  let body :=
    match lexeme with
    | c :: r => if bool_decide (c = "-"%char) then r else lexeme
    | [] => lexeme
    end in
  let '(int, r1) := digits body in
  let '(frac, r2) :=
    match r1 with
    | c :: r => if bool_decide (c = "."%char) then digits r else ([], r1)
    | [] => ([], r1)
    end in
  let exp : Z :=
    match r2 with
    | _ :: g :: r =>
        if bool_decide (g = "-"%char) then (- Z.of_N (digitsValue r))%Z
        else if bool_decide (g = "+"%char) then Z.of_N (digitsValue r)
        else Z.of_N (digitsValue (g :: r))
    | _ => 0%Z
    end in
  let mant := Z.of_N (digitsValue (int ++ frac)) in
  let e10 := (exp - Z.of_nat (length frac))%Z in
  (mant =? 0)%Z
  || ((e10 <? 0)%Z && (mant * 2 ^ 1075 <=? 10 ^ (- e10))%Z).

(** [ToBoolean] of a parsed value. *)
Definition truthy (v : json) : bool :=
  match v with
  | JNull => false
  | JBool b => b
  | JNumber lexeme => negb (isZeroLexeme lexeme)
  | JString x => JS.truthy x
  | JArray _ => true
  | JObject _ => true
  end.

End Json.

(** * agent/parser.ts *)

Module Parser.
Import Json Regex.

(** The value of [mapping[name.toLowerCase()] || name]. The table is an
    object literal, so a key that is not its own is looked up on
    [Object.prototype]: of the property names there, [constructor] and
    [__proto__] are the two in lower case, and both hold a truthy
    object, which the expression then returns in place of a string. *)
Inductive ToolName :=
| Name (s : jsstring)
| Inherited (key : jsstring).

#[global] Instance ToolName_eq_dec : EqDecision ToolName.
Proof. solve_decision. Defined.

(** [interface ParsedToolCall] *)
Record ParsedToolCall := mkParsedToolCall {
  name : ToolName;
  parameters : json
}.

(** [interface ParseResult] *)
Record ParseResult := mkParseResult {
  text : jsstring;
  toolCalls : list ParsedToolCall
}.

(** The [mapping] table of [normalizeToolName]. *)
Definition mapping : list (jsstring * jsstring) :=
  [ (str "readfile", str "read_file");
    (str "read-file", str "read_file");
    (str "writefile", str "write_file");
    (str "write-file", str "write_file");
    (str "editfile", str "edit_file");
    (str "edit-file", str "edit_file") ].

Fixpoint lookup (table : list (jsstring * jsstring)) (key : jsstring) : option jsstring :=
  match table with
  | [] => None
  | (k, v) :: table' => if bool_decide (k = key) then Some v else lookup table' key
  end.

(** [normalizeToolName] *)
Definition normalizeToolName (name : jsstring) : ToolName :=
  let key := JS.toLowerCase name in
  match lookup mapping key with
  | Some canonical => Name canonical
  | None =>
      if bool_decide (key = str "constructor") || bool_decide (key = str "__proto__")
      then Inherited key
      else Name name
  end.

(** The text of a name in a template literal, as V8 prints the two
    inherited objects. *)
Definition nameText (n : ToolName) : jsstring :=
  match n with
  | Name s => s
  | Inherited key =>
      if bool_decide (key = str "constructor")
      then str "function Object() { [native code] }"
      else str "[object Object]"
  end.

(** The statements that follow each [JSON.parse] in [tryParseToolCall]:
    [parsed.name && typeof parsed.name === 'string'] selects an object
    with a non-empty string under [name]; [parsed.parameters || {}]
    replaces a missing or falsy [parameters]. Reading [name] of [null]
    throws inside the [try] and is caught like a syntax error. *)
Definition readToolCall (parsed : json) : option ParsedToolCall :=
  match parsed with
  | JObject members =>
      match getMember members (str "name") with
      | Some (JString n) =>
          if JS.truthy n then
            Some {| name := normalizeToolName n;
                    parameters :=
                      match getMember members (str "parameters") with
                      | Some v => if truthy v then v else JObject []
                      | None => JObject []
                      end |}
          else None
      | _ => None
      end
  | _ => None
  end.

(** The pattern of single-quoted literals, with the [g] flag: an
    apostrophe; the group, made of characters other than apostrophe and
    backslash, then any number of times a backslash, a character matched
    by the dot and again characters other than apostrophe and backslash;
    an apostrophe. *)
Definition singleQuotedRegex : regex :=
  seq [ Lit [squote];
        Group (seq [ Star true (Class (noneOf [squote; backslash]));
                     Star true
                       (seq [ Lit [backslash];
                              Class dot;
                              Star true (Class (noneOf [squote; backslash])) ]) ]);
        Lit [squote] ].

(** The pattern of trailing content: a closing brace, any characters,
    the end of the input. *)
Definition trailingRegex : regex :=
  seq [ Lit (str "}"); Star true (Class anyChar); Eos ].

(** [tryParseToolCall] *)
Definition tryParseToolCall (jsonStr : jsstring) : option ParsedToolCall :=
  match JSON_parse jsonStr ≫= readToolCall with
  | Some call => Some call
  | None =>
      let fixed := replaceAll singleQuotedRegex quoted1 jsonStr in
      match JSON_parse fixed ≫= readToolCall with
      | Some call => Some call
      | None =>
          let trimmed := replaceFirst trailingRegex (constant (str "}")) fixed in
          JSON_parse trimmed ≫= readToolCall
      end
  end.

(** The pattern of tagged blocks, with the [g] flag: the opening tag
    with an optional underscore, white space, the lazy group of any
    characters, white space, the closing tag with an optional
    underscore. *)
Definition toolCallRegex : regex :=
  seq [ Lit (str "<tool"); Opt (Lit (str "_")); Lit (str "call>");
        Star true (Class space);
        Group (Star false (Class anyChar));
        Star true (Class space);
        Lit (str "</tool"); Opt (Lit (str "_")); Lit (str "call>") ].

(** The pattern of fenced blocks, with the [g] flag: three backticks,
    an optional [json], white space, an optional line feed, white space;
    the group, made of an opening brace, lazily any characters, the
    quoted word [name], white space, a colon, white space, a quotation
    mark, one or more characters other than a quotation mark, lazily any
    characters and a closing brace; then white space, an optional line
    feed and three backticks. *)
Definition jsonBlockRegex : regex :=
  seq [ Lit (str "```"); Opt (Lit (str "json"));
        Star true (Class space); Opt (Lit [lf]); Star true (Class space);
        Group (seq [ Lit (str "{");
                     Star false (Class anyChar);
                     Lit ([dquote] ++ str "name" ++ [dquote]);
                     Star true (Class space);
                     Lit (str ":");
                     Star true (Class space);
                     Lit [dquote];
                     Plus (Class (noneOf [dquote]));
                     Star false (Class anyChar);
                     Lit (str "}") ]);
        Star true (Class space); Opt (Lit [lf]);
        Lit (str "```") ].

(** The candidate of a match: [match[1].trim()]. *)
Definition candidate (m : Match) : jsstring := JS.trim (default [] (group1 m)).

(** Pattern 1: the tool calls pushed by the first [while] loop. *)
Definition taggedCalls (response : jsstring) : list ParsedToolCall :=
  omap (λ m, tryParseToolCall (candidate m)) (execAll toolCallRegex response).

(** Pattern 2: one turn of the second [while] loop. *)
Definition fencedStep (acc : ParseResult) (m : Match) : ParseResult :=
  match tryParseToolCall (candidate m) with
  | Some parsed =>
      {| text := JS.trim (JS.replaceString (text acc) (matched m) []);
         toolCalls := toolCalls acc ++ [parsed] |}
  | None => acc
  end.

(** The [toolNames] of pattern 3. *)
Definition toolNames : list jsstring :=
  [ str "read_file"; str "readfile"; str "read-file";
    str "write_file"; str "writefile"; str "write-file";
    str "edit_file"; str "editfile"; str "edit-file";
    str "bash"; str "glob" ].

(** The inner [for] loop of pattern 3 over the characters of the
    response from index [i] on, with the running [braceCount]; the
    result is [jsonEnd], [None] standing for the initial [-1]. *)
Fixpoint findJsonEnd (s : jsstring) (i : nat) (braceCount : Z) : option nat :=
  match s with
  | [] => None
  | c :: s' =>
      if bool_decide (c = "{"%char) then findJsonEnd s' (S i) (braceCount + 1)%Z
      else if bool_decide (c = "}"%char) then
        if (braceCount - 1 =? 0)%Z then Some (S i)
        else findJsonEnd s' (S i) (braceCount - 1)%Z
      else findJsonEnd s' (S i) braceCount
  end.

(** [const startPattern] for a tool name: the text of an object that
    opens with the member [name], a colon, a space and the quoted name. *)
Definition startPattern (toolName : jsstring) : jsstring :=
  str "{" ++ [dquote] ++ str "name" ++ [dquote] ++ str ": "
  ++ [dquote] ++ toolName ++ [dquote].

(** Pattern 3, for one tool name: [jsonStr], when [startPattern] occurs
    and [jsonEnd > jsonStart]. *)
Definition bareCandidate (response toolName : jsstring) : option jsstring :=
  match JS.indexOf response (startPattern toolName) with
  | None => None
  | Some startIdx =>
      let jsonStart := startIdx in
      match findJsonEnd (drop jsonStart response) jsonStart 0 with
      | None => None
      | Some jsonEnd =>
          if jsonStart <? jsonEnd
          then Some (JS.substring response jsonStart jsonEnd)
          else None
      end
  end.

(** Pattern 3: one turn of the loop over [toolNames]. *)
Definition bareStep (response : jsstring) (acc : ParseResult) (toolName : jsstring)
    : ParseResult :=
  match bareCandidate response toolName with
  | None => acc
  | Some jsonStr =>
      match tryParseToolCall jsonStr with
      | Some parsed =>
          {| text := JS.trim (JS.replaceString (text acc) jsonStr []);
             toolCalls := toolCalls acc ++ [parsed] |}
      | None => acc
      end
  end.

(** The state of [text] and [toolCalls] after pattern 1, and after
    pattern 2. *)
Definition afterTagged (response : jsstring) : ParseResult :=
  {| text := JS.trim (replaceAll toolCallRegex (constant []) response);
     toolCalls := taggedCalls response |}.

Definition afterFenced (response : jsstring) : ParseResult :=
  foldl fencedStep (afterTagged response) (execAll jsonBlockRegex response).

(** [parseToolCalls] *)
Definition parseToolCalls (response : jsstring) : ParseResult :=
  if bool_decide (length (toolCalls (afterFenced response)) = 0)
  then foldl (bareStep response) (afterFenced response) toolNames
  else afterFenced response.

(** [formatToolResult] *)
Definition formatToolResult (toolName : jsstring)
    (success : bool) (output : jsstring) (error : option jsstring) : jsstring :=
  if success then
    str "<tool_result name=" ++ [dquote] ++ toolName ++ [dquote] ++ str ">" ++ [lf]
    ++ output ++ [lf] ++ str "</tool_result>"
  else
    str "<tool_result name=" ++ [dquote] ++ toolName ++ [dquote]
    ++ str " error=" ++ [dquote] ++ str "true" ++ [dquote] ++ str ">" ++ [lf]
    ++ (match error with
        | Some e => if JS.truthy e then e else str "Unknown error"
        | None => str "Unknown error"
        end)
    ++ [lf] ++ str "</tool_result>".

End Parser.

(** * Awaited calls and exceptions

    A computation acts on a state and either returns a value or throws.
    A thrown value is kept as the text that a handler of the sources
    derives from it, [error instanceof Error ? error.message :
    String(error)]. *)

Module Effect.

Inductive Outcome (A : Type) :=
| Returned (a : A)
| Thrown (error : jsstring).
Arguments Returned {A} a.
Arguments Thrown {A} error.

Definition M (S A : Type) : Type := S → S * Outcome A.

Definition ret {S A} (a : A) : M S A := λ s, (s, Returned a).

Definition throw {S A} (error : jsstring) : M S A := λ s, (s, Thrown error).

Definition bind {S A B} (m : M S A) (f : A → M S B) : M S B :=
  λ s, match m s with
       | (s', Returned a) => f a s'
       | (s', Thrown e) => (s', Thrown e)
       end.

(** [try { m } catch (error) { h }] *)
Definition tryCatch {S A} (m : M S A) (h : jsstring → M S A) : M S A :=
  λ s, match m s with
       | (s', Returned a) => (s', Returned a)
       | (s', Thrown e) => h e s'
       end.

Definition get {S} : M S S := λ s, (s, Returned s).

Definition modify {S} (f : S → S) : M S unit := λ s, (f s, Returned tt).

Module Notations.
  Notation "x <- m ;; k" := (bind m (λ x, k))
    (at level 100, m at next level, right associativity,
     format "'[v' x  <-  m  ;;  '/' k ']'").
  Notation "m ;; k" := (bind m (λ _, k))
    (at level 100, right associativity).
End Notations.

End Effect.

(** * agent/context.ts *)

Module Context.

Inductive Role := system | user | assistant.

#[global] Instance Role_eq_dec : EqDecision Role.
Proof. solve_decision. Defined.

(** [interface Message] of [providers/base.ts] *)
Record Message := mkMessage {
  role : Role;
  content : jsstring
}.

(** [interface ConversationContext] *)
Record ConversationContext := mkContext {
  messages : list Message;
  workingDirectory : jsstring;
  planMode : bool
}.

Definition set_messages (ms : list Message) (c : ConversationContext) : ConversationContext :=
  mkContext ms (workingDirectory c) (planMode c).

(** [createContext], given the directory that [workingDirectory ||
    process.cwd()] evaluates to. *)
Definition createContext (workingDirectory : jsstring) : ConversationContext :=
  {| messages := []; workingDirectory := workingDirectory; planMode := false |}.

(** [addSystemMessage] *)
Definition addSystemMessage (content : jsstring) (c : ConversationContext)
    : ConversationContext :=
  let systemMessage := mkMessage system content in
  match list_find (λ m, role m = system) (messages c) with
  | Some (existingIndex, _) =>
      set_messages (<[existingIndex := systemMessage]> (messages c)) c
  | None => set_messages (systemMessage :: messages c) c
  end.

(** [addUserMessage] *)
Definition addUserMessage (content : jsstring) (c : ConversationContext)
    : ConversationContext :=
  set_messages (messages c ++ [mkMessage user content]) c.

(** [addAssistantMessage] *)
Definition addAssistantMessage (content : jsstring) (c : ConversationContext)
    : ConversationContext :=
  set_messages (messages c ++ [mkMessage assistant content]) c.

(** [clearContext] *)
Definition clearContext (c : ConversationContext) : ConversationContext :=
  match list_find (λ m, role m = system) (messages c) with
  | Some (_, systemMessage) => set_messages [systemMessage] c
  | None => set_messages [] c
  end.

(** [getMessageCount] *)
Definition getMessageCount (c : ConversationContext) : nat :=
  length (filter (λ m, role m ≠ system) (messages c)).

(** [addToolResult] *)
Definition addToolResult (toolName result : jsstring) (c : ConversationContext)
    : ConversationContext :=
  set_messages
    (messages c
     ++ [mkMessage user
           (str "Tool " ++ [dquote] ++ toolName ++ [dquote] ++ str " returned:"
            ++ [lf] ++ result)]) c.

End Context.

(** * tools/base.ts, tools/index.ts and agent/agent.ts *)

Module Agent.
Import Effect Effect.Notations Context Json Parser.

(** [const MAX_TOOL_ITERATIONS] *)
Definition MAX_TOOL_ITERATIONS : nat := 20.

(** [interface ToolResult] *)
Record ToolResult := mkToolResult {
  success : bool;
  output : jsstring;
  error : option jsstring
}.

Section Agent.
(** The world outside the program: the model provider, the file system
    and the processes that tools touch. *)
Context {W : Type}.

(** [abstract class Tool]: [definition.name] and [execute(params,
    context)], given the parameters and [context.workingDirectory]. *)
Record Tool := mkTool {
  definition_name : jsstring;
  execute : json → jsstring → M W ToolResult
}.

(** [interface AgentConfig]. [provider.chat(messages)] yields
    [response.content]; the optional callbacks are notifications, which
    act on the world and return. [onThinking] is never called by
    [agent.ts]. *)
Record AgentConfig := mkAgentConfig {
  provider_chat : list Message → M W jsstring;
  tools : list Tool;
  onToolCall : option (ToolName → json → W → W);
  onToolResult : option (ToolName → bool → jsstring → W → W)
}.

(** [getToolByName] of [tools/index.ts]: strict equality with a name
    that is not a string holds for no tool. *)
Definition getToolByName (tools : list Tool) (name : ToolName) : option Tool :=
  match name with
  | Name n => List.find (λ t, bool_decide (definition_name t = n)) tools
  | Inherited _ => None
  end.

(** What [run] acts on: the world and the [context] it mutates. *)
Record State := mkState {
  world : W;
  context : ConversationContext
}.

Definition onWorld {A} (m : M W A) : M State A :=
  λ st, let '(w, r) := m (world st) in (mkState w (context st), r).

Definition onContext (f : ConversationContext → ConversationContext) : M State unit :=
  modify (λ st, mkState (world st) (f (context st))).

Definition notify (f : option (W → W)) : M State unit :=
  match f with
  | Some g => modify (λ st, mkState (g (world st)) (context st))
  | None => ret tt
  end.

(** [Array.prototype.join] *)
Fixpoint join (sep : jsstring) (parts : list jsstring) : jsstring :=
  match parts with
  | [] => []
  | [x] => x
  | x :: rest => x ++ sep ++ join sep rest
  end.

Section Run.
Variable config : AgentConfig.
(** [buildSystemPrompt], a text made of the tool catalogue, the working
    directory and the mode flag; no statement below reads it. *)
Variable buildSystemPrompt : ConversationContext → jsstring.

(** The body of [for (const toolCall of toolCalls)] for one call: the
    formatted result it pushes on [toolResults]. *)
Definition runToolCall (toolCall : ParsedToolCall) : M State jsstring :=
  match getToolByName (tools config) (name toolCall) with
  | None =>
      ret (formatToolResult (nameText (name toolCall)) false []
             (Some (str "Unknown tool: " ++ nameText (name toolCall))))
  | Some tool =>
      notify (option_map (λ f, f (name toolCall) (parameters toolCall))
                (onToolCall config)) ;;
      st <- get ;;
      result <- onWorld (execute tool (parameters toolCall)
                           (workingDirectory (context st))) ;;
      notify (option_map
                (λ f, f (name toolCall) (success result)
                        (if JS.truthy (output result) then output result
                         else default [] (error result)))
                (onToolResult config)) ;;
      ret (formatToolResult (nameText (name toolCall))
             (success result) (output result) (error result))
  end.

(** The [for] loop over the tool calls of one completion. *)
Fixpoint runToolCalls (toolCalls : list ParsedToolCall) (toolResults : list jsstring)
    : M State (list jsstring) :=
  match toolCalls with
  | [] => ret toolResults
  | toolCall :: rest =>
      formatted <- runToolCall toolCall ;;
      runToolCalls rest (toolResults ++ [formatted])
  end.

(** The [while (iteration < MAX_TOOL_ITERATIONS)] loop, with
    [remaining = MAX_TOOL_ITERATIONS - iteration]. The [catch] clause
    stops the spinner and throws the error again, so an exception of
    [provider.chat] or of a tool leaves the loop as it is. *)
Fixpoint loop (remaining : nat) (finalResponse : jsstring) : M State jsstring :=
  match remaining with
  | O =>
      ret (if JS.truthy finalResponse then finalResponse
           else str "I was unable to complete the task within the maximum number of steps.")
  | S remaining' =>
      st <- get ;;
      response <- onWorld (provider_chat config (messages (context st))) ;;
      let parsed := parseToolCalls response in
      let finalResponse :=
        if JS.truthy (text parsed) then text parsed else finalResponse in
      match toolCalls parsed with
      | [] =>
          onContext (addAssistantMessage response) ;;
          ret (if JS.truthy finalResponse then finalResponse else response)
      | _ :: _ =>
          toolResults <- runToolCalls (toolCalls parsed) [] ;;
          onContext (addAssistantMessage response) ;;
          onContext (addUserMessage (join [lf; lf] toolResults)) ;;
          loop remaining' finalResponse
      end
  end.

(** [Agent.run] *)
Definition run (userMessage : jsstring) : M State jsstring :=
  st <- get ;;
  onContext (addSystemMessage (buildSystemPrompt (context st))) ;;
  onContext (addUserMessage userMessage) ;;
  loop MAX_TOOL_ITERATIONS [].

End Run.
End Agent.

Arguments Tool : clear implicits.
Arguments AgentConfig : clear implicits.
Arguments State : clear implicits.

End Agent.

(** * planning/types.ts and planning/plan-manager.ts *)

Module Planning.

(** [TaskStatus] *)
Inductive TaskStatus := pending | in_progress | completed | failed | skipped.

#[global] Instance TaskStatus_eq_dec : EqDecision TaskStatus.
Proof. solve_decision. Defined.

(** [interface Task] *)
Record Task := mkTask {
  id : jsstring;
  title : jsstring;
  description : jsstring;
  status : TaskStatus;
  dependencies : list jsstring;
  verifyCommand : option jsstring;
  attempts : nat;
  maxAttempts : nat;
  error : option jsstring
}.

(** The status of a plan, [Plan['status']]; the constructors carry a
    prefix because three of the literals are shared with [TaskStatus]. *)
Inductive PlanStatus :=
  plan_draft | plan_approved | plan_in_progress | plan_completed | plan_failed.

#[global] Instance PlanStatus_eq_dec : EqDecision PlanStatus.
Proof. solve_decision. Defined.

Record VerifyCommands := mkVerifyCommands {
  build : option jsstring;
  test : option jsstring;
  lint : option jsstring
}.

(** [interface Plan]; [createdAt] is kept as the text of the date. *)
Record Plan := mkPlan {
  plan_id : jsstring;
  goal : jsstring;
  createdAt : jsstring;
  plan_status : PlanStatus;
  summary : jsstring;
  tasks : list Task;
  currentTaskIndex : nat;
  verifyCommands : VerifyCommands;
  workingDirectory : jsstring
}.

(** [interface PlanConfig] and [DEFAULT_PLAN_CONFIG] *)
Record PlanConfig := mkPlanConfig {
  maxTaskAttempts : nat;
  runBuildAfterEachTask : bool;
  runTestAfterEachTask : bool;
  stopOnFirstFailure : bool
}.

Definition DEFAULT_PLAN_CONFIG : PlanConfig :=
  {| maxTaskAttempts := 3;
     runBuildAfterEachTask := true;
     runTestAfterEachTask := false;
     stopOnFirstFailure := false |}.

(** [class PlanManager]: the private fields [plan], [config], [planDir]. *)
Record PlanManager := mkPlanManager {
  plan : option Plan;
  config : PlanConfig;
  planDir : jsstring
}.

(** Field assignments. *)
Definition set_status (s : TaskStatus) (t : Task) : Task :=
  mkTask (id t) (title t) (description t) s (dependencies t)
         (verifyCommand t) (attempts t) (maxAttempts t) (error t).

Definition set_attempts (n : nat) (t : Task) : Task :=
  mkTask (id t) (title t) (description t) (status t) (dependencies t)
         (verifyCommand t) n (maxAttempts t) (error t).

Definition set_error (e : option jsstring) (t : Task) : Task :=
  mkTask (id t) (title t) (description t) (status t) (dependencies t)
         (verifyCommand t) (attempts t) (maxAttempts t) e.

Definition set_plan_status (s : PlanStatus) (p : Plan) : Plan :=
  mkPlan (plan_id p) (goal p) (createdAt p) s (summary p) (tasks p)
         (currentTaskIndex p) (verifyCommands p) (workingDirectory p).

Definition set_tasks (ts : list Task) (p : Plan) : Plan :=
  mkPlan (plan_id p) (goal p) (createdAt p) (plan_status p) (summary p) ts
         (currentTaskIndex p) (verifyCommands p) (workingDirectory p).

Definition set_currentTaskIndex (i : nat) (p : Plan) : Plan :=
  mkPlan (plan_id p) (goal p) (createdAt p) (plan_status p) (summary p)
         (tasks p) i (verifyCommands p) (workingDirectory p).

Definition set_verifyCommands (c : VerifyCommands) (p : Plan) : Plan :=
  mkPlan (plan_id p) (goal p) (createdAt p) (plan_status p) (summary p)
         (tasks p) (currentTaskIndex p) c (workingDirectory p).

Definition set_plan (p : option Plan) (m : PlanManager) : PlanManager :=
  mkPlanManager p (config m) (planDir m).

(** [get currentPlan], [get hasPlan], [get isApproved] *)
Definition currentPlan (m : PlanManager) : option Plan := plan m.

Definition hasPlan (m : PlanManager) : bool :=
  match plan m with Some _ => true | None => false end.

Definition isApproved (m : PlanManager) : bool :=
  match plan m with
  | Some p =>
      bool_decide (plan_status p = plan_approved)
      || bool_decide (plan_status p = plan_in_progress)
  | None => false
  end.

(** The elements of the [tasks] argument of [createPlan]:
    [Omit<Task, 'id' | 'status' | 'attempts' | 'maxAttempts'>]. *)
Record TaskInput := mkTaskInput {
  in_title : jsstring;
  in_description : jsstring;
  in_dependencies : list jsstring;
  in_verifyCommand : option jsstring;
  in_error : option jsstring
}.

(** The decimal numeral of a natural number, as a template literal
    prints it. *)
Definition digit (n : nat) : ascii := ascii_of_nat (48 + n).

Fixpoint decimal_loop (fuel n : nat) (acc : jsstring) : jsstring :=
  match fuel with
  | O => acc
  | S fuel' =>
      let acc' := digit (n mod 10) :: acc in
      if (n / 10 =? 0)%nat then acc' else decimal_loop fuel' (n / 10) acc'
  end.

Definition decimal (n : nat) : jsstring := decimal_loop (S n) n [].

(** [createPlan]; [uuid8] stands for [randomUUID().slice(0, 8)], [now]
    for [new Date()] and [dir] for [dirname(this.planDir)], which the
    caller's environment supplies. *)
Definition createPlan (uuid8 now dir : jsstring) (goal summary : jsstring)
    (ts : list TaskInput) (m : PlanManager) : Plan * PlanManager :=
  let p :=
    {| plan_id := uuid8;
       goal := goal;
       createdAt := now;
       plan_status := plan_draft;
       summary := summary;
       tasks := imap (λ i t,
         {| id := str "task-" ++ decimal (i + 1);
            title := in_title t;
            description := in_description t;
            status := pending;
            dependencies := in_dependencies t;
            verifyCommand := in_verifyCommand t;
            attempts := 0;
            maxAttempts := maxTaskAttempts (config m);
            error := in_error t |}) ts;
       currentTaskIndex := 0;
       verifyCommands := mkVerifyCommands None None None;
       workingDirectory := dir |} in
  (p, set_plan (Some p) m).

(** [setVerifyCommands] *)
Definition setVerifyCommands (c : VerifyCommands) (m : PlanManager) : PlanManager :=
  match plan m with
  | Some p => set_plan (Some (set_verifyCommands c p)) m
  | None => m
  end.

(** [approvePlan] *)
Definition approvePlan (m : PlanManager) : bool * PlanManager :=
  match plan m with
  | None => (false, m)
  | Some p =>
      if bool_decide (plan_status p ≠ plan_draft) then (false, m)
      else (true, set_plan (Some (set_plan_status plan_approved p)) m)
  end.

(** [startExecution] *)
Definition startExecution (m : PlanManager) : bool * PlanManager :=
  match plan m with
  | None => (false, m)
  | Some p =>
      if bool_decide (plan_status p ≠ plan_approved) then (false, m)
      else (true, set_plan (Some (set_plan_status plan_in_progress p)) m)
  end.

(** [getCurrentTask] *)
Definition getCurrentTask (m : PlanManager) : option Task :=
  match plan m with
  | None => None
  | Some p => tasks p !! currentTaskIndex p
  end.

(** [this.plan.tasks.find(t => t.id === taskId)]: the first task carrying
    the id, with its position in the array (the object the source then
    mutates). *)
Definition findTask (taskId : jsstring) (ts : list Task) : option (nat * Task) :=
  list_find (λ t, id t = taskId) ts.

(** The callback of [task.dependencies.every] in [getNextTask]:
    [dep?.status === 'completed'] is false when no task has the id. *)
Definition depComplete (p : Plan) (depId : jsstring) : bool :=
  match findTask depId (tasks p) with
  | Some (_, dep) => bool_decide (status dep = completed)
  | None => false
  end.

Definition depsComplete (p : Plan) (task : Task) : bool :=
  forallb (depComplete p) (dependencies task).

(** The test of one loop iteration of [getNextTask]. *)
Definition runnable (p : Plan) (task : Task) : bool :=
  bool_decide (status task = pending) && depsComplete p task.

(** The [for] loop of [getNextTask], started at index [i] with [n]
    indices left below [tasks.length]. *)
Fixpoint getNextTask_loop (p : Plan) (n i : nat) : option nat :=
  match n with
  | O => None
  | S n' =>
      match tasks p !! i with
      | None => None
      | Some task =>
          if runnable p task then Some i
          else getNextTask_loop p n' (S i)
      end
  end.

(** [getNextTask]. The source returns the task object itself, an alias
    of the array element; the embedding returns its index, and the
    object is [tasks p !! i] of the plan held by the manager. *)
Definition getNextTask (m : PlanManager) : option nat * PlanManager :=
  match plan m with
  | None => (None, m)
  | Some p =>
      match getNextTask_loop p (length (tasks p) - currentTaskIndex p)
                             (currentTaskIndex p) with
      | Some i => (Some i, set_plan (Some (set_currentTaskIndex i p)) m)
      | None => (None, m)
      end
  end.

(** The task object returned by [getNextTask], read through its alias. *)
Definition taskAt (m : PlanManager) (i : nat) : option Task :=
  match plan m with
  | Some p => tasks p !! i
  | None => None
  end.

(** Mutation of the object found by [find]. *)
Definition updateTask (taskId : jsstring) (f : Task → Task) (p : Plan) : Plan :=
  match findTask taskId (tasks p) with
  | Some (i, _) => set_tasks (alter f i (tasks p)) p
  | None => p
  end.

(** [markTaskInProgress] *)
Definition markTaskInProgress (taskId : jsstring) (m : PlanManager) : PlanManager :=
  match plan m with
  | None => m
  | Some p =>
      set_plan (Some (updateTask taskId
        (λ t, set_attempts (S (attempts t)) (set_status in_progress t)) p)) m
  end.

(** [checkPlanCompletion] *)
Definition checkPlanCompletion (m : PlanManager) : PlanManager :=
  match plan m with
  | None => m
  | Some p =>
      let allCompleted :=
        forallb (λ t, bool_decide (status t = completed)) (tasks p) in
      let anyFailed :=
        existsb (λ t, bool_decide (status t = failed)) (tasks p) in
      if allCompleted then set_plan (Some (set_plan_status plan_completed p)) m
      else if anyFailed && stopOnFirstFailure (config m)
      then set_plan (Some (set_plan_status plan_failed p)) m
      else m
  end.

(** [markTaskCompleted] *)
Definition markTaskCompleted (taskId : jsstring) (m : PlanManager) : PlanManager :=
  checkPlanCompletion
    match plan m with
    | None => m
    | Some p =>
        set_plan (Some (updateTask taskId
          (λ t, set_error None (set_status completed t)) p)) m
    end.

(** [markTaskFailed] *)
Definition markTaskFailed (taskId err : jsstring) (m : PlanManager) : PlanManager :=
  match plan m with
  | None => m
  | Some p =>
      match findTask taskId (tasks p) with
      | None => m
      | Some (i, task) =>
          let task1 := set_error (Some err) task in
          if (maxAttempts task1 <=? attempts task1)%nat then
            let p1 := set_tasks (<[i := set_status failed task1]> (tasks p)) p in
            if stopOnFirstFailure (config m)
            then set_plan (Some (set_plan_status plan_failed p1)) m
            else set_plan (Some p1) m
          else
            set_plan (Some (set_tasks (<[i := set_status pending task1]> (tasks p)) p)) m
      end
  end.

(** [getProgress] without the rounded percentage, which no caller
    modelled here reads. *)
Definition getProgress (m : PlanManager) : nat * nat :=
  match plan m with
  | None => (0, 0)
  | Some p =>
      (length (filter (λ t, status t = completed) (tasks p)), length (tasks p))
  end.

(** [clearPlan] *)
Definition clearPlan (m : PlanManager) : PlanManager := set_plan None m.

(** The calls a client can make on a manager that keeps its plan
    ([createPlan], [loadPlan] and [clearPlan] install another plan). *)
Inductive Call :=
| CallApprovePlan
| CallStartExecution
| CallGetNextTask
| CallSetVerifyCommands (c : VerifyCommands)
| CallMarkTaskInProgress (taskId : jsstring)
| CallMarkTaskCompleted (taskId : jsstring)
| CallMarkTaskFailed (taskId err : jsstring).

Definition call (c : Call) (m : PlanManager) : PlanManager :=
  match c with
  | CallApprovePlan => (approvePlan m).2
  | CallStartExecution => (startExecution m).2
  | CallGetNextTask => (getNextTask m).2
  | CallSetVerifyCommands c => setVerifyCommands c m
  | CallMarkTaskInProgress taskId => markTaskInProgress taskId m
  | CallMarkTaskCompleted taskId => markTaskCompleted taskId m
  | CallMarkTaskFailed taskId err => markTaskFailed taskId err m
  end.

Definition calls (cs : list Call) (m : PlanManager) : PlanManager :=
  foldl (λ m c, call c m) m cs.

(** One run of a task that ends in failure, as the executor drives it:
    [markTaskInProgress] at the start, [markTaskFailed] at the end. *)
Definition failedRun (taskId err : jsstring) (m : PlanManager) : PlanManager :=
  markTaskFailed taskId err (markTaskInProgress taskId m).

(** ** Vocabulary of the statements about plans *)

(** The position of a plan status on
    draft, approved, in_progress, completed or failed. *)
Definition stage (s : PlanStatus) : nat :=
  match s with
  | plan_draft => 0
  | plan_approved => 1
  | plan_in_progress => 2
  | plan_completed => 3
  | plan_failed => 3
  end.

(** The dependency graph of a plan has the tasks as vertices, named by
    their ids, and an edge from a task to each of its dependencies. It
    is a DAG when the ids name the tasks uniquely, every dependency is a
    task of the plan, and a rank decreases along every edge. *)
Definition dag (p : Plan) : Prop :=
  NoDup (id <$> tasks p) ∧
  ∃ rank : jsstring → nat,
    ∀ t d, t ∈ tasks p → d ∈ dependencies t →
      d ∈ (id <$> tasks p) ∧ rank d < rank (id t).

(** [u] is a dependency task of [t]. *)
Definition dependency_of (p : Plan) (t u : Task) : Prop :=
  u ∈ tasks p ∧ id u ∈ dependencies t.

(** A pending task all of whose dependency tasks are completed. *)
Definition eligible (p : Plan) (t : Task) : Prop :=
  status t = pending ∧ ∀ u, dependency_of p t u → status u = completed.

(** ** Persistence: [loadPlan] *)

Section LoadPlan.
Import Json.

(** The file system as [readFile(path, 'utf-8')] sees it: the content
    of the file, or [None] when the read is rejected. *)
Variable readFile : jsstring → option jsstring.
(** [path.join] of Node. *)
Variable join : jsstring → jsstring → jsstring.
(** The parsed value seen through the declared type [Plan | null] of
    the field it is assigned to; the source stores it unvalidated. *)
Variable asPlan : json → option Plan.


End LoadPlan.

End Planning.

(** * planning/verifier.ts *)

Module Verifier.
Import Effect Effect.Notations.

(** [interface VerificationResult] *)
Record VerificationResult := mkVerificationResult {
  success : bool;
  command : jsstring;
  output : jsstring;
  exitCode : Z
}.

(** How the promise of the promisified [child_process.exec] settles:
    fulfilled with [stdout] and [stderr], or rejected with an [Error]
    that carries what was captured, the exit [code] (absent when the
    process was killed on timeout), [killed] and its [message]. *)
Inductive Settled :=
| Fulfilled (stdout stderr : jsstring)
| Rejected (stdout stderr : option jsstring) (code : option Z)
           (killed : bool) (message : jsstring).

(** [class Verifier]: the private fields. *)
Record Verifier := mkVerifier {
  workingDirectory : jsstring;
  timeout : N
}.

Section Verifier.
Context {W : Type}.
(** [execAsync(command, { cwd, timeout, maxBuffer, shell })] *)
Variable execAsync : jsstring → jsstring → N → W → W * Settled.

Definition truthyOpt (x : option jsstring) : bool :=
  match x with Some s => JS.truthy s | None => false end.

(** [runCommand]: the [try] block and its [catch] clause. *)
Definition runCommand (v : Verifier) (command : jsstring) : M W VerificationResult :=
  λ w,
    match execAsync command (workingDirectory v) (timeout v) w with
    | (w', Fulfilled stdout stderr) =>
        let output :=
          stdout ++ (if JS.truthy stderr
                     then [lf] ++ str "stderr:" ++ [lf] ++ stderr else []) in
        (w', Returned
           {| success := true;
              command := command;
              output := if JS.truthy (JS.trim output) then JS.trim output
                        else str "(completed with no output)";
              exitCode := 0 |})
    | (w', Rejected stdout stderr code killed message) =>
        let output1 := if truthyOpt stdout then default [] stdout else [] in
        let output2 :=
          if truthyOpt stderr
          then output1 ++ (if JS.truthy output1 then [lf] else []) ++ default [] stderr
          else output1 in
        let output3 :=
          if negb (JS.truthy output2) && JS.truthy message then message else output2 in
        (w', Returned
           {| success := false;
              command := command;
              output := JS.trim output3;
              exitCode := match code with
                          | Some c => if (c =? 0)%Z then 1%Z else c
                          | None => 1%Z
                          end |})
    end.

(** [runBuild], [runTests], [runLint] *)
Definition runBuild (v : Verifier) (buildCommand : jsstring) := runCommand v buildCommand.
Definition runTests (v : Verifier) (testCommand : jsstring) := runCommand v testCommand.
Definition runLint (v : Verifier) (lintCommand : jsstring) := runCommand v lintCommand.

(** One step of [verifyAll]: [if (command && allSuccess)]. *)
Definition verifyStep (v : Verifier) (command : option jsstring)
    (acc : bool * list VerificationResult) : M W (bool * list VerificationResult) :=
  let '(allSuccess, results) := acc in
  match command with
  | Some c =>
      if JS.truthy c && allSuccess then
        result <- runCommand v c ;;
        ret (if success result then allSuccess else false, results ++ [result])
      else ret acc
  | None => ret acc
  end.

(** [verifyAll]: lint, build, test. The test of the lint step has no
    [allSuccess] conjunct; [allSuccess] is still [true] there. *)
Definition verifyAll (v : Verifier) (commands : Planning.VerifyCommands)
    : M W (bool * list VerificationResult) :=
  r1 <- verifyStep v (Planning.lint commands) (true, []) ;;
  r2 <- verifyStep v (Planning.build commands) r1 ;;
  verifyStep v (Planning.test commands) r2.

End Verifier.
End Verifier.

(** * planning/executor.ts *)

Module Executor.
Import Effect Effect.Notations Planning.

(** [interface ExecutionResult]; its [task] field is the alias the
    executor already holds. *)
Record ExecutionResult := mkExecutionResult {
  success : bool;
  output : jsstring;
  verification : option Verifier.VerificationResult
}.

Section Executor.
Context {W : Type}.

(** [interface ExecutorCallbacks]: optional notifications, which act on
    the world and return. *)
Record ExecutorCallbacks := mkExecutorCallbacks {
  onTaskStart : option (Task → W → W);
  onTaskComplete : option (Task → ExecutionResult → W → W);
  onTaskFailed : option (Task → jsstring → bool → W → W);
  onVerification : option (bool → jsstring → W → W);
  onProgress : option (nat → nat → W → W);
  onPlanComplete : option (bool → W → W)
}.

(** [class Executor]: the fields that never change. *)
Record Executor := mkExecutor {
  agent : Agent.AgentConfig W;
  buildSystemPrompt : Context.ConversationContext → jsstring;
  execAsync : jsstring → jsstring → N → W → W * Verifier.Settled;
  verifier : Verifier.Verifier;
  config : PlanConfig;
  callbacks : ExecutorCallbacks;
  (** whether a client has called [stop()] since [execute] reset the
      flag, which it can do while [execute] awaits *)
  stopCalled : W → bool
}.

(** The fields that change, with the world: [planManager] is the
    object shared with the caller. *)
Record State := mkState {
  world : W;
  planManager : PlanManager;
  context : Context.ConversationContext;
  isRunning : bool;
  shouldStop : bool
}.

Definition set_world (w : W) (st : State) : State :=
  mkState w (planManager st) (context st) (isRunning st) (shouldStop st).
Definition set_planManager (m : PlanManager) (st : State) : State :=
  mkState (world st) m (context st) (isRunning st) (shouldStop st).
Definition set_context (c : Context.ConversationContext) (st : State) : State :=
  mkState (world st) (planManager st) c (isRunning st) (shouldStop st).
Definition set_isRunning (b : bool) (st : State) : State :=
  mkState (world st) (planManager st) (context st) b (shouldStop st).
Definition set_shouldStop (b : bool) (st : State) : State :=
  mkState (world st) (planManager st) (context st) (isRunning st) b.

Variable ex : Executor.

Definition onWorld {A} (m : M W A) : M State A :=
  λ st, let '(w, r) := m (world st) in (set_world w st, r).

Definition notify (f : option (W → W)) : M State unit :=
  match f with
  | Some g => modify (λ st, set_world (g (world st)) st)
  | None => ret tt
  end.

(** [this.agent.run(prompt, this.context)] *)
Definition agentRun (prompt : jsstring) : M State jsstring :=
  λ st,
    let '(ast, r) :=
      Agent.run (agent ex) (buildSystemPrompt ex) prompt
                (Agent.mkState (world st) (context st)) in
    (set_context (Agent.context ast) (set_world (Agent.world ast) st), r).

(** [buildTaskPrompt] *)
Definition buildTaskPrompt (task : Task) : jsstring :=
  let attemptInfo :=
    if 0 <? attempts task then
      [lf; lf] ++ str "This is attempt " ++ decimal (attempts task + 1) ++ str "/"
      ++ decimal (maxAttempts task) ++ str ". Previous attempt failed with: "
      ++ default (str "undefined") (error task)
    else [] in
  str "## Task: " ++ title task ++ [lf; lf] ++ description task ++ attemptInfo
  ++ [lf; lf] ++ str "Instructions:" ++ [lf]
  ++ str "- Implement this specific task only" ++ [lf]
  ++ str "- Use the tools to create/modify files as needed" ++ [lf]
  ++ str "- Be thorough but focused on this task" ++ [lf]
  ++ str "- After you're done, the build will be run to verify your changes".

(** [attemptFix] *)
Definition attemptFix (task : Task) (error : jsstring) : M State (bool * jsstring) :=
  let fixPrompt :=
    str "The build/test failed after implementing " ++ [dquote] ++ title task
    ++ [dquote] ++ str "." ++ [lf; lf] ++ str "Error output:" ++ [lf]
    ++ str "```" ++ [lf] ++ error ++ [lf] ++ str "```" ++ [lf; lf]
    ++ str "Please analyze the error and fix the issue. Use the tools to read the relevant files, understand the problem, and make the necessary corrections." in
  tryCatch (response <- agentRun fixPrompt ;; ret (true, response))
           (λ err, ret (false, err)).

Definition truthyOpt (x : option jsstring) : bool :=
  match x with Some s => JS.truthy s | None => false end.

Definition notifyVerification (v : Verifier.VerificationResult) : M State unit :=
  notify (option_map (λ f, f (Verifier.success v) (Verifier.output v))
            (onVerification (callbacks ex))).

(** [verification?.success !== false] *)
Definition notFailed (verification : option Verifier.VerificationResult) : bool :=
  match verification with
  | Some v => Verifier.success v
  | None => true
  end.

(** [executeTask], for the task object [task] as it is when the call
    is made; the plan is not touched while it runs, and reading a field
    of an absent plan throws a [TypeError] inside the [try]. *)
Definition executeTask (task : Task) : M State ExecutionResult :=
  tryCatch
    (response <- agentRun (buildTaskPrompt task) ;;
     st <- get ;;
     commands <-
       match plan (planManager st) with
       | Some p => ret (verifyCommands p)
       | None => throw (str "Cannot read properties of null (reading 'verifyCommands')")
       end ;;
     verification1 <-
       (if runBuildAfterEachTask (config ex) && truthyOpt (build commands) then
          let buildCommand := default [] (build commands) in
          v <- onWorld (Verifier.runBuild (execAsync ex) (verifier ex) buildCommand) ;;
          notifyVerification v ;;
          if Verifier.success v then ret (Some v)
          else
            fixResult <- attemptFix task (Verifier.output v) ;;
            if fixResult.1 then
              v' <- onWorld (Verifier.runBuild (execAsync ex) (verifier ex) buildCommand) ;;
              notifyVerification v' ;;
              ret (Some v')
            else ret (Some v)
        else ret None) ;;
     verification2 <-
       (if runTestAfterEachTask (config ex) && truthyOpt (test commands)
           && notFailed verification1 then
          testResult <- onWorld (Verifier.runTests (execAsync ex) (verifier ex)
                                   (default [] (test commands))) ;;
          notifyVerification testResult ;;
          ret (if Verifier.success testResult then verification1 else Some testResult)
        else ret verification1) ;;
     ret {| success := notFailed verification2;
            output := response;
            verification := verification2 |})
    (λ err, ret {| success := false; output := err; verification := None |}).

(** What one turn of the [while] loop decides. *)
Inductive Flow := Continue | Break.

(** One turn of [while (!this.shouldStop)], test included. The task
    returned by [getNextTask] is an alias of [tasks[i]], so [task.id],
    [task.attempts] and [task.maxAttempts] are read from the plan as it
    is at the time of the read. *)
Definition iteration (st : State) : State * Flow :=
  if shouldStop st || stopCalled ex (world st) then (set_shouldStop true st, Break)
  else
    match getNextTask (planManager st) with
    | (None, _) => (st, Break)
    | (Some i, m1) =>
        match taskAt m1 i with
        | None => (st, Break)
        | Some task0 =>
            let st1 := set_planManager m1 st in
            let st2 := (notify (option_map (λ f, f task0) (onTaskStart (callbacks ex))) st1).1 in
            let st3 := set_planManager (markTaskInProgress (id task0) (planManager st2)) st2 in
            let task := default task0 (taskAt (planManager st3) i) in
            let '(st4, r) := executeTask task st3 in
            let result :=
              match r with
              | Returned result => result
              | Thrown err => mkExecutionResult false err None
              end in
            let task := default task (taskAt (planManager st4) i) in
            if success result then
              let st5 := set_planManager (markTaskCompleted (id task) (planManager st4)) st4 in
              let task := default task (taskAt (planManager st5) i) in
              let st6 := (notify (option_map (λ f, f task result)
                                    (onTaskComplete (callbacks ex))) st5).1 in
              let progress := getProgress (planManager st6) in
              ((notify (option_map (λ f, f progress.1 progress.2)
                          (onProgress (callbacks ex))) st6).1, Continue)
            else
              let willRetry := attempts task <? maxAttempts task in
              let st5 := set_planManager
                           (markTaskFailed (id task) (output result) (planManager st4)) st4 in
              let task := default task (taskAt (planManager st5) i) in
              let st6 := (notify (option_map (λ f, f task (output result) willRetry)
                                    (onTaskFailed (callbacks ex))) st5).1 in
              if negb willRetry && stopOnFirstFailure (config ex) then (st6, Break)
              else
                let progress := getProgress (planManager st6) in
                ((notify (option_map (λ f, f progress.1 progress.2)
                            (onProgress (callbacks ex))) st6).1, Continue)
        end
    end.

(** The [while] loop; [None] when [fuel] turns were not enough. *)
Fixpoint loop (fuel : nat) (st : State) : option State :=
  match fuel with
  | O => None
  | S fuel' =>
      match iteration st with
      | (st', Continue) => loop fuel' st'
      | (st', Break) => Some st'
      end
  end.

(** What [execute] does before the loop. *)
Definition prepare (st : State) : State :=
  let st1 := set_shouldStop false (set_isRunning true st) in
  let st2 := set_planManager (startExecution (planManager st1)).2 st1 in
  let planContext :=
    match plan (planManager st2) with
    | Some p =>
        str "You are implementing a plan. Here's the overall goal and context:"
        ++ [lf; lf] ++ str "Goal: " ++ goal p ++ [lf; lf]
        ++ str "Summary: " ++ summary p ++ [lf; lf]
        ++ str "You will receive individual tasks to implement. After each task, the build/tests will be run to verify your work."
        ++ [lf]
        ++ str "If something fails, you'll be asked to fix it. Focus on completing one task at a time."
    | None => []
    end in
  set_context (Context.addUserMessage planContext (context st2)) st2.

(** What [execute] does after the loop. *)
Definition finish (st : State) : State * Outcome bool :=
  let st1 := set_isRunning false st in
  let finalSuccess :=
    match plan (planManager st1) with
    | Some p => bool_decide (plan_status p = plan_completed)
    | None => false
    end in
  ((notify (option_map (λ f, f finalSuccess) (onPlanComplete (callbacks ex))) st1).1,
   Returned finalSuccess).

(** [Executor.execute]; [None] when [fuel] turns of the loop were not
    enough. *)
Definition execute (fuel : nat) (st : State) : option (State * Outcome bool) :=
  if negb (isApproved (planManager st)) then
    Some (st, Thrown (str "Plan must be approved before execution"))
  else
    match loop fuel (prepare st) with
    | Some st' => Some (finish st')
    | None => None
    end.

End Executor.
End Executor.

(** * utils/paths.ts, tools/base.ts, tools/edit.ts, tools/write.ts and tools/bash.ts

    The parameters of a tool are read as the casts of the sources type
    them ([params.path as string], [params.line_number as number],
    ...): a parameter is a value of that type, or is absent. Numbers
    are integers. *)

Module Tools.
Import Effect Effect.Notations Regex Agent.

(** [Tool.success] and [Tool.failure] of [tools/base.ts] *)
Definition Tool_success (output : jsstring) : ToolResult :=
  {| success := true; output := output; error := None |}.

Definition Tool_failure (error : jsstring) : ToolResult :=
  {| success := false; output := []; error := Some error |}.

(** How a promise of [fs/promises] settles: fulfilled, or rejected with
    an error, of which the sources read the [code] and the text it has
    in a template literal. *)
Inductive Settlement (A : Type) :=
| Done (a : A)
| Failed (code : option jsstring) (text : jsstring).
Arguments Done {A} a.
Arguments Failed {A} code text.

(** [interface] of the parameters of [edit_file] *)
Record EditParams := mkEditParams {
  edit_path : option jsstring;
  edit_mode : option jsstring;
  old_string : option jsstring;
  new_string : option jsstring;
  line_number : option Z;
  replace_all : option bool
}.

(** The parameters of [write_file] *)
Record WriteParams := mkWriteParams {
  write_path : option jsstring;
  write_content : option jsstring
}.

(** The parameters of [bash] *)
Record BashParams := mkBashParams {
  bash_command : option jsstring;
  bash_cwd : option jsstring;
  bash_timeout : option N
}.

(** What the [switch] of [EditFileTool.execute] comes to: an early
    [return this.failure(...)], or [newContent] and [message]. *)
Inductive Edited :=
| EditFailure (error : jsstring)
| EditTo (newContent message : jsstring).

(** The decimal numeral of an integer. *)
Definition decimalZ (z : Z) : jsstring :=
  if (z <? 0)%Z then str "-" ++ Planning.decimal (Z.to_nat (- z))
  else Planning.decimal (Z.to_nat z).

(** [\w] *)
Definition isWordChar (c : ascii) : bool :=
  let n := nat_of_ascii c in
  ((48 <=? n) && (n <=? 57)) || ((65 <=? n) && (n <=? 90))
  || ((97 <=? n) && (n <=? 122)) || (n =? 95).

(** [dangerousPatterns]. The first pattern ends with the negative
    lookahead of a word character: it is [removeRoot] followed by a
    position at which no word character comes next. *)
Definition removeRoot : regex :=
  seq [ Lit (str "rm"); Plus (Class space); Lit (str "-rf"); Plus (Class space);
        Lit (str "/") ].

Definition forkBomb : regex :=
  seq [ Lit (str ":(){"); Star true (Class dot); Lit (str "}") ].

Definition makeFilesystem : regex := Lit (str "mkfs.").

Definition diskDump : regex :=
  seq [ Lit (str "dd"); Plus (Class space); Lit (str "if=") ].

(** [(?!\w)]: what follows is not a word character. *)
Definition noWordAhead : @cont unit :=
  λ rest _,
    match rest with
    | c :: _ => if isWordChar c then None else Some tt
    | [] => Some tt
    end.

(** [pattern.test(command)] for the first pattern: the leftmost
    position at which [removeRoot] matches, backtracking included, with
    no word character after the match. *)
Fixpoint testRemoveRoot (s : jsstring) : bool :=
  match rmatch removeRoot s None noWordAhead with
  | Some _ => true
  | None =>
      match s with
      | [] => false
      | _ :: s' => testRemoveRoot s'
      end
  end.

(** [pattern.test(command)] for a pattern without lookahead *)
Definition test (r : regex) (s : jsstring) : bool :=
  match search r s 0 with Some _ => true | None => false end.

(** The [for] loop over [dangerousPatterns] *)
Definition dangerous (command : jsstring) : bool :=
  testRemoveRoot command || test forkBomb command
  || test makeFilesystem command || test diskDump command.

Section Tools.
Context {W : Type}.

(** [resolve] and [isAbsolute] of Node's [path], and the value of
    [process.env.HOME || process.env.USERPROFILE || '']. *)
Variable resolve : jsstring → jsstring → jsstring.
Variable isAbsolute : jsstring → bool.
Variable home : jsstring.
(** [dirname] of Node's [path] *)
Variable dirname : jsstring → jsstring.

(** [readFile(path, 'utf-8')], [writeFile(path, content, 'utf-8')] and
    [mkdir(dir, { recursive: true })] of [fs/promises] *)
Variable readFile : jsstring → W → W * Settlement jsstring.
Variable writeFile : jsstring → jsstring → W → W * Settlement unit.
Variable mkdir : jsstring → W → W * Settlement unit.

(** [execAsync(command, { cwd, timeout, maxBuffer, shell })] *)
Variable execAsync : jsstring → jsstring → N → W → W * Verifier.Settled.

(** [resolvePath] of [utils/paths.ts] *)
Definition resolvePath (path workingDirectory : jsstring) : jsstring :=
  if negb (JS.truthy path) then path
  else if JS.startsWith path (str "~/") then resolve home (drop 2 path)
  else if isAbsolute path then path
  else resolve workingDirectory path.

(** The body of the [switch (mode)] of [EditFileTool.execute] *)
Definition edit (params : EditParams) (path content newString : jsstring) : Edited :=
  let mode :=
    match edit_mode params with
    | Some m => if JS.truthy m then m else str "replace"
    | None => str "replace"
    end in
  if bool_decide (mode = str "append") then
    EditTo (if JS.endsWith content [lf] then content ++ newString
            else content ++ [lf] ++ newString)
           (str "Successfully appended content to " ++ path)
  else if bool_decide (mode = str "insert") then
    match line_number params with
    | Some lineNumber =>
        if (lineNumber <? 1)%Z then
          EditFailure (str "line_number is required for insert mode and must be >= 1")
        else
          let lines := JS.split content [lf] in
          let insertIdx := Z.to_nat (lineNumber - 1) `min` length lines in
          EditTo (join [lf] (take insertIdx lines ++ [newString] ++ drop insertIdx lines))
                 (str "Successfully inserted content at line " ++ decimalZ lineNumber
                  ++ str " in " ++ path)
    | None =>
        EditFailure (str "line_number is required for insert mode and must be >= 1")
    end
  else
    match old_string params with
    | Some oldString =>
        if negb (JS.truthy oldString) then
          EditFailure (str "old_string is required for replace mode")
        else if negb (JS.includes content oldString) then
          EditFailure
            (str "Could not find the specified string in " ++ path
             ++ str ". Make sure the old_string matches exactly, including whitespace and indentation.")
        else
          let occurrences := length (JS.split content oldString) - 1 in
          let replaceAll := default false (replace_all params) in
          if (1 <? occurrences) && negb replaceAll then
            EditFailure
              (str "Found " ++ Planning.decimal occurrences
               ++ str " occurrences of the string. Set replace_all: true to replace all, or provide more context to make the match unique.")
          else if replaceAll then
            EditTo (join newString (JS.split content oldString))
                   (str "Successfully replaced " ++ Planning.decimal occurrences
                    ++ str " occurrence(s) in " ++ path)
          else
            EditTo (JS.replace content oldString newString)
                   (str "Successfully replaced 1 occurrence in " ++ path)
    | None => EditFailure (str "old_string is required for replace mode")
    end.

(** [EditFileTool.execute]; the [catch] clause is [caught]. *)
Definition EditFileTool_execute (params : EditParams) (workingDirectory : jsstring)
    : M W ToolResult :=
  match edit_path params with
  | None => ret (Tool_failure (str "Path is required"))
  | Some rawPath =>
      if negb (JS.truthy rawPath) then ret (Tool_failure (str "Path is required"))
      else
        match new_string params with
        | None => ret (Tool_failure (str "new_string is required"))
        | Some newString =>
            let path := resolvePath rawPath workingDirectory in
            let caught (code : option jsstring) (text : jsstring) :=
              if bool_decide (code = Some (str "ENOENT"))
              then Tool_failure (str "File not found: " ++ path)
              else Tool_failure (str "Error editing file: " ++ text) in
            λ w,
              match readFile path w with
              | (w1, Failed code text) => (w1, Returned (caught code text))
              | (w1, Done content) =>
                  match edit params path content newString with
                  | EditFailure error => (w1, Returned (Tool_failure error))
                  | EditTo newContent message =>
                      match writeFile path newContent w1 with
                      | (w2, Done _) => (w2, Returned (Tool_success message))
                      | (w2, Failed code text) => (w2, Returned (caught code text))
                      end
                  end
              end
        end
  end.

(** [WriteFileTool.execute] *)
Definition WriteFileTool_execute (params : WriteParams) (workingDirectory : jsstring)
    : M W ToolResult :=
  match write_path params with
  | None => ret (Tool_failure (str "Path is required"))
  | Some rawPath =>
      if negb (JS.truthy rawPath) then ret (Tool_failure (str "Path is required"))
      else
        match write_content params with
        | None => ret (Tool_failure (str "Content is required"))
        | Some content =>
            let path := resolvePath rawPath workingDirectory in
            λ w,
              match mkdir (dirname path) w with
              | (w1, Failed _ text) =>
                  (w1, Returned (Tool_failure (str "Error writing file: " ++ text)))
              | (w1, Done _) =>
                  match writeFile path content w1 with
                  | (w2, Failed _ text) =>
                      (w2, Returned (Tool_failure (str "Error writing file: " ++ text)))
                  | (w2, Done _) =>
                      let lineCount := length (JS.split content [lf]) in
                      (w2, Returned
                             (Tool_success
                                (str "Successfully wrote " ++ Planning.decimal lineCount
                                 ++ str " lines to " ++ path)))
                  end
              end
        end
  end.

(** [BashTool.execute] *)
Definition BashTool_execute (params : BashParams) (workingDirectory : jsstring)
    : M W ToolResult :=
  let command := bash_command params in
  let cwd :=
    match bash_cwd params with
    | Some rawCwd =>
        if JS.truthy rawCwd then resolvePath rawCwd workingDirectory
        else workingDirectory
    | None => workingDirectory
    end in
  let timeout :=
    match bash_timeout params with
    | Some t => if (t =? 0)%N then 60000%N else t
    | None => 60000%N
    end in
  match command with
  | None => ret (Tool_failure (str "Command is required"))
  | Some command =>
      if negb (JS.truthy command) then ret (Tool_failure (str "Command is required"))
      else if dangerous command then
        ret (Tool_failure (str "This command has been blocked for safety reasons."))
      else
        λ w,
          match execAsync command cwd timeout w with
          | (w', Verifier.Fulfilled stdout stderr) =>
              let output1 := if JS.truthy stdout then stdout else [] in
              let output2 :=
                if JS.truthy stderr
                then output1 ++ (if JS.truthy output1 then [lf] else [])
                     ++ str "stderr:" ++ [lf] ++ stderr
                else output1 in
              let output3 :=
                if negb (JS.truthy (JS.trim output2))
                then str "(Command completed with no output)" else output2 in
              let maxLength := 30000%N in
              let output4 :=
                if (maxLength <? N.of_nat (length output3))%N
                then JS.substring output3 0 (N.to_nat maxLength)
                     ++ [lf] ++ str "... (output truncated)"
                else output3 in
              (w', Returned (Tool_success output4))
          | (w', Verifier.Rejected stdout stderr code killed message) =>
              let truthyOpt (x : option jsstring) :=
                match x with Some s => JS.truthy s | None => false end in
              let errorOutput1 :=
                str "Command failed"
                ++ match code with
                   | Some c =>
                       if (c =? 0)%Z then []
                       else str " with exit code " ++ decimalZ c
                   | None => []
                   end in
              let errorOutput2 :=
                if truthyOpt stdout
                then errorOutput1 ++ [lf] ++ str "stdout:" ++ [lf] ++ default [] stdout
                else errorOutput1 in
              let errorOutput3 :=
                if truthyOpt stderr
                then errorOutput2 ++ [lf] ++ str "stderr:" ++ [lf] ++ default [] stderr
                else errorOutput2 in
              let errorOutput4 :=
                if negb (truthyOpt stdout) && negb (truthyOpt stderr) && JS.truthy message
                then errorOutput3 ++ [lf] ++ message
                else errorOutput3 in
              (w', Returned (Tool_failure errorOutput4))
          end
  end.

End Tools.
End Tools.

(** * The patterns of the fallback of the planner

    The two patterns of [parsePlanFallback] have alternatives, counted
    repetitions, three capture groups, a lookahead and, for the second,
    the flag [i]. The matcher below is the backtracking matcher of
    ECMAScript for these constructs, in continuation-passing style as
    the specification of the language has it. *)

Module Pattern.
Import Regex.

Inductive pattern :=
| PChar (c : ascii)                     (* a pattern character *)
| PSet (p : ascii → bool)               (* a class or class escape *)
| PCat (r1 r2 : pattern)
| PAlt (r1 r2 : pattern)                (* r1|r2 *)
| PRepeat (min : nat) (max : option nat) (greedy : bool) (r : pattern)
                                        (* r{min,max}; [None] is no bound *)
| PCapture (n : nat) (r : pattern)      (* ( r ), the capture group n *)
| PBol                                  (* ^ without the flag m *)
| PEol                                  (* $ without the flag m *)
| PAhead (r : pattern).                 (* (?= r ) *)

Fixpoint cat (rs : list pattern) : pattern :=
  match rs with
  | [] => PRepeat 0 (Some 0) true PBol   (* the empty pattern *)
  | [r] => r
  | r :: rs' => PCat r (cat rs')
  end.

(** r?, r*, r+ and r+? *)
Definition optional (r : pattern) : pattern := PRepeat 0 (Some 1) true r.
Definition star (r : pattern) : pattern := PRepeat 0 None true r.
Definition plus (r : pattern) : pattern := PRepeat 1 None true r.
Definition lazyStar (r : pattern) : pattern := PRepeat 0 None false r.
Definition lazyPlus (r : pattern) : pattern := PRepeat 1 None false r.

(** [\d] *)
Definition digitChar (c : ascii) : bool :=
  let n := nat_of_ascii c in (48 <=? n) && (n <=? 57).

Definition oneOf (w : jsstring) : ascii → bool := λ c, bool_decide (c ∈ w).

(** [Canonicalize]: with the flag [i] a character is compared through
    its upper case. The characters of the two patterns are below 128,
    and a code unit of 128 or more is never canonicalized to one below
    128, so only the letters a to z have to be mapped. *)
Definition canonicalize (ignoreCase : bool) (c : ascii) : ascii :=
  let n := nat_of_ascii c in
  if ignoreCase && (97 <=? n) && (n <=? 122) then ascii_of_nat (n - 32) else c.

(** The capture groups inside a pattern. *)
Fixpoint groups (r : pattern) : list nat :=
  match r with
  | PChar _ | PSet _ | PBol | PEol => []
  | PCat r1 r2 | PAlt r1 r2 => groups r1 ++ groups r2
  | PRepeat _ _ _ r1 | PAhead r1 => groups r1
  | PCapture n r1 => n :: groups r1
  end.

(** [MatchState]: the end index, what is left of the input from there,
    and the captures, group [n] at position [n - 1]. *)
Record MatchState := mkMatchState {
  endIndex : nat;
  rest : jsstring;
  captures : list (option jsstring)
}.

Definition continuation := MatchState → option MatchState.

Definition clear (inner : list nat) (x : MatchState) : MatchState :=
  mkMatchState (endIndex x) (rest x)
    (foldr (λ n caps, <[n - 1 := None]> caps) (captures x) inner).

(** [RepeatMatcher]: [step] is the matcher of the atom and [inner] its
    capture groups. Every call of the loop either has one iteration
    less to do before [min] is reached or starts further in the input,
    so a fuel above [min] plus the length of the input is never used
    up. *)
Fixpoint repeatMatcher (step : MatchState → continuation → option MatchState)
    (inner : list nat) (greedy : bool) (k : continuation)
    (fuel min : nat) (max : option nat) (x : MatchState) : option MatchState :=
  match fuel with
  | O => None
  | S fuel' =>
      if bool_decide (max = Some 0) then k x
      else
        let d : continuation :=
          λ y,
            if (min =? 0) && (endIndex y =? endIndex x) then None
            else repeatMatcher step inner greedy k fuel' (pred min) (pred <$> max) y in
        let xr := clear inner x in
        if negb (min =? 0) then step xr d
        else if greedy then orElse (step xr d) (k x)
        else orElse (k x) (step xr d)
  end.

Fixpoint pmatch (ignoreCase : bool) (r : pattern) (x : MatchState) (k : continuation)
    : option MatchState :=
  match r with
  | PChar c =>
      match rest x with
      | d :: s' =>
          if bool_decide (canonicalize ignoreCase d = canonicalize ignoreCase c)
          then k (mkMatchState (S (endIndex x)) s' (captures x)) else None
      | [] => None
      end
  | PSet p =>
      match rest x with
      | d :: s' =>
          if p d then k (mkMatchState (S (endIndex x)) s' (captures x)) else None
      | [] => None
      end
  | PCat r1 r2 => pmatch ignoreCase r1 x (λ y, pmatch ignoreCase r2 y k)
  | PAlt r1 r2 => orElse (pmatch ignoreCase r1 x k) (pmatch ignoreCase r2 x k)
  | PRepeat min max greedy r1 =>
      repeatMatcher (pmatch ignoreCase r1) (groups r1) greedy k
        (S (min + length (rest x))) min max x
  | PCapture n r1 =>
      pmatch ignoreCase r1 x
        (λ y, k (mkMatchState (endIndex y) (rest y)
                   (<[n - 1 := Some (take (endIndex y - endIndex x) (rest x))]>
                      (captures y))))
  | PBol => if endIndex x =? 0 then k x else None
  | PEol => match rest x with [] => k x | _ :: _ => None end
  | PAhead r1 =>
      match pmatch ignoreCase r1 x Some with
      | Some y => k (mkMatchState (endIndex x) (rest x) (captures y))
      | None => None
      end
  end.

(** The leftmost match at or after the index [i], [s] being the input
    from [i] on. *)
Fixpoint searchFrom (ignoreCase : bool) (r : pattern) (nGroups : nat)
    (i : nat) (s : jsstring) : option MatchState :=
  match pmatch ignoreCase r (mkMatchState i s (replicate nGroups None)) Some with
  | Some y => Some y
  | None =>
      match s with
      | [] => None
      | _ :: s' => searchFrom ignoreCase r nGroups (S i) s'
      end
  end.

(** [RegExp.prototype.exec] of a global pattern whose [lastIndex] is
    [lastIndex]; the state of a match has the new [lastIndex] and the
    captures. *)
Definition exec (ignoreCase : bool) (r : pattern) (nGroups : nat)
    (input : jsstring) (lastIndex : nat) : option MatchState :=
  if length input <? lastIndex then None
  else searchFrom ignoreCase r nGroups lastIndex (drop lastIndex input).

(** The loop [while ((match = pattern.exec(input)) !== null)]. *)
Fixpoint execLoop (ignoreCase : bool) (r : pattern) (nGroups : nat)
    (input : jsstring) (fuel lastIndex : nat) : list MatchState :=
  match fuel with
  | O => []
  | S fuel' =>
      match exec ignoreCase r nGroups input lastIndex with
      | None => []
      | Some y => y :: execLoop ignoreCase r nGroups input fuel' (endIndex y)
      end
  end.

End Pattern.

(** * planning/planner.ts *)

Module Planner.
Import Effect Effect.Notations Regex Planning.

(** [interface ParsedPlan] *)
Record ParsedPlan := mkParsedPlan {
  parsed_summary : jsstring;
  parsed_tasks : list TaskInput;
  parsed_verifyCommands : VerifyCommands
}.

(** [buildPlanningPrompt]: the lines of the template literal *)
Definition buildPlanningPrompt (goal : jsstring) : jsstring :=
  Agent.join [lf]
    [ str "You are a software architect. Create a detailed implementation plan for the following goal.";
      [];
      str "## Goal";
      goal;
      [];
      str "## Instructions";
      [];
      str "1. First, explore the codebase using glob and read_file to understand the existing structure";
      str "2. Then create a step-by-step implementation plan";
      [];
      str "Your plan should:";
      str "- Break the work into small, testable tasks (5-15 tasks typically)";
      str "- Order tasks by dependencies (foundational work first)";
      str "- Each task should be completable in one focused session";
      str "- Include verification steps where appropriate";
      [];
      str "## Output Format";
      [];
      str "After exploring, output your plan in this EXACT format:";
      [];
      str "<plan>";
      str "<summary>";
      str "A 2-3 sentence overview of the implementation approach.";
      str "</summary>";
      [];
      str "<verify>";
      str "build: npm run build";
      str "test: npm test";
      str "</verify>";
      [];
      str "<tasks>";
      str "<task id=" ++ [dquote] ++ str "1" ++ [dquote] ++ str ">";
      str "<title>Short task title</title>";
      str "<description>";
      str "Detailed description of what to implement.";
      str "Include specific files to create/modify.";
      str "</description>";
      str "<depends></depends>";
      str "</task>";
      [];
      str "<task id=" ++ [dquote] ++ str "2" ++ [dquote] ++ str ">";
      str "<title>Another task</title>";
      str "<description>";
      str "Details here...";
      str "</description>";
      str "<depends>1</depends>";
      str "</task>";
      str "</tasks>";
      str "</plan>";
      [];
      str "Now explore the codebase and create the plan:" ].

(** [/<plan>([\s\S]*?)<\/plan>/] and the five patterns of the same
    shape, for [summary], [verify], [title], [description] and
    [depends]. *)
Definition enclosed (opening closing : jsstring) : regex :=
  seq [ Lit opening; Group (Star false (Class anyChar)); Lit closing ].

Definition planRegex : regex := enclosed (str "<plan>") (str "</plan>").
Definition summaryRegex : regex := enclosed (str "<summary>") (str "</summary>").
Definition verifyRegex : regex := enclosed (str "<verify>") (str "</verify>").
Definition titleRegex : regex := enclosed (str "<title>") (str "</title>").
Definition descriptionRegex : regex :=
  enclosed (str "<description>") (str "</description>").
Definition dependsRegex : regex := enclosed (str "<depends>") (str "</depends>").

(** [/build:\s*(.+)/], [/test:\s*(.+)/] and [/lint:\s*(.+)/] *)
Definition commandRegex (key : jsstring) : regex :=
  seq [ Lit key; Star true (Class space); Group (Plus (Class dot)) ].

(** [/<task[^>]*>([\s\S]*?)<\/task>/g]; no match is empty. *)
Definition taskRegex : regex :=
  seq [ Lit (str "<task"); Star true (Class (noneOf (str ">"))); Lit (str ">");
        Group (Star false (Class anyChar)); Lit (str "</task>") ].

(** The body of a [try] block whose [catch] clause returns [null]: the
    outer [None] is an exception, which here can only be the
    [TypeError] of a method called on [undefined], a capture group
    that took no part in the match. [text.match(pattern)] of a pattern
    without the flag [g] is the leftmost match. *)
Definition readCommand (key verifyContent : jsstring) : option (option jsstring) :=
  match search (commandRegex key) verifyContent 0 with
  | Some m => g ← group1 m; Some (Some (JS.trim g))
  | None => Some None
  end.

Definition readVerify (verifyContent : jsstring) : option VerifyCommands :=
  build ← readCommand (str "build:") verifyContent;
  test ← readCommand (str "test:") verifyContent;
  lint ← readCommand (str "lint:") verifyContent;
  Some (mkVerifyCommands build test lint).

(** The dependencies read from the text of [<depends>] *)
Definition readDependencies (text : jsstring) : list jsstring :=
  filter (λ d, d ≠ str "task-")
    ((λ d, str "task-" ++ JS.trim d) <$> JS.split text (str ",")).

(** The body of the loop over the matches of [taskRegex]: the task
    pushed, if any. *)
Definition readTask (taskContent : jsstring) : option (option TaskInput) :=
  match search titleRegex taskContent 0, search descriptionRegex taskContent 0 with
  | Some titleMatch, Some descMatch =>
      dependencies ←
        match search dependsRegex taskContent 0 with
        | Some depsMatch => g ← group1 depsMatch; Some (readDependencies g)
        | None => Some []
        end;
      title ← group1 titleMatch;
      description ← group1 descMatch;
      Some (Some (mkTaskInput (JS.trim title) (JS.trim description) dependencies
                    None None))
  | _, _ => Some None
  end.

Fixpoint readTasks (taskMatches : list Match) (tasks : list TaskInput)
    : option (list TaskInput) :=
  match taskMatches with
  | [] => Some tasks
  | taskMatch :: more =>
      taskContent ← group1 taskMatch;
      pushed ← readTask taskContent;
      readTasks more (match pushed with Some t => tasks ++ [t] | None => tasks end)
  end.

(** ** [parsePlanFallback] *)

Import Pattern.

(** The optional groups at the start of a task line: one to three
    [#] and then white space, and the word [Task] and then white
    space. *)
Definition heading : pattern :=
  optional (PCat (PRepeat 1 (Some 3) true (PChar "#")) (star (PSet space))).

Definition taskWord : pattern :=
  cat [ PChar "T"; PChar "a"; PChar "s"; PChar "k"; star (PSet space) ].

(** The first of [taskPatterns], for the lines [1. Title] and
    [### 1. Title]: the start of the input or a line feed, the optional
    heading marks, the number (group 1), a dot, white space, the title
    (group 2, lazy, on one line), a line feed or the end of the input,
    the text that follows (group 3, lazy), up to a position followed by
    a line feed and the start of another such line, or by the end of
    the input. *)
Definition numberedPattern : pattern :=
  cat [ PAlt PBol (PChar lf);
        heading;
        PCapture 1 (plus (PSet digitChar));
        PChar ".";
        plus (PSet space);
        PCapture 2 (lazyPlus (PSet dot));
        PAlt (PChar lf) PEol;
        PCapture 3 (lazyStar (PSet anyChar));
        PAhead (PAlt (cat [ PChar lf; heading; plus (PSet digitChar); PChar "." ])
                     PEol) ].

(** The second of [taskPatterns], for the lines [Task 1: Title], with
    the flag [i]: the start of the input or a line feed, the optional
    word [Task], the number (group 1), a dot or a colon, optional white
    space, the title (group 2), a line feed or the end of the input,
    the text that follows (group 3), up to a position followed by a
    line feed, the word [Task] and a number, or by the end of the
    input. *)
Definition taskPattern : pattern :=
  cat [ PAlt PBol (PChar lf);
        optional taskWord;
        PCapture 1 (plus (PSet digitChar));
        PSet (oneOf (str ".:"));
        star (PSet space);
        PCapture 2 (lazyPlus (PSet dot));
        PAlt (PChar lf) PEol;
        PCapture 3 (lazyStar (PSet anyChar));
        PAhead (PAlt (cat [ PChar lf; taskWord; plus (PSet digitChar) ]) PEol) ].

(** [taskPatterns], each with its flag [i] *)
Definition taskPatterns : list (bool * pattern) :=
  [ (false, numberedPattern); (true, taskPattern) ].

(** The task pushed for a match: [match[2].trim()] and
    [match[3]?.trim() || match[2].trim()]. *)
Definition fallbackTask (y : MatchState) : option TaskInput :=
  match captures y !! 1 with
  | Some (Some title) =>
      let body :=
        match captures y !! 2 with
        | Some (Some text) => JS.trim text
        | _ => []
        end in
      Some (mkTaskInput (JS.trim title)
              (if JS.truthy body then body else JS.trim title) [] None None)
  | _ => None
  end.

(** The matches of a pattern in the response: the [while] loop over
    [pattern.exec(response)]. No match of the two patterns is empty,
    so there are at most as many as the response has characters. *)
Definition allMatches (ignoreCase : bool) (r : pattern) (response : jsstring)
    : list MatchState :=
  Pattern.execLoop ignoreCase r 3 response (S (length response)) 0.

(** The loop [for (const pattern of taskPatterns)], which stops after
    the first pattern that pushed a task. *)
Fixpoint fallbackTasks (patterns : list (bool * pattern)) (response : jsstring)
    : option (list TaskInput) :=
  match patterns with
  | [] => Some []
  | (ignoreCase, r) :: more =>
      tasks ← mapM fallbackTask (allMatches ignoreCase r response);
      match tasks with
      | [] => fallbackTasks more response
      | _ :: _ => Some tasks
      end
  end.

(** The loop that adds the sequential dependencies *)
Definition chained (tasks : list TaskInput) : list TaskInput :=
  imap (λ i t,
          if i =? 0 then t
          else mkTaskInput (in_title t) (in_description t)
                 [str "task-" ++ decimal i] (in_verifyCommand t) (in_error t))
       tasks.

Definition parsePlanFallback (response : jsstring) : option (option ParsedPlan) :=
  tasks ← fallbackTasks taskPatterns response;
  match tasks with
  | [] => Some None
  | _ :: _ =>
      Some (Some (mkParsedPlan (str "Implementation plan extracted from AI response.")
                    (chained tasks) (mkVerifyCommands None None None)))
  end.

(** ** [parsePlanResponse]; what its [catch] clause prints is left out. *)
Definition parsePlanResponse (response : jsstring) : option ParsedPlan :=
  mjoin
    (match search planRegex response 0 with
    | None => parsePlanFallback response
    | Some planMatch =>
        planContent ← group1 planMatch;
        summary ←
          match search summaryRegex planContent 0 with
          | Some summaryMatch => g ← group1 summaryMatch; Some (JS.trim g)
          | None => Some (str "Implementation plan")
          end;
        verifyCommands ←
          match search verifyRegex planContent 0 with
          | Some verifyMatch => g ← group1 verifyMatch; readVerify g
          | None => Some (mkVerifyCommands None None None)
          end;
        tasks ← readTasks (execAll taskRegex planContent) [];
        match tasks with
        | [] => parsePlanFallback response
        | _ :: _ => Some (Some (mkParsedPlan summary tasks verifyCommands))
        end
    end).

(** ** [Planner.createPlan] *)

(** What [createPlan] resolves to; [plan] is the object that the
    manager holds. *)
Record Created := mkCreated {
  success : bool;
  created_plan : option Plan;
  error : option jsstring
}.

Section Planner.
Context {W : Type}.

(** The agent of the planner, and the values that
    [randomUUID().slice(0, 8)], [new Date()] and [dirname(planDir)]
    have when the manager creates the plan. *)
Variable agent : Agent.AgentConfig W.
Variable buildSystemPrompt : Context.ConversationContext → jsstring.
Variables uuid8 now dir : jsstring.

(** The world, the plan manager, which is shared with the caller, and
    the conversation of the planner. *)
Record State := mkState {
  world : W;
  planManager : PlanManager;
  context : Context.ConversationContext
}.

(** [this.agent.run(prompt, this.context)] *)
Definition agentRun (prompt : jsstring) : M State jsstring :=
  λ st,
    let '(ast, r) :=
      Agent.run agent buildSystemPrompt prompt
                (Agent.mkState (world st) (context st)) in
    (mkState (Agent.world ast) (planManager st) (Agent.context ast), r).

Definition createPlan (goal : jsstring) : M State Created :=
  let prompt := buildPlanningPrompt goal in
  tryCatch
    (response <- agentRun prompt ;;
     match parsePlanResponse response with
     | None =>
         ret (mkCreated false None (Some (str "Could not parse plan from AI response")))
     | Some parsed =>
         st <- get ;;
         let created :=
           Planning.createPlan uuid8 now dir goal (parsed_summary parsed)
             (parsed_tasks parsed) (planManager st) in
         let manager :=
           setVerifyCommands (parsed_verifyCommands parsed) created.2 in
         modify (λ st, mkState (world st) manager (context st)) ;;
         ret (mkCreated true (plan manager) None)
     end)
    (λ e, ret (mkCreated false None (Some e))).

End Planner.

Arguments State : clear implicits.

End Planner.

(** * Concrete data for the worked examples *)

Module Examples.
Import Effect Planning.

(** A quoted word of a JSON text. *)
Definition quoted (s : string) : jsstring := [dquote] ++ str s ++ [dquote].

(** The plan of three tasks in a chain: the second depends on the
    first, the third on the second. *)
Definition manager0 : PlanManager :=
  {| plan := None; config := DEFAULT_PLAN_CONFIG; planDir := str "/proj/.opencoder" |}.

Definition chainInputs : list TaskInput :=
  [ mkTaskInput (str "Add route") (str "Add the health route") [] None None;
    mkTaskInput (str "Add handler") (str "Answer with ok") [str "task-1"] None None;
    mkTaskInput (str "Add test") (str "Test the endpoint") [str "task-2"] None None ].

Definition chainPlan : Plan :=
  (createPlan (str "a1b2c3d4") (str "2025-01-01T00:00:00.000Z") (str "/proj")
     (str "add a health endpoint") (str "Three steps") chainInputs manager0).1.

Definition chainManager : PlanManager :=
  (createPlan (str "a1b2c3d4") (str "2025-01-01T00:00:00.000Z") (str "/proj")
     (str "add a health endpoint") (str "Three steps") chainInputs manager0).2.

Definition chainRank (taskId : jsstring) : nat :=
  if decide (taskId = str "task-1") then 0
  else if decide (taskId = str "task-2") then 1 else 2.

(** A tagged block around a well-formed call of [bash]. *)
Definition bashBody : jsstring :=
  str "{" ++ quoted "name" ++ str ": " ++ quoted "bash" ++ str ", "
  ++ quoted "parameters" ++ str ": {" ++ quoted "command" ++ str ": "
  ++ quoted "ls" ++ str "}}".


Definition tagged (body : jsstring) : jsstring :=
  str "<tool_call>" ++ body ++ str "</tool_call>".


Definition synonymBody : jsstring :=
  str "{" ++ quoted "name" ++ str ": " ++ quoted "readfile" ++ str "}".


(** An executor in a world without state: the provider answers with a
    plain sentence, no command is configured, nobody calls [stop]. *)
Definition plainAgent : Agent.AgentConfig unit :=
  {| Agent.provider_chat := λ _ w, (w, Returned (str "Done."));
     Agent.tools := [];
     Agent.onToolCall := None;
     Agent.onToolResult := None |}.

Definition plainExecutor : Executor.Executor (W := unit) :=
  {| Executor.agent := plainAgent;
     Executor.buildSystemPrompt := λ _, str "You are OpenCoder.";
     Executor.execAsync := λ _ _ _ w, (w, Verifier.Fulfilled [] []);
     Executor.verifier := Verifier.mkVerifier (str "/proj") 60000;
     Executor.config := DEFAULT_PLAN_CONFIG;
     Executor.callbacks := Executor.mkExecutorCallbacks None None None None None None;
     Executor.stopCalled := λ _, false |}.

(** A plan that is already in progress, with one pending task. *)
Definition runningPlan : Plan :=
  {| plan_id := str "a1b2c3d4";
     goal := str "add a health endpoint";
     createdAt := str "2025-01-01T00:00:00.000Z";
     plan_status := plan_in_progress;
     summary := str "One step";
     tasks := [ mkTask (str "task-1") (str "Add route") (str "Add the health route")
                       pending [] None 0 3 None ];
     currentTaskIndex := 0;
     verifyCommands := mkVerifyCommands None None None;
     workingDirectory := str "/proj" |}.

Definition runningState : Executor.State (W := unit) :=
  {| Executor.world := tt;
     Executor.planManager :=
       {| plan := Some runningPlan; config := DEFAULT_PLAN_CONFIG;
          planDir := str "/proj/.opencoder" |};
     Executor.context := Context.createContext (str "/proj");
     Executor.isRunning := false;
     Executor.shouldStop := false |}.

(** A provider that asks for an unregistered tool at every turn. *)
Definition askingAgent : Agent.AgentConfig unit :=
  {| Agent.provider_chat := λ _ w, (w, Returned (tagged bashBody));
     Agent.tools := [];
     Agent.onToolCall := None;
     Agent.onToolResult := None |}.

(** A call of [bash] and a call of [glob]. *)
Definition bashCall : Parser.ParsedToolCall :=
  {| Parser.name := Parser.Name (str "bash");
     Parser.parameters := Json.JObject [ (str "command", Json.JString (str "ls")) ] |}.

Definition globCall : Parser.ParsedToolCall :=
  {| Parser.name := Parser.Name (str "glob"); Parser.parameters := Json.JObject [] |}.

(** An agent whose only tool, [bash], refuses every command. *)
Definition refusingTool : Agent.Tool unit :=
  {| Agent.definition_name := str "bash";
     Agent.execute := λ _ _ w,
       (w, Returned (Agent.mkToolResult false [] (Some (str "Permission denied")))) |}.

Definition refusingAgent : Agent.AgentConfig unit :=
  {| Agent.provider_chat := λ _ w, (w, Returned (str "Done."));
     Agent.tools := [refusingTool];
     Agent.onToolCall := None;
     Agent.onToolResult := None |}.

Definition agentState : Agent.State unit :=
  Agent.mkState tt (Context.createContext (str "/proj")).

Definition countedState : Agent.State (unit * nat) :=
  Agent.mkState (tt, 0) (Context.createContext (str "/proj")).

(** A shell in which every command exits with code 2. *)
Definition failingShell : jsstring → jsstring → N → unit → unit * Verifier.Settled :=
  λ _ _ _ w,
    (w, Verifier.Rejected None (Some (str "error TS2304")) (Some 2%Z) false
          (str "Command failed")).

Definition projVerifier : Verifier.Verifier := Verifier.mkVerifier (str "/proj") 60000.

Definition buildAndTest : VerifyCommands :=
  mkVerifyCommands (Some (str "npm run build")) (Some (str "npm test")) None.



End Examples.

(** * Concrete data for the further examples *)

Module MoreExamples.
Import Effect Planning Examples.

(** The chain of three tasks, approved, in the hands of the executor
    that talks to the plain agent. *)
Definition approvedChain : Plan := set_plan_status plan_approved chainPlan.

Definition approvedState : Executor.State (W := unit) :=
  {| Executor.world := tt;
     Executor.planManager := set_plan (Some approvedChain) manager0;
     Executor.context := Context.createContext (str "/proj");
     Executor.isRunning := false;
     Executor.shouldStop := false |}.

(** An approved plan without tasks. *)
Definition emptyPlan : Plan :=
  {| plan_id := str "0f0f0f0f";
     goal := str "nothing";
     createdAt := str "2025-01-01T00:00:00.000Z";
     plan_status := plan_approved;
     summary := str "No step";
     tasks := [];
     currentTaskIndex := 0;
     verifyCommands := mkVerifyCommands None None None;
     workingDirectory := str "/proj" |}.

Definition emptyState : Executor.State (W := unit) :=
  {| Executor.world := tt;
     Executor.planManager := set_plan (Some emptyPlan) manager0;
     Executor.context := Context.createContext (str "/proj");
     Executor.isRunning := false;
     Executor.shouldStop := false |}.

(** The first task of the chain. *)
Definition firstTask : Task :=
  mkTask (str "task-1") (str "Add route") (str "Add the health route")
         pending [] None 0 3 None.

(** The call that the synonym block denotes. *)
Definition readFileCall : Parser.ParsedToolCall :=
  {| Parser.name := Parser.Name (str "read_file"); Parser.parameters := Json.JObject [] |}.

(** A project directory for the tools: paths are resolved by putting
    the directory in front, the absolute paths start with a slash, and
    the one file is [/proj/notes.txt]. *)
Definition joinPath (directory path : jsstring) : jsstring :=
  directory ++ str "/" ++ path.

Definition startsWithSlash (path : jsstring) : bool := JS.startsWith path (str "/").

Definition projectOf (path : jsstring) : jsstring := str "/proj".

Definition readNotes (content : jsstring)
    : jsstring → unit → unit * Tools.Settlement jsstring :=
  λ path w,
    if bool_decide (path = str "/proj/notes.txt") then (w, Tools.Done content)
    else (w, Tools.Failed (Some (str "ENOENT")) (str "Error: ENOENT")).

Definition writeAny : jsstring → jsstring → unit → unit * Tools.Settlement unit :=
  λ _ _ w, (w, Tools.Done tt).

Definition mkdirAny : jsstring → unit → unit * Tools.Settlement unit :=
  λ _ w, (w, Tools.Done tt).

Definition shellAny : jsstring → jsstring → N → unit → unit * Verifier.Settled :=
  λ _ _ _ w, (w, Verifier.Fulfilled (str "ok") []).

(** Replace [cat] by [dog] in the notes. *)
Definition catParams : Tools.EditParams :=
  {| Tools.edit_path := Some (str "notes.txt");
     Tools.edit_mode := None;
     Tools.old_string := Some (str "cat");
     Tools.new_string := Some (str "dog");
     Tools.line_number := None;
     Tools.replace_all := None |}.

(** Insert a line before the second line of the notes. *)
Definition insertParams : Tools.EditParams :=
  {| Tools.edit_path := Some (str "notes.txt");
     Tools.edit_mode := Some (str "insert");
     Tools.old_string := None;
     Tools.new_string := Some (str "new");
     Tools.line_number := Some 2%Z;
     Tools.replace_all := None |}.

(** Append a line to the notes. *)
Definition appendParams : Tools.EditParams :=
  {| Tools.edit_path := Some (str "notes.txt");
     Tools.edit_mode := Some (str "append");
     Tools.old_string := None;
     Tools.new_string := Some (str "two");
     Tools.line_number := None;
     Tools.replace_all := None |}.

(** Write two lines that end with a line feed each. *)
Definition outParams : Tools.WriteParams :=
  {| Tools.write_path := Some (str "out.txt");
     Tools.write_content := Some (str "a" ++ [lf] ++ str "b" ++ [lf]) |}.

(** Remove the root directory. *)
Definition removeRootParams : Tools.BashParams :=
  {| Tools.bash_command := Some (str "sudo rm -rf /");
     Tools.bash_cwd := None;
     Tools.bash_timeout := None |}.

End MoreExamples.

(** * Vocabulary of the properties *)

Section PlanVocabulary.
Import Planning.

Implicit Types (m : PlanManager) (t : Task) (i : nat).

(** A task that has used up its attempts and is not pending. *)
Definition exhausted m i : Prop :=
  ∃ t, taskAt m i = Some t ∧ maxAttempts t ≤ attempts t ∧ status t ≠ pending.

(** The runs a task can still be given: none unless it is pending. *)
Definition remainingRuns t : nat :=
  if decide (status t = pending) then S (maxAttempts t - attempts t) else 0.

Definition tasksOf m : list Task :=
  match plan m with Some p => tasks p | None => [] end.

Definition work m : nat := sum_list (remainingRuns <$> tasksOf m).

Definition uniqueIds m : Prop := NoDup (id <$> tasksOf m).

End PlanVocabulary.

Section VerifierVocabulary.
Import Effect Verifier.
Context {W : Type}.
Variable execAsync : jsstring → jsstring → N → W → W * Settled.
Variable v : Verifier.

(** The commands of [verifyAll] that are configured, in the order lint,
    build, test. *)
Definition configured (commands : Planning.VerifyCommands) : list jsstring :=
  filter (λ c, JS.truthy c = true)
    (omap id [Planning.lint commands; Planning.build commands; Planning.test commands]).

(** Run the commands in order and stop after the first failure. *)
Fixpoint runUntilFailure (cmds : list jsstring) (results : list VerificationResult)
    : M W (bool * list VerificationResult) :=
  match cmds with
  | [] => ret (true, results)
  | c :: rest =>
      bind (runCommand execAsync v c)
        (λ result,
           if success result then runUntilFailure rest (results ++ [result])
           else ret (false, results ++ [result]))
  end.

(** The steps of [verifyAll] over a list of optional commands. *)
Fixpoint verifySteps (commands : list (option jsstring))
    (acc : bool * list VerificationResult) : M W (bool * list VerificationResult) :=
  match commands with
  | [] => ret acc
  | c :: rest => bind (verifyStep execAsync v c acc) (verifySteps rest)
  end.

(** The same processes on a world that also records, in order, the
    commands handed to [execAsync]. *)
Definition logged : jsstring → jsstring → N →
    W * list jsstring → (W * list jsstring) * Settled :=
  λ command cwd timeout wl,
    let '(w', settled) := execAsync command cwd timeout wl.1 in
    ((w', wl.2 ++ [command]), settled).

End VerifierVocabulary.

Section AgentVocabulary.
Import Effect Context Json Parser Agent.
Context {W : Type}.
Variable config : AgentConfig W.
Variable buildSystemPrompt : ConversationContext → jsstring.

Implicit Types (st : State W) (call : ParsedToolCall) (fr : jsstring).

(** The narrative text kept after a completion: its text when there is
    one, else the text kept before. *)
Definition narrative (fr response : jsstring) : jsstring :=
  if JS.truthy (text (parseToolCalls response))
  then text (parseToolCalls response) else fr.

(** The state after the notifications around a tool that returned. *)
Definition afterTool call (result : ToolResult) (w' : W) st : State W :=
  let w1 :=
    match onToolResult config with
    | Some f =>
        f (name call) (success result)
          (if JS.truthy (output result) then output result
           else default [] (error result)) w'
    | None => w'
    end in
  mkState w1 (context st).

Definition beforeTool call st : W :=
  match onToolCall config with
  | Some f => f (name call) (parameters call) (world st)
  | None => world st
  end.

(** The state in which [run] enters its loop. *)
Definition entry (userMessage : jsstring) st : State W :=
  mkState (world st)
    (addUserMessage userMessage
       (addSystemMessage (buildSystemPrompt (context st)) (context st))).

(** The same provider, tools and callbacks on a world that also counts
    the calls of [provider.chat]. *)
Definition countingTool (t : Tool W) : Tool (W * nat) :=
  {| definition_name := definition_name t;
     execute := λ params dir wn,
       ((execute t params dir wn.1).1, wn.2, (execute t params dir wn.1).2) |}.

Definition counting : AgentConfig (W * nat) :=
  {| provider_chat := λ msgs wn,
       ((provider_chat config msgs wn.1).1, S wn.2, (provider_chat config msgs wn.1).2);
     tools := countingTool <$> tools config;
     onToolCall :=
       option_map (λ f nm params wn, (f nm params wn.1, wn.2)) (onToolCall config);
     onToolResult :=
       option_map (λ f nm ok out wn, (f nm ok out wn.1, wn.2)) (onToolResult config) |}.

(** Forgetting the counter, and reading it. *)
Definition forget (st : State (W * nat)) : State W :=
  mkState (world st).1 (context st).

Definition chats (st : State (W * nat)) : nat := (world st).2.

(** Turns that all ask for tools, none of which throws. *)
Definition busy : Prop :=
  (∀ msgs w, ∃ w' response,
     provider_chat config msgs w = (w', Returned response) ∧
     toolCalls (parseToolCalls response) ≠ []) ∧
  (∀ tool params dir w, tool ∈ tools config →
     ∃ w' result, execute tool params dir w = (w', Returned result)).

End AgentVocabulary.

Section ExecutorVocabulary.
Import Effect Planning Executor.
Variable W : Type.

(** A computation that leaves the plan manager alone. *)
Definition keepsPlan {A} (c : M (State (W := W)) A) : Prop :=
  ∀ st, planManager (c st).1 = planManager st.

End ExecutorVocabulary.

Section StringVocabulary.
Import JS Regex.
Context {R : Type}.

Implicit Types (s w : jsstring).

Definition allSpace w : Prop := Forall (λ c, isWhiteSpace c = true) w.

Definition noSpaceAhead s : Prop :=
  match s with [] => True | c :: _ => isWhiteSpace c = false end.

(** What a greedy star over a class does on a run [w] of the class
    followed by [s]: it takes the whole run, then gives back one
    character at a time. *)
Fixpoint backtrack (K : jsstring → option R) (w s : jsstring) : option R :=
  match w with
  | [] => K s
  | c :: w' => orElse (backtrack K w' s) (K (c :: w' ++ s))
  end.

(** What a lazy star over any character does: it tries the
    continuation at every suffix, the longest first. *)
Fixpoint firstSuffix (K : jsstring → option R) (s : jsstring) : option R :=
  orElse (K s) (match s with [] => None | _ :: s' => firstSuffix K s' end).

(** The depth that a text adds: one for every opening brace, minus one
    for every closing brace. *)
Definition braceDelta (c : ascii) : Z :=
  if bool_decide (c = "{"%char) then 1
  else if bool_decide (c = "}"%char) then -1 else 0.

Definition braceDepth (s : jsstring) : Z :=
  foldr (λ c d, braceDelta c + d)%Z 0%Z s.

End StringVocabulary.

Section ExtractorVocabulary.
Import Json Regex Parser.

Implicit Types (response s : jsstring).

(** The tool calls pushed by pattern 2. *)
Definition fencedCalls response : list ParsedToolCall :=
  omap (λ m, tryParseToolCall (candidate m)) (execAll jsonBlockRegex response).



(** The strings that [tryParseToolCall] hands to [JSON.parse]. *)
Definition repaired s : jsstring := replaceAll singleQuotedRegex quoted1 s.

Definition truncated s : jsstring :=
  replaceFirst trailingRegex (constant (str "}")) (repaired s).

(** The call read from an object with a non-empty string name. *)
Definition callOf (members : list (jsstring * json)) (n : jsstring) : ParsedToolCall :=
  {| name := normalizeToolName n;
     parameters :=
       match getMember members (str "parameters") with
       | Some v => if truthy v then v else JObject []
       | None => JObject []
       end |}.


End ExtractorVocabulary.

(** * Vocabulary of the further properties *)

Section NumeralVocabulary.

(** The number a decimal numeral denotes. *)
Definition numeralValue (ds : jsstring) : nat :=
  fold_left (λ acc c, 10 * acc + (nat_of_ascii c - 48)) ds 0.

End NumeralVocabulary.

Section ConversationVocabulary.
Import Effect Context Agent.
Context {W : Type}.
Variable config : AgentConfig W.

(** The conversation without its system messages. *)
Definition dialogue (c : ConversationContext) : list Message :=
  filter (λ m, role m ≠ system) (messages c).

(** Neither the provider nor a tool throws. *)
Definition reliable : Prop :=
  (∀ msgs w, ∃ w' response, provider_chat config msgs w = (w', Returned response)) ∧
  (∀ tool params dir w, tool ∈ tools config →
     ∃ w' result, execute tool params dir w = (w', Returned result)).

End ConversationVocabulary.

Section NarrativeVocabulary.
Import Parser.

(** The narrative text of [acc] is a trimmed text made of characters of
    the response, in their order. *)
Definition excerpt (response : jsstring) (acc : ParseResult) : Prop :=
  ∃ x, text acc = JS.trim x ∧ x `sublist_of` response.

End NarrativeVocabulary.

Section FrameVocabulary.
Import Effect Planning Executor.
Variable W : Type.

(** A computation that acts on the world and the conversation only. *)
Definition actsOutside {A} (c : M (State (W := W)) A) : Prop :=
  ∀ st, ∃ w ctx, (c st).1 = set_context ctx (set_world w st).

End FrameVocabulary.

Section ExecutionVocabulary.
Import Effect Planning Executor.
Context {W : Type}.
Variable ex : Executor (W := W).

(** Every run of a task, made while the manager holds a plan, is
    reported as a success. *)
Definition succeeding : Prop :=
  ∀ t st, is_Some (plan (planManager st)) →
    ∃ r, (executeTask ex t st).2 = Returned r ∧ success r = true.

(** Every command handed to the shell exits with code 0. *)
Definition passing : Prop :=
  ∀ command cwd timeout w,
    ∃ stdout stderr,
      (execAsync ex command cwd timeout w).2 = Verifier.Fulfilled stdout stderr.

(** Nobody calls [stop]. *)
Definition neverStopped : Prop := ∀ w, stopCalled ex w = false.

(** Every dependency names a task that comes earlier in the list. *)
Definition backwardDeps (ts : list Task) : Prop :=
  ∀ i t d, ts !! i = Some t → d ∈ dependencies t →
    ∃ j, j < i ∧ (id <$> ts) !! j = Some d.

(** A task after one successful run. *)
Definition ran (t : Task) : Task :=
  set_error None (set_status completed (set_attempts (S (attempts t)) t)).

(** What a successful execution makes of a task: a pending task has
    run once, any other task is as it was. *)
Definition afterRun (t : Task) : Task :=
  if decide (status t = pending) then ran t else t.

(** The state of the loop while every run succeeds, [ts0] being the
    tasks the execution started from: no task is failed or in progress,
    the pending tasks are at or after the cursor, and every task is as
    it was or has run once. *)
Definition onCourse (ts0 : list Task) (st : State (W := W)) : Prop :=
  ∃ p, plan (planManager st) = Some p ∧
       shouldStop st = false ∧
       NoDup (id <$> tasks p) ∧ backwardDeps (tasks p) ∧
       (∀ j u, tasks p !! j = Some u →
          (status u = pending ∧ currentTaskIndex p ≤ j) ∨ status u = completed) ∧
       Forall2 (λ t t', t' = t ∨ (status t = pending ∧ t' = ran t)) ts0 (tasks p).

End ExecutionVocabulary.


Section LineVocabulary.

(** The pieces of a text between the occurrences of one character. *)
Fixpoint pieces (c : ascii) (s : jsstring) : list jsstring :=
  match s with
  | [] => [[]]
  | d :: s' =>
      if bool_decide (d = c) then [] :: pieces c s'
      else
        match pieces c s' with
        | p :: ps => (d :: p) :: ps
        | [] => [[d]]
        end
  end.

(** A run of white space that is not empty. *)
Definition blank (ws : jsstring) : Prop :=
  ws ≠ [] ∧ Forall (λ c, JS.isWhiteSpace c = true) ws.

(** The start of a text is not a word character. *)
Definition noWordFirst (s : jsstring) : Prop :=
  match s with
  | c :: _ => Tools.isWordChar c = false
  | [] => True
  end.

End LineVocabulary.

Section FileVocabulary.
Import Tools.
Context {W : Type}.




End FileVocabulary.

Section PatternVocabulary.
Import Pattern.

(** A state further in the same input. *)
Definition ahead (x y : MatchState) : Prop :=
  endIndex x ≤ endIndex y ∧
  endIndex y + length (rest y) = endIndex x + length (rest x).

(** A pattern whose matches all take at least one character. *)
Definition consuming (ignoreCase : bool) (r : pattern) : Prop :=
  ∀ x k z, pmatch ignoreCase r x k = Some z →
    ∃ y, ahead x y ∧ endIndex x < endIndex y ∧ k y = Some z.

End PatternVocabulary.

Section PlanTextVocabulary.
Import Planning.

(** No occurrence of [w] starts inside [a], whatever comes after [a]. *)
Definition clean (w a : jsstring) : Prop :=
  ∀ j s, j < length a → JS.startsWith (drop j a ++ s) w = false.

(** A task as a plan in the requested format states it: the attributes
    of the tag, the title, the description, the numbers of the tasks it
    depends on, and the text between the block and what follows. *)
Record TaskEntry := mkTaskEntry {
  entry_attributes : jsstring;
  entry_title : jsstring;
  entry_description : jsstring;
  entry_depends : list nat;
  entry_gap : jsstring
}.

(** What is between the opening and the closing tag of a task. *)
Definition taskBody (e : TaskEntry) : jsstring :=
  [lf] ++ str "<title>" ++ entry_title e ++ str "</title>" ++ [lf]
  ++ str "<description>" ++ entry_description e ++ str "</description>" ++ [lf]
  ++ str "<depends>" ++ Agent.join (str ",") (decimal <$> entry_depends e)
  ++ str "</depends>" ++ [lf].

Definition taskBlock (e : TaskEntry) : jsstring :=
  str "<task" ++ entry_attributes e ++ str ">" ++ taskBody e ++ str "</task>"
  ++ entry_gap e.

(** A plan in the format that the planning prompt asks for. *)
Definition planText (summary verify : jsstring) (entries : list TaskEntry) : jsstring :=
  str "<plan>" ++ [lf]
  ++ str "<summary>" ++ summary ++ str "</summary>" ++ [lf; lf]
  ++ str "<verify>" ++ verify ++ str "</verify>" ++ [lf; lf]
  ++ str "<tasks>" ++ [lf] ++ concat (taskBlock <$> entries)
  ++ str "</tasks>" ++ [lf] ++ str "</plan>".

(** The texts of an entry have no opening angle bracket, and its
    attributes no closing one. *)
Definition plainEntry (e : TaskEntry) : Prop :=
  ("<"%char ∉ entry_attributes e) ∧ (">"%char ∉ entry_attributes e) ∧
  ("<"%char ∉ entry_title e) ∧ ("<"%char ∉ entry_description e) ∧
  ("<"%char ∉ entry_gap e).

(** The task that an entry states. *)
Definition entryTask (e : TaskEntry) : TaskInput :=
  mkTaskInput (JS.trim (entry_title e)) (JS.trim (entry_description e))
    ((λ d, str "task-" ++ decimal d) <$> entry_depends e) None None.

End PlanTextVocabulary.

(** * Concrete data for the examples of the planner *)

Module PlannerExamples.
Import Planning.

(** The example plan of the planning prompt: what comes before it in
    the prompt, its summary, its verification block, its two tasks and
    what comes after it. *)
Definition promptBefore : jsstring :=
  Agent.join [lf]
    [ str "You are a software architect. Create a detailed implementation plan for the following goal.";
      [];
      str "## Goal";
      str "a health endpoint";
      [];
      str "## Instructions";
      [];
      str "1. First, explore the codebase using glob and read_file to understand the existing structure";
      str "2. Then create a step-by-step implementation plan";
      [];
      str "Your plan should:";
      str "- Break the work into small, testable tasks (5-15 tasks typically)";
      str "- Order tasks by dependencies (foundational work first)";
      str "- Each task should be completable in one focused session";
      str "- Include verification steps where appropriate";
      [];
      str "## Output Format";
      [];
      str "After exploring, output your plan in this EXACT format:";
      [];
      [] ].

Definition promptSummary : jsstring :=
  [lf] ++ str "A 2-3 sentence overview of the implementation approach." ++ [lf].

Definition promptVerify : jsstring :=
  [lf] ++ str "build: npm run build" ++ [lf] ++ str "test: npm test" ++ [lf].

Definition promptEntries : list TaskEntry :=
  [ {| entry_attributes := str " id=" ++ [dquote] ++ str "1" ++ [dquote];
       entry_title := str "Short task title";
       entry_description :=
         [lf] ++ str "Detailed description of what to implement." ++ [lf]
         ++ str "Include specific files to create/modify." ++ [lf];
       entry_depends := [];
       entry_gap := [lf; lf] |};
    {| entry_attributes := str " id=" ++ [dquote] ++ str "2" ++ [dquote];
       entry_title := str "Another task";
       entry_description := [lf] ++ str "Details here..." ++ [lf];
       entry_depends := [1];
       entry_gap := [lf] |} ].

Definition promptAfter : jsstring :=
  [lf; lf] ++ str "Now explore the codebase and create the plan:".

(** A reply with a numbered list instead of a plan. *)
Definition numberedReply : jsstring :=
  Agent.join [lf] [ str "1. Set up"; str "Do it"; str "2. Test"; str "Run tests" ].

Definition numberedPlan : Planner.ParsedPlan :=
  {| Planner.parsed_summary := str "Implementation plan extracted from AI response.";
     Planner.parsed_tasks :=
       [ mkTaskInput (str "Set up") (str "Do it") [] None None;
         mkTaskInput (str "Test") (str "Run tests") [str "task-1"] None None ];
     Planner.parsed_verifyCommands := mkVerifyCommands None None None |}.

End PlannerExamples.

(** * Properties *)

Section PlanManagerProperties.
Import Planning.

Implicit Types (m : PlanManager) (p : Plan) (t u : Task).
Implicit Types (ts : list Task) (i j k n : nat) (taskId err : jsstring).

Lemma findTask_Some taskId ts i t :
  findTask taskId ts = Some (i, t) →
  ts !! i = Some t ∧ id t = taskId ∧
  ∀ j u, ts !! j = Some u → j < i → id u ≠ taskId.
Proof. unfold findTask. intros H. by apply list_find_Some in H. Qed.

Lemma findTask_None taskId ts :
  findTask taskId ts = None → ∀ u, u ∈ ts → id u ≠ taskId.
Proof.
  unfold findTask. intros H u Hu. rewrite list_find_None in H.
  rewrite Forall_forall in H. by apply H.
Qed.

(** With unique ids, [find] returns the task that carries the id. *)
Lemma findTask_unique ts u :
  NoDup (id <$> ts) → u ∈ ts → ∃ i, findTask (id u) ts = Some (i, u).
Proof.
  intros Hnd Hu. destruct (findTask (id u) ts) as [[i t]|] eqn:E.
  - exists i. apply findTask_Some in E as (Hi & Hid & _).
    apply list_elem_of_lookup in Hu as [j Hj].
    assert (i = j) as ->.
    { apply (NoDup_lookup (id <$> ts) i j (id u) Hnd);
        rewrite list_lookup_fmap; [rewrite Hi | rewrite Hj]; simpl; congruence. }
    congruence.
  - exfalso. by eapply findTask_None.
Qed.

Lemma depsComplete_eligible p t :
  dag p → t ∈ tasks p →
  runnable p t = true ↔ eligible p t.
Proof.
  intros [Hnd (rank & Hrank)] Ht. unfold runnable, eligible, depsComplete.
  rewrite andb_true_iff, bool_decide_eq_true, forallb_forall.
  split; intros [Hs Hd]; split; try done.
  - intros u [Hu Hin]. apply list_elem_of_In, Hd in Hin.
    unfold depComplete in Hin.
    destruct (findTask_unique _ _ Hnd Hu) as [i Hf]. rewrite Hf in Hin.
    by apply bool_decide_eq_true in Hin.
  - intros d Hdin. apply list_elem_of_In in Hdin.
    destruct (Hrank t d Ht Hdin) as [Hdid _].
    apply list_elem_of_fmap in Hdid as (u & -> & Hu).
    unfold depComplete.
    destruct (findTask_unique _ _ Hnd Hu) as [i Hf]. rewrite Hf.
    apply bool_decide_eq_true, Hd. by split.
Qed.

Lemma getNextTask_loop_spec p n i :
  n = length (tasks p) - i →
  match getNextTask_loop p n i with
  | Some k =>
      i ≤ k ∧
      (∃ t, tasks p !! k = Some t ∧ runnable p t = true) ∧
      ∀ j u, i ≤ j < k → tasks p !! j = Some u → runnable p u = false
  | None =>
      ∀ j u, i ≤ j → tasks p !! j = Some u → runnable p u = false
  end.
Proof.
  revert i. induction n as [|n IH]; intros i Hn; simpl.
  - intros j u Hj Hu. apply lookup_lt_Some in Hu. lia.
  - destruct (tasks p !! i) as [task|] eqn:Hi.
    2: { apply lookup_ge_None in Hi. lia. }
    destruct (runnable p task) eqn:Hr.
    + split; [lia|]. split; [eauto|]. intros; lia.
    + specialize (IH (S i) ltac:(lia)).
      destruct (getNextTask_loop p n (S i)) as [k|].
      * destruct IH as (Hk & Ht & Hbefore). split; [lia|]. split; [done|].
        intros j u Hj Hu. destruct (decide (j = i)) as [->|]; [congruence|].
        apply (Hbefore j u); [lia | done].
      * intros j u Hj Hu. destruct (decide (j = i)) as [->|]; [congruence|].
        apply (IH j u); [lia | done].
Qed.

Lemma getNextTask_loop_again p n i t :
  tasks p !! i = Some t → runnable p t = true → n = length (tasks p) - i →
  getNextTask_loop p n i = Some i.
Proof.
  intros Hi Hr ->. pose proof (lookup_lt_Some _ _ _ Hi).
  destruct (length (tasks p) - i) eqn:E; [lia|]. simpl. by rewrite Hi, Hr.
Qed.

Lemma runnable_set_currentTaskIndex i p t :
  runnable (set_currentTaskIndex i p) t = runnable p t.
Proof. reflexivity. Qed.

Lemma getNextTask_loop_set_currentTaskIndex c p n i :
  getNextTask_loop (set_currentTaskIndex c p) n i = getNextTask_loop p n i.
Proof. revert i. induction n as [|n IH]; intros i; simpl; [done|]. by rewrite IH. Qed.

(** C1. For a plan whose dependencies form a DAG, [getNextTask] scans
    from the cursor forward: when it returns a task, that task sits at
    an index [i] not below the cursor, is pending with every dependency
    task completed (so none of its dependencies is incomplete), no task
    between the cursor and [i] is such a task, the cursor becomes [i],
    and calling again returns the same task; when it returns none, no
    task from the cursor on is such a task, the manager is unchanged and
    calling again returns none. *)
Theorem getNextTask_first_eligible m p :
  plan m = Some p → dag p →
  match getNextTask m with
  | (Some i, m') =>
      currentTaskIndex p ≤ i ∧
      (∃ t, tasks p !! i = Some t ∧ taskAt m' i = Some t ∧ eligible p t ∧
            ¬ ∃ u, dependency_of p t u ∧ status u ≠ completed) ∧
      (∀ j u, currentTaskIndex p ≤ j < i → tasks p !! j = Some u → ¬ eligible p u) ∧
      m' = set_plan (Some (set_currentTaskIndex i p)) m ∧
      getNextTask m' = (Some i, m')
  | (None, m') =>
      (∀ j u, currentTaskIndex p ≤ j → tasks p !! j = Some u → ¬ eligible p u) ∧
      m' = m ∧
      getNextTask m' = (None, m')
  end.
Proof.
  intros Hp Hdag. unfold getNextTask. rewrite Hp.
  pose proof (getNextTask_loop_spec p _ (currentTaskIndex p) eq_refl) as Hloop.
  destruct (getNextTask_loop p _ _) as [i|] eqn:E.
  - destruct Hloop as (Hle & (t & Hi & Hr) & Hbefore).
    assert (t ∈ tasks p) as Hin by (apply list_elem_of_lookup; eauto).
    pose proof (proj1 (depsComplete_eligible p t Hdag Hin) Hr) as Hel.
    split; [done|]. split.
    { exists t. repeat split; try done; try apply Hel.
      intros (u & Hu & Hnc). by apply Hnc, Hel. }
    split.
    { intros j u Hj Hu Helu.
      assert (u ∈ tasks p) as Huin by (apply list_elem_of_lookup; eauto).
      apply (depsComplete_eligible p u Hdag Huin) in Helu.
      rewrite (Hbefore j u Hj Hu) in Helu. done. }
    split; [done|]. simpl.
    rewrite getNextTask_loop_set_currentTaskIndex.
    by rewrite (getNextTask_loop_again p _ i t Hi Hr eq_refl).
  - split.
    { intros j u Hj Hu Helu.
      assert (u ∈ tasks p) as Huin by (apply list_elem_of_lookup; eauto).
      apply (depsComplete_eligible p u Hdag Huin) in Helu.
      rewrite (Hloop j u Hj Hu) in Helu. done. }
    split; [done|]. by rewrite Hp, E.
Qed.

(** *** Task transitions *)

Lemma alter_found (f : Task → Task) ts i t :
  ts !! i = Some t → alter f i ts = <[i := f t]> ts.
Proof.
  intros Hi. apply list_eq. intros j.
  destruct (decide (i = j)) as [<-|Hne].
  - rewrite list_lookup_alter_eq, Hi, list_lookup_insert_eq; [done|].
    by eapply lookup_lt_Some.
  - by rewrite list_lookup_alter_ne, list_lookup_insert_ne.
Qed.

Lemma findTask_insert taskId ts i t t' :
  findTask taskId ts = Some (i, t) → id t' = taskId →
  findTask taskId (<[i := t']> ts) = Some (i, t').
Proof.
  intros Hf Hid. apply findTask_Some in Hf as (Hi & _ & Hbefore).
  unfold findTask. apply list_find_Some. split_and!.
  - apply list_lookup_insert_eq. by eapply lookup_lt_Some.
  - done.
  - intros j u Hj Hlt. rewrite list_lookup_insert_ne in Hj by lia. eauto.
Qed.

Lemma markTaskInProgress_found m p taskId i t :
  plan m = Some p → findTask taskId (tasks p) = Some (i, t) →
  markTaskInProgress taskId m =
  set_plan (Some (set_tasks
    (<[i := set_attempts (S (attempts t)) (set_status in_progress t)]> (tasks p)) p)) m.
Proof.
  intros Hp Hf. unfold markTaskInProgress, updateTask. rewrite Hp, Hf.
  apply findTask_Some in Hf as (Hi & _). by rewrite (alter_found _ _ _ _ Hi).
Qed.

Lemma markTaskFailed_found m p taskId err i t :
  plan m = Some p → findTask taskId (tasks p) = Some (i, t) →
  markTaskFailed taskId err m =
  if maxAttempts t <=? attempts t then
    set_plan (Some
      ((if stopOnFirstFailure (config m) then set_plan_status plan_failed else λ p, p)
         (set_tasks (<[i := set_status failed (set_error (Some err) t)]> (tasks p)) p))) m
  else
    set_plan (Some
      (set_tasks (<[i := set_status pending (set_error (Some err) t)]> (tasks p)) p)) m.
Proof.
  intros Hp Hf. unfold markTaskFailed. rewrite Hp, Hf. simpl.
  by destruct (maxAttempts t <=? attempts t), (stopOnFirstFailure (config m)).
Qed.

(** The task at [i] after one failed run. *)
Lemma failedRun_found m p taskId err i t :
  plan m = Some p → findTask taskId (tasks p) = Some (i, t) →
  ∃ p' t',
    plan (failedRun taskId err m) = Some p' ∧
    findTask taskId (tasks p') = Some (i, t') ∧
    attempts t' = S (attempts t) ∧ maxAttempts t' = maxAttempts t ∧
    error t' = Some err ∧
    status t' = if maxAttempts t <=? S (attempts t) then failed else pending.
Proof.
  intros Hp Hf. unfold failedRun.
  rewrite (markTaskInProgress_found m p taskId i t Hp Hf).
  set (t1 := set_attempts _ _). set (p1 := set_tasks _ p).
  assert (findTask taskId (tasks p1) = Some (i, t1)) as Hf1.
  { apply (findTask_insert _ _ _ t); [done|]. by apply findTask_Some in Hf as (_ & ? & _). }
  rewrite (markTaskFailed_found (set_plan (Some p1) m) p1 taskId err i t1 eq_refl Hf1).
  assert (id t1 = taskId) as Hid1 by (by apply findTask_Some in Hf1 as (_ & ? & _)).
  change (maxAttempts t1) with (maxAttempts t).
  change (attempts t1) with (S (attempts t)).
  destruct (maxAttempts t <=? S (attempts t)).
  - exists ((if stopOnFirstFailure (config m) then set_plan_status plan_failed else λ p, p)
         (set_tasks (<[i := set_status failed (set_error (Some err) t1)]> (tasks p1)) p1)),
      (set_status failed (set_error (Some err) t1)).
    split; [done|]. split; [|done].
    destruct (stopOnFirstFailure (config m)); by apply (findTask_insert _ _ _ t1).
  - exists (set_tasks (<[i := set_status pending (set_error (Some err) t1)]> (tasks p1)) p1),
      (set_status pending (set_error (Some err) t1)).
    split; [done|]. split; [|done]. by apply (findTask_insert _ _ _ t1).
Qed.

(** The task at [i] after a sequence of failed runs, one per error. *)
Lemma failedRuns_found errs : ∀ m p taskId i t,
  plan m = Some p → findTask taskId (tasks p) = Some (i, t) →
  errs ≠ [] →
  ∃ p' t',
    plan (foldl (λ m e, failedRun taskId e m) m errs) = Some p' ∧
    findTask taskId (tasks p') = Some (i, t') ∧
    attempts t' = attempts t + length errs ∧ maxAttempts t' = maxAttempts t ∧
    error t' = last errs ∧
    status t' =
      if maxAttempts t <=? attempts t + length errs then failed else pending.
Proof.
  induction errs as [|e errs IH]; intros m p taskId i t Hp Hf Hne; [done|].
  destruct (failedRun_found m p taskId e i t Hp Hf)
    as (p1 & t1 & Hp1 & Hf1 & Ha1 & Hm1 & He1 & Hs1).
  destruct errs as [|e' errs].
  - exists p1, t1. simpl. rewrite Nat.add_1_r. by split_and!.
  - destruct (IH _ p1 taskId i t1 Hp1 Hf1 ltac:(done))
      as (p' & t' & Hp' & Hf' & Ha' & Hm' & He' & Hs').
    exists p', t'. split_and!; try done.
    + rewrite Ha', Ha1. simpl. lia.
    + congruence.
    + rewrite Hs', Hm1, Ha1.
      replace (S (attempts t) + length (e' :: errs))
        with (attempts t + length (e :: e' :: errs)); [done | simpl; lia].
Qed.

Lemma exhausted_set_plan_status m p i s :
  plan m = Some p →
  exhausted m i → exhausted (set_plan (Some (set_plan_status s p)) m) i.
Proof. intros Hp (t & Ht & ?). exists t. unfold taskAt in *. by rewrite Hp in Ht. Qed.

Lemma exhausted_checkPlanCompletion m i :
  exhausted m i → exhausted (checkPlanCompletion m) i.
Proof.
  intros H. unfold checkPlanCompletion. destruct (plan m) as [p|] eqn:Hp; [|done].
  repeat case_match; try done; by apply exhausted_set_plan_status.
Qed.

Lemma exhausted_call c m i : exhausted m i → exhausted (call c m) i.
Proof.
  intros Hex. pose proof Hex as (t & Ht & Hmax & Hst).
  unfold taskAt in Ht. destruct (plan m) as [p|] eqn:Hp; [|done].
  destruct c as [| | |vc|taskId|taskId|taskId err]; simpl.
  - unfold approvePlan. rewrite Hp. case_bool_decide; [done|].
    by apply exhausted_set_plan_status.
  - unfold startExecution. rewrite Hp. case_bool_decide; [done|].
    by apply exhausted_set_plan_status.
  - unfold getNextTask. rewrite Hp. case_match; [|done].
    exists t. by unfold taskAt.
  - unfold setVerifyCommands. rewrite Hp. exists t. by unfold taskAt.
  - destruct (findTask taskId (tasks p)) as [[j u]|] eqn:Hf.
    + rewrite (markTaskInProgress_found m p taskId j u Hp Hf).
      unfold exhausted, taskAt. simpl. destruct (decide (j = i)) as [->|Hne].
      * apply findTask_Some in Hf as (Hj & _). assert (u = t) as -> by congruence.
        eexists. rewrite list_lookup_insert_eq by (by eapply lookup_lt_Some).
        split; [done|]. simpl. split; [lia | done].
      * exists t. by rewrite list_lookup_insert_ne.
    + unfold markTaskInProgress, updateTask. rewrite Hp, Hf.
      exists t. by unfold taskAt.
  - unfold markTaskCompleted. apply exhausted_checkPlanCompletion. rewrite Hp.
    unfold updateTask. destruct (findTask taskId (tasks p)) as [[j u]|] eqn:Hf.
    + apply findTask_Some in Hf as (Hj & _). rewrite (alter_found _ _ _ _ Hj).
      unfold exhausted, taskAt. simpl. destruct (decide (j = i)) as [->|Hne].
      * assert (u = t) as -> by congruence.
        eexists. rewrite list_lookup_insert_eq by (by eapply lookup_lt_Some).
        split; [done|]. by simpl.
      * exists t. by rewrite list_lookup_insert_ne.
    + exists t. by unfold taskAt.
  - destruct (findTask taskId (tasks p)) as [[j u]|] eqn:Hf.
    + rewrite (markTaskFailed_found m p taskId err j u Hp Hf).
      pose proof Hf as (Hj & _)%findTask_Some.
      destruct (decide (j = i)) as [->|Hne].
      * assert (u = t) as -> by congruence.
        destruct (Nat.leb_spec (maxAttempts t) (attempts t)); [|lia].
        unfold exhausted, taskAt. simpl.
        destruct (stopOnFirstFailure (config m)); simpl;
          eexists; rewrite list_lookup_insert_eq by (by eapply lookup_lt_Some);
          by split.
      * unfold exhausted, taskAt.
        destruct (maxAttempts u <=? attempts u); simpl;
          try destruct (stopOnFirstFailure (config m)); simpl;
          exists t; by rewrite list_lookup_insert_ne.
    + unfold markTaskFailed. rewrite Hp, Hf. exists t. unfold taskAt. by rewrite Hp.
Qed.

Lemma exhausted_calls cs : ∀ m i, exhausted m i → exhausted (calls cs m) i.
Proof.
  induction cs as [|c cs IH]; intros m i H; [done|].
  simpl. by apply IH, exhausted_call.
Qed.

(** C2. For a task found by its id: [markTaskInProgress] sets it
    in progress and adds exactly one to [attempts], leaving every other
    field and task as it was; [markTaskFailed] stores the error and, with
    [attempts < maxAttempts], resets the status to pending, while with
    [attempts >= maxAttempts] it sets the status to failed and, when
    [stopOnFirstFailure] is configured, the plan status to failed, in
    both cases without touching [attempts]. Hence a fresh task run and
    failed [maxAttempts] times (at least once) is failed with
    [attempts = maxAttempts], was pending after each earlier failure, and
    is not pending after any further sequence of manager calls. *)
Theorem task_retry_bound m p taskId err i t :
  plan m = Some p → findTask taskId (tasks p) = Some (i, t) →
  (∃ p', plan (markTaskInProgress taskId m) = Some p' ∧
         tasks p' = <[i := set_attempts (S (attempts t)) (set_status in_progress t)]> (tasks p) ∧
         plan_status p' = plan_status p) ∧
  (attempts t < maxAttempts t →
     ∃ p', plan (markTaskFailed taskId err m) = Some p' ∧
           tasks p' = <[i := set_status pending (set_error (Some err) t)]> (tasks p) ∧
           plan_status p' = plan_status p) ∧
  (maxAttempts t ≤ attempts t →
     ∃ p', plan (markTaskFailed taskId err m) = Some p' ∧
           tasks p' = <[i := set_status failed (set_error (Some err) t)]> (tasks p) ∧
           plan_status p' =
             if stopOnFirstFailure (config m) then plan_failed else plan_status p) ∧
  (∀ errs, attempts t = 0 → errs ≠ [] →
     let m' := foldl (λ m e, failedRun taskId e m) m errs in
     (length errs < maxAttempts t →
        ∃ t', taskAt m' i = Some t' ∧ status t' = pending ∧
              attempts t' = length errs ∧ error t' = last errs) ∧
     (length errs = maxAttempts t →
        (∃ t', taskAt m' i = Some t' ∧ status t' = failed ∧
               attempts t' = maxAttempts t) ∧
        ∀ cs, ∃ t', taskAt (calls cs m') i = Some t' ∧ status t' ≠ pending)).
Proof.
  intros Hp Hf. split_and!.
  - rewrite (markTaskInProgress_found m p taskId i t Hp Hf). by eexists.
  - intros Hlt. rewrite (markTaskFailed_found m p taskId err i t Hp Hf).
    destruct (Nat.leb_spec (maxAttempts t) (attempts t)); [lia|]. by eexists.
  - intros Hle. rewrite (markTaskFailed_found m p taskId err i t Hp Hf).
    destruct (Nat.leb_spec (maxAttempts t) (attempts t)); [|lia].
    destruct (stopOnFirstFailure (config m)); by eexists.
  - intros errs Ha Hne m'.
    destruct (failedRuns_found errs m p taskId i t Hp Hf Hne)
      as (p' & t' & Hp' & Hf' & Ha' & Hm' & He' & Hs').
    fold m' in Hp'. apply findTask_Some in Hf' as (Hi' & _).
    assert (taskAt m' i = Some t') as Ht' by (unfold taskAt; by rewrite Hp').
    rewrite Ha in Ha', Hs'. simpl in Ha', Hs'. split.
    + intros Hlt. exists t'. split_and!; try done.
      by destruct (Nat.leb_spec (maxAttempts t) (length errs)); [lia|].
    + intros Heq. rewrite Heq, Nat.leb_refl in Hs'.
      split; [exists t'; split_and!; [done..|lia]|].
      intros cs. assert (exhausted m' i) as Hex.
      { exists t'. split_and!; [done|lia|by rewrite Hs']. }
      apply (exhausted_calls cs) in Hex as (t'' & ? & _ & ?). eauto.
Qed.

(** *** Plan status *)

Lemma checkPlanCompletion_stage m p :
  plan m = Some p →
  ∃ p', plan (checkPlanCompletion m) = Some p' ∧
        stage (plan_status p) ≤ stage (plan_status p').
Proof.
  intros Hp. unfold checkPlanCompletion. rewrite Hp.
  repeat case_match; eexists; (split; [done|]); simpl;
    destruct (plan_status p); simpl; lia.
Qed.

Lemma call_stage c m p :
  plan m = Some p →
  ∃ p', plan (call c m) = Some p' ∧
        stage (plan_status p) ≤ stage (plan_status p').
Proof.
  intros Hp. destruct c as [| | |vc|taskId|taskId|taskId err]; simpl.
  - unfold approvePlan. rewrite Hp. case_bool_decide as Hs; [eauto|].
    eexists; split; [done|]. rewrite Hs. simpl. lia.
  - unfold startExecution. rewrite Hp. case_bool_decide as Hs; [eauto|].
    eexists; split; [done|]. rewrite Hs. simpl. lia.
  - unfold getNextTask. rewrite Hp. case_match; eauto.
  - unfold setVerifyCommands. rewrite Hp. eauto.
  - unfold markTaskInProgress, updateTask. rewrite Hp. case_match; [case_match|]; eauto.
  - unfold markTaskCompleted. rewrite Hp.
    edestruct checkPlanCompletion_stage as (p' & -> & Hle); [done|].
    exists p'. split; [done|]. unfold updateTask in Hle.
    by repeat case_match.
  - unfold markTaskFailed. rewrite Hp.
    repeat case_match; eexists; (split; [done|]); simpl; try lia;
      destruct (plan_status p); simpl; lia.
Qed.

(** C3. Along any sequence of manager calls the plan status never
    moves back on draft, approved, in_progress, completed or failed.
    [approvePlan] returns true exactly when there is a plan in status
    draft; it then sets the status to approved and changes nothing else,
    and otherwise returns false and leaves the manager as it was.
    [startExecution] does the same from approved to in_progress. *)
Theorem plan_status_monotone m :
  (∀ cs p, plan m = Some p →
     ∃ p', plan (calls cs m) = Some p' ∧
           stage (plan_status p) ≤ stage (plan_status p')) ∧
  ((approvePlan m).1 = true ↔ ∃ p, plan m = Some p ∧ plan_status p = plan_draft) ∧
  (∀ p, plan m = Some p → plan_status p = plan_draft →
     approvePlan m = (true, set_plan (Some (set_plan_status plan_approved p)) m)) ∧
  ((approvePlan m).1 = false → approvePlan m = (false, m)) ∧
  ((startExecution m).1 = true ↔ ∃ p, plan m = Some p ∧ plan_status p = plan_approved) ∧
  (∀ p, plan m = Some p → plan_status p = plan_approved →
     startExecution m = (true, set_plan (Some (set_plan_status plan_in_progress p)) m)) ∧
  ((startExecution m).1 = false → startExecution m = (false, m)).
Proof.
  split_and!.
  - intros cs. revert m. induction cs as [|c cs IH]; intros m p Hp; [eauto|].
    destruct (call_stage c m p Hp) as (p1 & Hp1 & Hle1).
    destruct (IH _ p1 Hp1) as (p' & Hp' & Hle'). exists p'. split; [done|]. lia.
  - unfold approvePlan. destruct (plan m) as [p|]; simpl.
    + case_bool_decide as Hs; simpl.
      * split; [done|]. intros (? & [= <-] & ?). done.
      * split; [|done]. intros _. by exists p.
    + split; [done|]. by intros (? & ? & _).
  - intros p Hp Hs. unfold approvePlan. rewrite Hp.
    case_bool_decide; [done|]. done.
  - unfold approvePlan. destruct (plan m) as [p|]; [|done].
    by case_bool_decide.
  - unfold startExecution. destruct (plan m) as [p|]; simpl.
    + case_bool_decide as Hs; simpl.
      * split; [done|]. intros (? & [= <-] & ?). done.
      * split; [|done]. intros _. by exists p.
    + split; [done|]. by intros (? & ? & _).
  - intros p Hp Hs. unfold startExecution. rewrite Hp.
    case_bool_decide; [done|]. done.
  - unfold startExecution. destruct (plan m) as [p|]; [|done].
    by case_bool_decide.
Qed.

(** *** Persistence *)


End PlanManagerProperties.

(** ** The verifier *)

Section VerifierProperties.
Import Effect Verifier.
Context {W : Type}.
Variable execAsync : jsstring → jsstring → N → W → W * Settled.
Variable v : Verifier.

Lemma runCommand_returns command w :
  ∃ w' result,
    runCommand execAsync v command w = (w', Returned result) ∧
    w' = (execAsync command (workingDirectory v) (timeout v) w).1 ∧
    command = Verifier.command result ∧
    success result =
      match (execAsync command (workingDirectory v) (timeout v) w).2 with
      | Fulfilled _ _ => true
      | Rejected _ _ _ _ _ => false
      end.
Proof.
  unfold runCommand.
  destruct (execAsync command (workingDirectory v) (timeout v) w) as [w' [so se|so se c k msg]];
    by eexists _, _.
Qed.

Lemma verifyStep_skip command acc w :
  (command = None ∨ command = Some [] ∨ acc.1 = false) →
  verifyStep execAsync v command acc w = (w, Returned acc).
Proof.
  destruct acc as [ok rs]. unfold verifyStep.
  intros [-> | [-> | Hok]]; [done..|]. simpl in Hok. subst ok.
  destruct command as [c|]; [|done]. by rewrite andb_false_r.
Qed.

Lemma verifyStep_run c rs w :
  JS.truthy c = true →
  verifyStep execAsync v (Some c) (true, rs) w =
  bind (runCommand execAsync v c)
    (λ result, ret (success result, rs ++ [result])) w.
Proof.
  intros Hc. unfold verifyStep. rewrite Hc. simpl. unfold bind.
  destruct (runCommand execAsync v c w) as [w' [r|e]]; [|done].
  by destruct (success r).
Qed.

Lemma verifyAll_verifySteps commands w :
  verifyAll execAsync v commands w =
  verifySteps execAsync v [Planning.lint commands; Planning.build commands; Planning.test commands]
              (true, []) w.
Proof.
  unfold verifyAll. cbn [verifySteps]. unfold bind.
  destruct (verifyStep execAsync v (Planning.lint commands) (true, []) w) as [w1 [r1|e1]]; [|done].
  destruct (verifyStep execAsync v (Planning.build commands) r1 w1) as [w2 [r2|e2]]; [|done].
  by destruct (verifyStep execAsync v (Planning.test commands) r2 w2) as [w3 [r3|e3]].
Qed.

Lemma verifySteps_failed commands rs w :
  verifySteps execAsync v commands (false, rs) w = (w, Returned (false, rs)).
Proof.
  revert w. induction commands as [|c rest IH]; intros w; [done|].
  simpl. unfold bind. destruct c as [c|]; simpl.
  - rewrite andb_false_r. simpl. apply IH.
  - apply IH.
Qed.

Lemma verifySteps_runUntilFailure commands rs w :
  verifySteps execAsync v commands (true, rs) w =
  runUntilFailure execAsync v (filter (λ c, JS.truthy c = true) (omap id commands)) rs w.
Proof.
  revert rs w. induction commands as [|c rest IH]; intros rs w; [done|].
  simpl. unfold bind at 1. destruct c as [c|]; simpl.
  - destruct (JS.truthy c) eqn:Hc; simpl.
    + rewrite filter_cons_True by done. simpl. unfold bind.
      destruct (runCommand execAsync v c w) as [w' [r|e]]; [|done].
      simpl. destruct (success r); [apply IH | apply verifySteps_failed].
    + rewrite filter_cons_False by (by rewrite Hc). apply IH.
  - apply IH.
Qed.

Lemma verifyAll_runUntilFailure commands w :
  verifyAll execAsync v commands w = runUntilFailure execAsync v (configured commands) [] w.
Proof. rewrite verifyAll_verifySteps. apply verifySteps_runUntilFailure. Qed.

Lemma runUntilFailure_returns cmds : ∀ rs w,
  ∃ w' ok results,
    runUntilFailure execAsync v cmds rs w = (w', Returned (ok, rs ++ results)) ∧
    Verifier.command <$> results `prefix_of` cmds ∧
    Forall (λ r, success r = true) (removelast results) ∧
    ok = forallb success results ∧
    (ok = true → length results = length cmds).
Proof.
  induction cmds as [|c rest IH]; intros rs w; simpl.
  - exists w, true, []. rewrite app_nil_r. by split_and!.
  - unfold bind. destruct (runCommand_returns c w) as (w1 & r & -> & _ & Hc & _).
    destruct (success r) eqn:Hs.
    + destruct (IH (rs ++ [r]) w1) as (w' & ok & results & -> & Hpre & Hall & Hok & Hlen).
      exists w', ok, (r :: results). rewrite <- app_assoc. split_and!; try done.
      * simpl. rewrite <- Hc. by apply prefix_cons.
      * destruct results; [constructor|]. by constructor.
      * simpl. by rewrite Hs.
      * simpl. intros. f_equal. auto.
    + exists w1, false, [r]. split_and!; try done.
      * simpl. rewrite <- Hc. apply prefix_cons, prefix_nil.
      * simpl. by rewrite Hs.
Qed.

End VerifierProperties.

Section VerifierLog.
Import Effect Verifier.
Context {W : Type}.
Variable execAsync : jsstring → jsstring → N → W → W * Settled.
Variable v : Verifier.

Lemma runCommand_logged c w log :
  runCommand (logged execAsync) v c (w, log) =
  ((runCommand execAsync v c w).1, log ++ [c], (runCommand execAsync v c w).2).
Proof.
  unfold runCommand, logged. simpl.
  by destruct (execAsync c (workingDirectory v) (timeout v) w) as [w1 [so se|so se cd k msg]].
Qed.

Lemma runUntilFailure_logged cmds : ∀ rs w log,
  ∃ w' ok results,
    runUntilFailure (logged execAsync) v cmds rs (w, log)
      = ((w', log ++ (command <$> results)), Returned (ok, rs ++ results)) ∧
    runUntilFailure execAsync v cmds rs w = (w', Returned (ok, rs ++ results)).
Proof.
  induction cmds as [|c rest IH]; intros rs w log; simpl.
  - exists w, true, []. by rewrite !app_nil_r.
  - unfold bind. rewrite runCommand_logged.
    destruct (runCommand_returns execAsync v c w) as (w1 & r & -> & _ & Hc & _).
    simpl. destruct (success r).
    + destruct (IH (rs ++ [r]) w1 (log ++ [c])) as (w' & ok & results & -> & ->).
      exists w', ok, (r :: results). simpl. by rewrite <- Hc, <- !app_assoc.
    + exists w1, false, [r]. simpl. by rewrite <- Hc.
Qed.

(** C7. [runCommand] returns for every way the process can settle, and
    never throws: a rejection (non-zero exit or timeout) gives
    [success = false], a non-zero exit code and, as output, the trimmed
    capture of stdout and stderr joined by a line feed, or the trimmed
    error message when nothing was captured. [verifyAll] runs the
    configured commands in the order lint, build, test and stops after
    the first failure: the results returned are those of a prefix of the
    configured commands, every result but the last is a success, the
    overall flag says whether all succeeded, in which case every
    configured command ran, and the commands handed to the shell are
    exactly those of the results. In particular, when the build command
    fails the shell is handed nothing after it. *)
Theorem verifier_reports_failures :
  (∀ command w,
     ∃ result,
       runCommand execAsync v command w
         = ((execAsync command (workingDirectory v) (timeout v) w).1, Returned result) ∧
       Verifier.command result = command ∧
       match (execAsync command (workingDirectory v) (timeout v) w).2 with
       | Fulfilled _ _ => success result = true ∧ exitCode result = 0%Z
       | Rejected stdout stderr code killed message =>
           let out := default [] stdout in
           let err := default [] stderr in
           let captured :=
             out ++ (if JS.truthy out && JS.truthy err then [lf] else []) ++ err in
           success result = false ∧
           output result = JS.trim (if JS.truthy captured then captured else message) ∧
           exitCode result ≠ 0%Z
       end) ∧
  (∀ commands w log,
     ∃ w' ok results,
       verifyAll execAsync v commands w = (w', Returned (ok, results)) ∧
       verifyAll (logged execAsync) v commands (w, log)
         = ((w', log ++ (command <$> results)), Returned (ok, results)) ∧
       (command <$> results) `prefix_of` configured commands ∧
       Forall (λ r, success r = true) (removelast results) ∧
       ok = forallb success results ∧
       (ok = true → length results = length (configured commands))) ∧
  (∀ commands w log buildCommand w1 results1 stdout stderr code killed message,
     Planning.build commands = Some buildCommand →
     JS.truthy buildCommand = true →
     verifyStep (logged execAsync) v (Planning.lint commands) (true, []) (w, log)
       = ((w1, log ++ (command <$> results1)), Returned (true, results1)) →
     (execAsync buildCommand (workingDirectory v) (timeout v) w1).2
       = Rejected stdout stderr code killed message →
     ∃ result,
       verifyAll (logged execAsync) v commands (w, log)
         = (((execAsync buildCommand (workingDirectory v) (timeout v) w1).1,
             log ++ (command <$> results1) ++ [buildCommand]),
            Returned (false, results1 ++ [result])) ∧
       success result = false ∧ command result = buildCommand).
Proof.
  split_and!.
  - intros command w. unfold runCommand.
    destruct (execAsync command (workingDirectory v) (timeout v) w)
      as [w' [so se|so se cd k msg]]; simpl.
    + by eexists.
    + eexists. split; [done|]. split; [done|]. simpl. split; [done|]. split.
      * f_equal. destruct so as [[|a so]|], se as [[|b se]|]; simpl;
          rewrite ?app_nil_r; try done; by destruct msg.
      * destruct cd as [c|]; [|done]. by destruct (Z.eqb_spec c 0).
  - intros commands w log.
    rewrite !verifyAll_runUntilFailure.
    destruct (runUntilFailure_logged (configured commands) [] w log)
      as (w' & ok & results & Hl & Hp).
    destruct (runUntilFailure_returns execAsync v (configured commands) [] w)
      as (w'' & ok' & results' & Hr & Hpre & Hall & Hok & Hlen).
    rewrite Hp in Hr. injection Hr as -> -> ->. simpl in Hl.
    exists w'', ok', results'. by split_and!.
  - intros commands w log cb w1 results1 so se cd k msg Hb Hcb Hlint Hrej.
    unfold verifyAll, bind. rewrite Hlint, Hb.
    rewrite (verifyStep_run (logged execAsync) v cb results1 _ Hcb). unfold bind.
    rewrite runCommand_logged.
    destruct (runCommand_returns execAsync v cb w1) as (w2 & r & Hrc & -> & Hcmd & Hs).
    rewrite Hrc, Hrej in *. cbn [fst snd]. unfold ret. rewrite Hs.
    rewrite verifyStep_skip by (right; right; done).
    exists r. by rewrite <- app_assoc.
Qed.

End VerifierLog.

(** ** The agent loop *)

Section AgentProperties.
Import Effect Context Json Parser Agent.
Context {W : Type}.
Variable config : AgentConfig W.
Variable buildSystemPrompt : ConversationContext → jsstring.

Implicit Types (st : State W) (call : ParsedToolCall) (fr : jsstring).

Lemma runToolCall_unknown call st :
  getToolByName (tools config) (name call) = None →
  runToolCall config call st =
    (st, Returned (formatToolResult (nameText (name call)) false []
                     (Some (str "Unknown tool: " ++ nameText (name call))))).
Proof. intros H. unfold runToolCall. by rewrite H. Qed.

Lemma runToolCall_known call tool st :
  getToolByName (tools config) (name call) = Some tool →
  runToolCall config call st =
    match execute tool (parameters call) (workingDirectory (context st))
                  (beforeTool config call st) with
    | (w', Returned result) =>
        (afterTool config call result w' st,
         Returned (formatToolResult (nameText (name call))
                     (success result) (output result) (error result)))
    | (w', Thrown e) => (mkState w' (context st), Thrown e)
    end.
Proof.
  intros H. unfold runToolCall, beforeTool, afterTool. rewrite H.
  destruct st as [w c]. unfold bind, notify, get, onWorld, modify, ret. simpl.
  destruct (onToolCall config) as [f|]; simpl;
    destruct (execute tool _ _ _) as [w' [r|e]]; simpl; try done;
    by destruct (onToolResult config).
Qed.

Lemma runToolCalls_cons call rest acc st st' x :
  runToolCall config call st = (st', Returned x) →
  runToolCalls config (call :: rest) acc st = runToolCalls config rest (acc ++ [x]) st'.
Proof. intros H. simpl. unfold bind. by rewrite H. Qed.

Lemma runToolCalls_length calls : ∀ acc st st' results,
  runToolCalls config calls acc st = (st', Returned results) →
  context st' = context st ∧ ∃ new, results = acc ++ new ∧ length new = length calls.
Proof.
  induction calls as [|call rest IH]; intros acc st st' results; simpl.
  - intros [= <- <-]. split; [done|]. exists []. by rewrite app_nil_r.
  - unfold bind. destruct (runToolCall config call st) as [st1 [x|e]] eqn:E; [|done].
    intros H. apply IH in H as (Hc & new & -> & Hlen).
    assert (context st1 = context st) as Hc1.
    { destruct (getToolByName (tools config) (name call)) as [tool|] eqn:Hg.
      - rewrite (runToolCall_known _ _ _ Hg) in E.
        destruct (execute tool _ _ _) as [w' [r|e]]; by simplify_eq.
      - rewrite (runToolCall_unknown _ _ Hg) in E. by simplify_eq. }
    split; [congruence|]. exists (x :: new). rewrite <- app_assoc. simpl.
    split; [done|]. by rewrite Hlen.
Qed.

Lemma loop_chat_throws n fr st w' e :
  provider_chat config (messages (context st)) (world st) = (w', Thrown e) →
  loop config (S n) fr st = (mkState w' (context st), Thrown e).
Proof.
  intros H. simpl. unfold bind, get, onWorld. simpl. by rewrite H.
Qed.

Lemma loop_no_tool_call n fr st w' response :
  provider_chat config (messages (context st)) (world st) = (w', Returned response) →
  toolCalls (parseToolCalls response) = [] →
  loop config (S n) fr st =
    (mkState w' (addAssistantMessage response (context st)),
     Returned (if JS.truthy (narrative fr response)
               then narrative fr response else response)).
Proof.
  intros H Hnone. simpl. unfold bind, get, onWorld. simpl. rewrite H. simpl.
  by rewrite Hnone.
Qed.

Lemma loop_tool_calls n fr st w' response :
  provider_chat config (messages (context st)) (world st) = (w', Returned response) →
  toolCalls (parseToolCalls response) ≠ [] →
  loop config (S n) fr st =
    match runToolCalls config (toolCalls (parseToolCalls response)) []
                       (mkState w' (context st)) with
    | (st1, Returned toolResults) =>
        loop config n (narrative fr response)
          (mkState (world st1)
             (addUserMessage (join [lf; lf] toolResults)
                (addAssistantMessage response (context st1))))
    | (st1, Thrown e) => (st1, Thrown e)
    end.
Proof.
  intros H Hsome. simpl. unfold bind at 1 2, get, onWorld. simpl. rewrite H. simpl.
  destruct (toolCalls (parseToolCalls response)) as [|c cs] eqn:E; [done|].
  unfold bind at 1.
  destruct (runToolCalls config (c :: cs) [] _) as [st1 [rs|e]]; [|done].
  by destruct st1.
Qed.

Lemma loop_exhausted fr st :
  loop config 0 fr st =
    (st, Returned
           (if JS.truthy fr then fr
            else str "I was unable to complete the task within the maximum number of steps.")).
Proof. done. Qed.

Lemma run_loop userMessage st :
  run config buildSystemPrompt userMessage st =
  loop config MAX_TOOL_ITERATIONS [] (entry buildSystemPrompt userMessage st).
Proof. by destruct st. Qed.

(** C6. An invocation whose name matches no registered tool yields the
    synthesized failure block, changes nothing and lets the remaining
    invocations run; so does a tool whose [execute] returns a result
    with [success = false], whose failure block is pushed; the blocks of
    a turn are appended after the completion as one user message, the
    input of the next turn; a failure of [provider.chat] ends the loop
    and the whole [run] with that error. *)
Theorem tool_failures_do_not_abort :
  (∀ call rest acc st,
     getToolByName (tools config) (name call) = None →
     runToolCalls config (call :: rest) acc st =
     runToolCalls config rest
       (acc ++ [formatToolResult (nameText (name call)) false []
                  (Some (str "Unknown tool: " ++ nameText (name call)))]) st) ∧
  (∀ call rest acc st tool w' result,
     getToolByName (tools config) (name call) = Some tool →
     execute tool (parameters call) (workingDirectory (context st)) (beforeTool config call st)
       = (w', Returned result) →
     success result = false →
     runToolCalls config (call :: rest) acc st =
     runToolCalls config rest
       (acc ++ [formatToolResult (nameText (name call)) false (output result) (error result)])
       (afterTool config call result w' st)) ∧
  (∀ n fr st w' response st1 toolResults,
     provider_chat config (messages (context st)) (world st) = (w', Returned response) →
     toolCalls (parseToolCalls response) ≠ [] →
     runToolCalls config (toolCalls (parseToolCalls response)) [] (mkState w' (context st))
       = (st1, Returned toolResults) →
     length toolResults = length (toolCalls (parseToolCalls response)) ∧
     loop config (S n) fr st =
     loop config n (narrative fr response)
       (mkState (world st1)
          (set_messages
             (messages (context st)
              ++ [mkMessage assistant response;
                  mkMessage user (join [lf; lf] toolResults)])
             (context st)))) ∧
  (∀ n fr st w' e,
     provider_chat config (messages (context st)) (world st) = (w', Thrown e) →
     loop config (S n) fr st = (mkState w' (context st), Thrown e)) ∧
  (∀ userMessage st w' e,
     provider_chat config (messages (context (entry buildSystemPrompt userMessage st))) (world st)
       = (w', Thrown e) →
     run config buildSystemPrompt userMessage st
       = (mkState w' (context (entry buildSystemPrompt userMessage st)), Thrown e)).
Proof.
  split_and!.
  - intros call rest acc st H.
    by apply runToolCalls_cons, runToolCall_unknown.
  - intros call rest acc st tool w' result Hg He Hs.
    apply runToolCalls_cons. rewrite (runToolCall_known _ _ _ Hg), He. by rewrite Hs.
  - intros n fr st w' response st1 toolResults Hchat Hcalls Hrun.
    pose proof (runToolCalls_length _ _ _ _ _ Hrun) as (Hctx & new & Hnew & Hlen).
    simpl in Hnew, Hctx. subst new. split; [done|].
    rewrite (loop_tool_calls _ _ _ _ _ Hchat Hcalls), Hrun, Hctx.
    unfold addUserMessage, addAssistantMessage, set_messages. simpl.
    by rewrite <- app_assoc.
  - apply loop_chat_throws.
  - intros userMessage st w' e H. rewrite run_loop.
    by apply loop_chat_throws.
Qed.

End AgentProperties.

Section AgentBound.
Import Effect Context Json Parser Agent.
Context {W : Type}.
Variable config : AgentConfig W.
Variable buildSystemPrompt : ConversationContext → jsstring.

Lemma find_fmap {A B} (f : A → B) (p : B → bool) (l : list A) :
  List.find p (f <$> l) = f <$> List.find (λ x, p (f x)) l.
Proof. induction l as [|x l IH]; simpl; [done|]. by destruct (p (f x)). Qed.

Lemma getToolByName_counting nm :
  getToolByName (tools (counting config)) nm = countingTool <$> getToolByName (tools config) nm.
Proof. destruct nm as [n|k]; simpl; [|done]. by rewrite find_fmap. Qed.

Lemma runToolCall_counting call st :
  ∃ st', (runToolCall (counting config) call st).1 = st' ∧
    runToolCall config call (forget st) = (forget st', (runToolCall (counting config) call st).2) ∧
    chats st' = chats st.
Proof.
  eexists; split; [done|].
  destruct (getToolByName (tools config) (name call)) as [tool|] eqn:Hg.
  - rewrite (runToolCall_known config call tool (forget st) Hg).
    rewrite (runToolCall_known (counting config) call (countingTool tool) st)
      by (by rewrite getToolByName_counting, Hg).
    unfold beforeTool, afterTool, forget, chats. destruct st as [[w n] c]. simpl.
    destruct (onToolCall config) as [f|]; simpl;
      destruct (execute tool _ _ _) as [w' [r|e]]; simpl; try done;
      by destruct (onToolResult config).
  - rewrite (runToolCall_unknown config call (forget st) Hg).
    by rewrite (runToolCall_unknown (counting config) call st)
      by (by rewrite getToolByName_counting, Hg).
Qed.

Lemma runToolCalls_counting calls : ∀ acc st,
  ∃ st', (runToolCalls (counting config) calls acc st).1 = st' ∧
    runToolCalls config calls acc (forget st)
      = (forget st', (runToolCalls (counting config) calls acc st).2) ∧
    chats st' = chats st.
Proof.
  induction calls as [|call rest IH]; intros acc st; simpl.
  - by eexists.
  - unfold bind.
    destruct (runToolCall_counting call st) as (st1 & H1 & -> & Hc1).
    destruct (runToolCall (counting config) call st) as [st1' [x|e]]; simpl in *; subst st1'.
    + destruct (IH (acc ++ [x]) st1) as (st2 & H2 & -> & Hc2).
      exists st2. split; [done|]. split; [done|]. congruence.
    + by exists st1.
Qed.

Lemma getToolByName_elem nm tool :
  getToolByName (tools config) nm = Some tool → tool ∈ tools config.
Proof.
  destruct nm as [n|k]; simpl; [|done]. intros H.
  apply find_some in H as [H _]. by apply list_elem_of_In.
Qed.

Lemma runToolCalls_returns calls : ∀ acc st,
  (∀ tool params dir w, tool ∈ tools config →
     ∃ w' result, execute tool params dir w = (w', Returned result)) →
  ∃ st' results, runToolCalls config calls acc st = (st', Returned results).
Proof.
  induction calls as [|call rest IH]; intros acc st Htools; simpl; [by eexists _, _|].
  unfold bind.
  destruct (getToolByName (tools config) (name call)) as [tool|] eqn:Hg.
  - rewrite (runToolCall_known config call tool st Hg).
    destruct (Htools tool (parameters call) (workingDirectory (context st))
                (beforeTool config call st) (getToolByName_elem _ _ Hg))
      as (w' & r & ->).
    by apply IH.
  - rewrite (runToolCall_unknown config call st Hg). by apply IH.
Qed.

Lemma loop_counting n : ∀ fr st,
  ∃ st', (loop (counting config) n fr st).1 = st' ∧
    loop config n fr (forget st) = (forget st', (loop (counting config) n fr st).2) ∧
    chats st ≤ chats st' ≤ chats st + n ∧
    (busy config → chats st' = chats st + n).
Proof.
  induction n as [|n IH]; intros fr st.
  - exists st. simpl. split; [done|]. split; [done|]. split; lia.
  - destruct st as [[w c] ctx].
    destruct (provider_chat config (messages ctx) w) as [w' [response|e]] eqn:Hchat.
    2: { rewrite (loop_chat_throws (counting config) n fr _ (w', S c) e)
           by (simpl; by rewrite Hchat).
         rewrite (loop_chat_throws config n fr _ w' e) by done.
         eexists; split; [done|]. split; [done|]. unfold chats; simpl.
         split; [lia|]. intros [Hb _].
         destruct (Hb (messages ctx) w) as (? & ? & ? & _). congruence. }
    destruct (toolCalls (parseToolCalls response)) as [|tc tcs] eqn:Hcalls.
    { rewrite (loop_no_tool_call (counting config) n fr _ (w', S c) response)
        by (simpl; by rewrite ?Hchat).
      rewrite (loop_no_tool_call config n fr _ w' response) by done.
      eexists; split; [done|]. split; [done|]. unfold chats; simpl.
      split; [lia|]. intros [Hb _].
      destruct (Hb (messages ctx) w) as (? & ? & ? & Hne). congruence. }
    rewrite (loop_tool_calls (counting config) n fr _ (w', S c) response)
      by (simpl; by rewrite ?Hchat, ?Hcalls).
    rewrite (loop_tool_calls config n fr _ w' response) by (by rewrite ?Hcalls).
    rewrite Hcalls.
    destruct (runToolCalls_counting (tc :: tcs) [] (mkState (w', S c) ctx))
      as (st1 & H1 & Hproj & Hc1).
    change (forget (mkState (w', S c) ctx)) with (mkState w' ctx) in Hproj.
    change (context (forget (mkState (w, c) ctx))) with ctx.
    rewrite Hproj.
    change (context (mkState (w, c) ctx)) with ctx.
    destruct (runToolCalls (counting config) (tc :: tcs) [] (mkState (w', S c) ctx))
      as [st1' [rs|e]]; cbn [fst snd] in H1, Hproj |- *; subst st1'.
    + edestruct (IH (narrative fr response)) as (st2 & H2 & Hp2 & Hc2 & Hb2).
      exists st2. split; [exact H2|]. split; [exact Hp2|].
      unfold chats in *. cbn [world fst snd] in *. split; [lia|].
      intros Hb. specialize (Hb2 Hb). lia.
    + exists st1. split; [done|]. split; [done|].
      unfold chats in *. cbn [world fst snd] in *. split; [lia|].
      intros [_ Hb].
      destruct (runToolCalls_returns (tc :: tcs) [] (mkState w' ctx) Hb)
        as (? & ? & Hret). congruence.
Qed.

(** When every turn asks for tools, the loop runs out of iterations:
    it returns the narrative kept over the completions it received, one
    per iteration, or the fixed message when there is none. *)
Lemma loop_forced n : ∀ fr st,
  busy config →
  ∃ st' responses,
    length responses = n ∧
    loop config n fr st =
      (st', Returned
              (if JS.truthy (foldl narrative fr responses)
               then foldl narrative fr responses
               else str "I was unable to complete the task within the maximum number of steps.")).
Proof.
  induction n as [|n IH]; intros fr st Hbusy.
  - by exists st, [].
  - destruct Hbusy as [Hchat Htools].
    destruct (Hchat (messages (context st)) (world st)) as (w' & response & Hc & Hcalls).
    rewrite (loop_tool_calls config n fr st w' response Hc Hcalls).
    destruct (runToolCalls_returns (toolCalls (parseToolCalls response)) []
                (mkState w' (context st)) Htools) as (st1 & rs & ->).
    edestruct (IH (narrative fr response)) as (st' & responses & Hlen & ->); [done|].
    exists st', (response :: responses). simpl. by rewrite Hlen.
Qed.

(** C9. [run] enters its loop with 20 iterations left, and makes at
    most 20 calls of [provider.chat], whatever the provider and the
    tools do; a completion without tool call ends the run normally with
    the narrative text, or the completion itself when there is none;
    with no iteration left the loop returns the narrative text seen so
    far or, if none, the fixed message; and when every turn asks for
    tools the run makes exactly 20 calls and ends that way. *)
Theorem run_iteration_bound :
  MAX_TOOL_ITERATIONS = 20 ∧
  (∀ userMessage st,
     run config buildSystemPrompt userMessage st =
     loop config 20 [] (entry buildSystemPrompt userMessage st)) ∧
  (∀ userMessage (st : State (W * nat)),
     let r := run (counting config) buildSystemPrompt userMessage st in
     run config buildSystemPrompt userMessage (forget st) = (forget r.1, r.2) ∧
     chats st ≤ chats r.1 ≤ chats st + 20) ∧
  (∀ n fr st w' response,
     provider_chat config (messages (context st)) (world st) = (w', Returned response) →
     toolCalls (parseToolCalls response) = [] →
     loop config (S n) fr st =
       (mkState w' (addAssistantMessage response (context st)),
        Returned (if JS.truthy (narrative fr response)
                  then narrative fr response else response))) ∧
  (∀ fr st,
     loop config 0 fr st =
       (st, Returned
              (if JS.truthy fr then fr
               else str "I was unable to complete the task within the maximum number of steps."))) ∧
  (busy config →
   ∀ userMessage (st : State (W * nat)),
     let r := run (counting config) buildSystemPrompt userMessage st in
     chats r.1 = chats st + 20 ∧
     ∃ responses,
       length responses = 20 ∧
       r.2 = Returned
               (if JS.truthy (foldl narrative [] responses)
                then foldl narrative [] responses
                else str "I was unable to complete the task within the maximum number of steps.")).
Proof.
  split_and!.
  - done.
  - intros. apply run_loop.
  - intros userMessage st r. subst r. rewrite !run_loop.
    change 20 with MAX_TOOL_ITERATIONS. generalize MAX_TOOL_ITERATIONS. intros n.
    destruct (loop_counting n [] (entry buildSystemPrompt userMessage st))
      as (st' & Hst & Hp & Hc & _).
    rewrite Hst. split; [|exact Hc]. by destruct st as [[w c] ctx].
  - apply loop_no_tool_call.
  - apply loop_exhausted.
  - intros Hbusy userMessage st r. subst r. rewrite !run_loop.
    change 20 with MAX_TOOL_ITERATIONS. generalize MAX_TOOL_ITERATIONS. intros n.
    destruct (loop_counting n [] (entry buildSystemPrompt userMessage st))
      as (st' & Hst & Hp & _ & Hex).
    destruct (loop_forced n [] (forget (entry buildSystemPrompt userMessage st)) Hbusy)
      as (st2 & responses & Hlen & Hl).
    rewrite Hl in Hp. injection Hp as Hst2 Hr. rewrite <- Hr, Hst.
    split; [|by exists responses].
    rewrite (Hex Hbusy). by destruct st as [[w c] ctx].
Qed.

End AgentBound.

(** ** The executor *)

Section ExecutorProperties.
Import Effect Planning Executor.
Context {W : Type}.
Variable ex : Executor (W := W).

Implicit Types (st : State (W := W)) (m : PlanManager) (t : Task) (i : nat).

Lemma keepsPlan_ret {A} (a : A) : keepsPlan W (ret a).
Proof. done. Qed.

Lemma keepsPlan_throw {A} e : keepsPlan W (throw (A := A) e).
Proof. done. Qed.

Lemma keepsPlan_get : keepsPlan W get.
Proof. done. Qed.

Lemma keepsPlan_bind {A B} (c : M State A) (f : A → M State B) :
  keepsPlan W c → (∀ a, keepsPlan W (f a)) → keepsPlan W (bind c f).
Proof.
  intros Hc Hf st. unfold bind. specialize (Hc st).
  destruct (c st) as [st1 [a|e]]; simpl in *; [|done].
  by rewrite Hf.
Qed.

Lemma keepsPlan_tryCatch {A} (c : M State A) (h : jsstring → M State A) :
  keepsPlan W c → (∀ e, keepsPlan W (h e)) → keepsPlan W (tryCatch c h).
Proof.
  intros Hc Hh st. unfold tryCatch. specialize (Hc st).
  destruct (c st) as [st1 [a|e]]; simpl in *; [done|].
  by rewrite Hh.
Qed.

Lemma keepsPlan_onWorld {A} (c : M W A) : keepsPlan W (onWorld c).
Proof. intros st. unfold onWorld. by destruct (c (world st)). Qed.

Lemma keepsPlan_notify f : keepsPlan W (notify f).
Proof. intros st. by destruct f. Qed.

Lemma keepsPlan_agentRun prompt : keepsPlan W (agentRun ex prompt).
Proof. intros st. unfold agentRun. by destruct (Agent.run _ _ _ _). Qed.

Lemma keepsPlan_if {A} (b : bool) (c1 c2 : M State A) :
  keepsPlan W c1 → keepsPlan W c2 → keepsPlan W (if b then c1 else c2).
Proof. by destruct b. Qed.

Lemma keepsPlan_attemptFix t e : keepsPlan W (attemptFix ex t e).
Proof.
  unfold attemptFix. apply keepsPlan_tryCatch.
  - apply keepsPlan_bind; [apply keepsPlan_agentRun|]. intros; apply keepsPlan_ret.
  - intros; apply keepsPlan_ret.
Qed.

Lemma keepsPlan_executeTask t : keepsPlan W (executeTask ex t).
Proof.
  unfold executeTask, notifyVerification.
  repeat first
    [ apply keepsPlan_ret | apply keepsPlan_throw | apply keepsPlan_get
    | apply keepsPlan_onWorld | apply keepsPlan_notify | apply keepsPlan_agentRun
    | apply keepsPlan_attemptFix
    | apply keepsPlan_tryCatch | apply keepsPlan_bind | apply keepsPlan_if
    | match goal with |- ∀ _, keepsPlan W _ => intros ? end
    | match goal with |- keepsPlan W (match ?x with _ => _ end) => destruct x end ].
Qed.

(** [executeTask] catches whatever is thrown. *)
Lemma executeTask_returns t st : ∃ result, (executeTask ex t st).2 = Returned result.
Proof.
  unfold executeTask, tryCatch.
  match goal with |- context [ let (_, _) := ?c st in _ ] => destruct (c st) as [st1 [r|e]] end;
    by eexists.
Qed.

(** The plan manager after one turn of the loop that goes on. *)
Lemma iteration_Continue st st' :
  iteration ex st = (st', Continue) →
  ∃ i m1 task0 task result,
    getNextTask (planManager st) = (Some i, m1) ∧
    taskAt m1 i = Some task0 ∧
    task = default task0 (taskAt (markTaskInProgress (id task0) m1) i) ∧
    planManager st' =
      if success result
      then markTaskCompleted (id task) (markTaskInProgress (id task0) m1)
      else markTaskFailed (id task) (output result) (markTaskInProgress (id task0) m1).
Proof.
  unfold iteration.
  destruct (shouldStop st || stopCalled ex (world st)); [done|].
  destruct (getNextTask (planManager st)) as [[i|] m1] eqn:Hnext; [|done].
  destruct (taskAt m1 i) as [task0|] eqn:Htask; [|done].
  set (st1 := set_planManager m1 st).
  set (st2 := (notify _ st1).1).
  assert (planManager st2 = m1) as Hm2.
  { unfold st2. by rewrite keepsPlan_notify. }
  rewrite Hm2.
  set (st3 := set_planManager (markTaskInProgress (id task0) m1) st2).
  set (task := default task0 (taskAt (planManager st3) i)).
  pose proof (keepsPlan_executeTask task st3) as Hkeep.
  destruct (executeTask ex task st3) as [st4 r] eqn:Hexec. simpl in Hkeep.
  set (result := match r with Returned result => result | Thrown err => _ end).
  rewrite Hkeep. change (planManager st3) with (markTaskInProgress (id task0) m1).
  replace (default task (taskAt (markTaskInProgress (id task0) m1) i)) with task
    by (unfold task; simpl; by destruct (taskAt (markTaskInProgress (id task0) m1) i)).
  intros H. exists i, m1, task0, task, result. split_and!; try done.
  destruct (success result).
  - injection H as <- . by rewrite keepsPlan_notify, keepsPlan_notify.
  - destruct (negb _ && _); [done|].
    injection H as <- . by rewrite keepsPlan_notify, keepsPlan_notify.
Qed.

(** *** Termination of the loop *)

Lemma sum_list_insert (f : Task → nat) (ts : list Task) i t t' :
  ts !! i = Some t →
  sum_list (f <$> <[i := t']> ts) + f t = sum_list (f <$> ts) + f t'.
Proof.
  revert i. induction ts as [|x ts IH]; intros [|i] H; simplify_eq/=; [lia|].
  specialize (IH i H). lia.
Qed.

Lemma ids_insert (ts : list Task) i t t' :
  ts !! i = Some t → id t' = id t → id <$> <[i := t']> ts = id <$> ts.
Proof.
  intros H Hid. rewrite list_fmap_insert, Hid.
  apply list_insert_id. by rewrite list_lookup_fmap, H.
Qed.

Lemma tasksOf_checkPlanCompletion m :
  tasksOf (checkPlanCompletion m) = tasksOf m.
Proof.
  unfold checkPlanCompletion, tasksOf. destruct (plan m) as [p|] eqn:Hp.
  - destruct (forallb _ _); [done|]. destruct (_ && _); [done|]. by rewrite Hp.
  - by rewrite Hp.
Qed.

Lemma findTask_at (ts : list Task) i t :
  NoDup (id <$> ts) → ts !! i = Some t → findTask (id t) ts = Some (i, t).
Proof.
  intros Hnd Hi.
  destruct (findTask_unique ts t Hnd) as [j Hj].
  { apply list_elem_of_lookup. eauto. }
  pose proof Hj as (Hj' & _)%findTask_Some.
  assert (j = i) as ->; [|done].
  apply (NoDup_lookup (id <$> ts) j i (id t) Hnd);
    rewrite list_lookup_fmap; [by rewrite Hj' | by rewrite Hi].
Qed.

Lemma getNextTask_Some m i m1 :
  getNextTask m = (Some i, m1) →
  ∃ p t, plan m = Some p ∧ m1 = set_plan (Some (set_currentTaskIndex i p)) m ∧
         tasks p !! i = Some t ∧ status t = pending.
Proof.
  unfold getNextTask. destruct (plan m) as [p|] eqn:Hp; [|done].
  pose proof (getNextTask_loop_spec p _ (currentTaskIndex p) eq_refl) as Hloop.
  destruct (getNextTask_loop p _ _) as [k|]; [|done].
  intros [= <- <-]. destruct Hloop as (_ & (t & Ht & Hr) & _).
  exists p, t. split_and!; try done.
  unfold runnable in Hr. apply andb_true_iff in Hr as [Hr _].
  by apply bool_decide_eq_true in Hr.
Qed.

Lemma iteration_progress st st' :
  uniqueIds (planManager st) →
  iteration ex st = (st', Continue) →
  uniqueIds (planManager st') ∧ work (planManager st') < work (planManager st).
Proof.
  intros Hnd Hit.
  apply iteration_Continue in Hit as (i & m1 & task0 & task & result & Hnext & Ht0 & Htask & Hm').
  apply getNextTask_Some in Hnext as (p & t & Hp & -> & Hi & Hpending).
  unfold taskAt in Ht0. simpl in Ht0. assert (task0 = t) as -> by congruence.
  assert (tasksOf (planManager st) = tasks p) as Hts by (unfold tasksOf; by rewrite Hp).
  unfold uniqueIds, work in *. rewrite Hts in *.
  pose proof (findTask_at _ _ _ Hnd Hi) as Hf.
  set (t1 := set_attempts (S (attempts t)) (set_status in_progress t)) in *.
  rewrite (markTaskInProgress_found
             (set_plan (Some (set_currentTaskIndex i p)) (planManager st))
             (set_currentTaskIndex i p) (id t) i t eq_refl Hf)
    in Htask, Hm'.
  change (tasks (set_currentTaskIndex i p)) with (tasks p) in Htask, Hm'.
  unfold taskAt in Htask. simpl in Htask.
  rewrite list_lookup_insert_eq in Htask by (by eapply lookup_lt_Some).
  simpl in Htask. subst task. fold t1 in Hm'.
  set (p3 := set_tasks (<[i := t1]> (tasks p)) (set_currentTaskIndex i p)) in *.
  assert (findTask (id t1) (tasks p3) = Some (i, t1)) as Hf3.
  { by apply (findTask_insert _ _ _ t). }
  assert (remainingRuns t = S (maxAttempts t - attempts t)) as Hrt.
  { unfold remainingRuns. by rewrite decide_True. }
  assert (∃ tf, tasksOf (planManager st') = <[i := tf]> (<[i := t1]> (tasks p)) ∧
                id tf = id t ∧ remainingRuns tf < remainingRuns t)
    as (tf & -> & Hid & Hlt).
  { rewrite Hm'. destruct (success result).
    - exists (set_error None (set_status completed t1)).
      unfold markTaskCompleted. rewrite tasksOf_checkPlanCompletion.
      unfold tasksOf. cbn [plan set_plan]. unfold updateTask. rewrite Hf3.
      apply findTask_Some in Hf3 as (Hi3 & _). rewrite (alter_found _ _ _ _ Hi3).
      split; [done|]. split; [done|]. rewrite Hrt. unfold remainingRuns. simpl. lia.
    - erewrite markTaskFailed_found; [|reflexivity|exact Hf3].
      simpl. destruct (Nat.leb_spec (maxAttempts t) (S (attempts t))).
      + exists (set_status failed (set_error (Some (output result)) t1)).
        split; [by destruct (stopOnFirstFailure _)|]. split; [done|].
        rewrite Hrt. unfold remainingRuns. simpl. lia.
      + exists (set_status pending (set_error (Some (output result)) t1)).
        split; [done|]. split; [done|].
        rewrite Hrt. unfold remainingRuns. simpl. lia. }
  rewrite list_insert_insert_eq. rewrite (ids_insert _ _ t) by done.
  split; [done|].
  pose proof (sum_list_insert remainingRuns _ i t tf Hi). lia.
Qed.

Lemma loop_terminates fuel : ∀ st,
  uniqueIds (planManager st) → work (planManager st) < fuel →
  ∃ st', loop ex fuel st = Some st'.
Proof.
  induction fuel as [|fuel IH]; intros st Hnd Hw; [lia|].
  simpl. destruct (iteration ex st) as [st1 [|]] eqn:Hit; [|by eexists].
  destruct (iteration_progress _ _ Hnd Hit) as [Hnd1 Hlt].
  apply IH; [done | lia].
Qed.

Lemma isApproved_iff m :
  isApproved m = true ↔
  ∃ p, plan m = Some p ∧
       (plan_status p = plan_approved ∨ plan_status p = plan_in_progress).
Proof.
  unfold isApproved. destruct (plan m) as [p|].
  - rewrite orb_true_iff, !bool_decide_eq_true. split; [eauto|].
    by intros (? & [= <-] & ?).
  - split; [done|]. by intros (? & ? & _).
Qed.

Lemma prepare_in_progress st :
  isApproved (planManager st) = true →
  ∃ p, plan (planManager st) = Some p ∧
       planManager (prepare st) = set_plan (Some (set_plan_status plan_in_progress p))
                                    (planManager st).
Proof.
  intros (p & Hp & Hs)%isApproved_iff. exists p. split; [done|].
  unfold prepare. simpl. unfold startExecution. rewrite Hp.
  destruct Hs as [Hs|Hs]; rewrite Hs; simpl; [done|].
  destruct (planManager st) as [pl cf pd]. simpl in *. subst pl.
  destruct p. simpl in *. by subst.
Qed.

(** C8, as amended. [execute] throws exactly when [isApproved] is
    false, that is, unless there is a plan in status approved or
    in_progress. Otherwise the loop starts from a state whose plan is
    in_progress; whenever [execute] returns, it returns a boolean that
    is true exactly when the plan is then in status completed; and for a
    plan with unique task ids some number of turns is enough for it to
    return. *)
Theorem execute_contract st :
  (isApproved (planManager st) = true ↔
   ∃ p, plan (planManager st) = Some p ∧
        (plan_status p = plan_approved ∨ plan_status p = plan_in_progress)) ∧
  (isApproved (planManager st) = false →
   ∀ fuel, execute ex fuel st
           = Some (st, Thrown (str "Plan must be approved before execution"))) ∧
  (isApproved (planManager st) = true →
   (∃ p, plan (planManager (prepare st)) = Some p ∧ plan_status p = plan_in_progress) ∧
   (∀ fuel, execute ex fuel st
            = match loop ex fuel (prepare st) with
              | Some st' => Some (finish ex st')
              | None => None
              end) ∧
   (∀ fuel st' r,
      execute ex fuel st = Some (st', r) →
      ∃ b, r = Returned b ∧
           (b = true ↔
            ∃ p, plan (planManager st') = Some p ∧ plan_status p = plan_completed)) ∧
   (uniqueIds (planManager st) →
    ∃ fuel st' b, execute ex fuel st = Some (st', Returned b))).
Proof.
  split; [apply isApproved_iff|]. split.
  - intros H fuel. unfold execute. by rewrite H.
  - intros H. split_and!.
    + destruct (prepare_in_progress st H) as (p & Hp & ->). by eexists.
    + intros fuel. unfold execute. by rewrite H.
    + intros fuel st' r. unfold execute. rewrite H. simpl.
      destruct (loop ex fuel (prepare st)) as [st1|]; [|done].
      unfold finish. intros [= <- <-]. eexists. split; [done|].
      rewrite keepsPlan_notify. simpl.
      destruct (plan (planManager st1)) as [p|].
      * rewrite bool_decide_eq_true. split; [eauto|]. by intros (? & [= <-] & ?).
      * split; [done|]. by intros (? & ? & _).
    + intros Hnd. unfold execute. rewrite H. simpl.
      destruct (loop_terminates (S (work (planManager (prepare st)))) (prepare st))
        as [st1 Hl]; [|lia|].
      { destruct (prepare_in_progress st H) as (p & Hp & Hprep).
        unfold uniqueIds, tasksOf in *. rewrite Hprep. simpl. by rewrite Hp in Hnd. }
      exists (S (work (planManager (prepare st)))). rewrite Hl.
      unfold finish. by eexists _, _.
Qed.

End ExecutorProperties.

(** ** String primitives *)

Section StringProperties.
Import JS.

Implicit Types (s w a b : jsstring) (c : ascii).

Lemma startsWith_prefix s w : startsWith s w = true ↔ ∃ r, s = w ++ r.
Proof.
  revert s. induction w as [|x w IH]; intros s; simpl.
  - split; [intros _; by exists s | done].
  - destruct s as [|y s]; [split; [done|by intros [? ?]]|].
    rewrite andb_true_iff, bool_decide_eq_true, IH. split.
    + intros [-> [r ->]]. by exists r.
    + intros [r [= -> ->]]. eauto.
Qed.

Lemma startsWith_app w r : startsWith (w ++ r) w = true.
Proof. apply startsWith_prefix. eauto. Qed.

(** [indexOf] returns the first position at which [w] occurs. *)
Lemma indexOf_from_Some s w : ∀ i0 i,
  indexOf_from s w i0 = Some i →
  ∃ a b, s = a ++ w ++ b ∧ i = i0 + length a ∧
         ∀ a' b', s = a' ++ w ++ b' → length a ≤ length a'.
Proof.
  induction s as [|c s IH]; intros i0 i; simpl.
  - destruct (startsWith [] w) eqn:E; [|done]. intros [= <-].
    apply startsWith_prefix in E as [r E]. exists [], r. split; [done|].
    split; [simpl; lia|]. intros; simpl; lia.
  - destruct (startsWith (c :: s) w) eqn:E.
    + intros [= <-]. apply startsWith_prefix in E as [r E]. exists [], r.
      split; [done|]. split; [simpl; lia|]. intros; simpl; lia.
    + intros H. apply IH in H as (a & b & -> & -> & Hmin).
      exists (c :: a), b. split; [done|]. split; [simpl; lia|].
      intros [|c' a'] b' Heq.
      * simpl in Heq. rewrite Heq, startsWith_app in E. done.
      * injection Heq as -> Heq. simpl. apply Hmin in Heq. lia.
Qed.

Lemma indexOf_from_None s w : ∀ i0,
  indexOf_from s w i0 = None → ∀ a b, s ≠ a ++ w ++ b.
Proof.
  induction s as [|c s IH]; intros i0; simpl.
  - destruct (startsWith [] w) eqn:E; [done|]. intros _ a b Heq.
    destruct a; [|done]. simpl in Heq. by rewrite Heq, startsWith_app in E.
  - destruct (startsWith (c :: s) w) eqn:E; [done|]. intros H [|c' a] b Heq.
    + simpl in Heq. by rewrite Heq, startsWith_app in E.
    + injection Heq as -> Heq. by eapply IH.
Qed.

(** [replace] with a string pattern and the empty replacement removes
    the first occurrence, and nothing when there is none. *)
Lemma replaceString_excises s w :
  ((∀ a b, s ≠ a ++ w ++ b) ∧ replaceString s w [] = s) ∨
  ∃ a b, s = a ++ w ++ b ∧ replaceString s w [] = a ++ b ∧
         ∀ a' b', s = a' ++ w ++ b' → length a ≤ length a'.
Proof.
  unfold replaceString, indexOf. destruct (indexOf_from s w 0) as [i|] eqn:E.
  - right. apply indexOf_from_Some in E as (a & b & -> & -> & Hmin).
    exists a, b. split; [done|]. split; [|done]. simpl.
    rewrite take_app_length. f_equal.
    by rewrite app_assoc, <- length_app, drop_app_length.
  - left. split; [|done]. by eapply indexOf_from_None.
Qed.



(** *** White space and [trim] *)

Lemma trimStart_split s :
  ∃ w, s = w ++ trimStart s ∧ allSpace w ∧ noSpaceAhead (trimStart s).
Proof.
  induction s as [|c s (w & Hs & Hw & Hn)].
  { exists []. split; [done|]. split; [constructor|done]. }
  simpl. destruct (isWhiteSpace c) eqn:Hc.
  - exists (c :: w). split; [by rewrite Hs at 1|]. split; [by constructor|done].
  - exists []. split; [done|]. split; [constructor|done].
Qed.

Lemma trimStart_app w s : allSpace w → trimStart (w ++ s) = trimStart s.
Proof. induction 1 as [|c w Hc _ IH]; [done|]. simpl. by rewrite Hc. Qed.

Lemma trimStart_id s : noSpaceAhead s → trimStart s = s.
Proof. destruct s as [|c s]; [done|]. simpl. by intros ->. Qed.

Lemma trimEnd_split s :
  ∃ w, s = trimEnd s ++ w ∧ allSpace w ∧ noSpaceAhead (rev (trimEnd s)).
Proof.
  destruct (trimStart_split (rev s)) as (w & Hs & Hw & Hn).
  exists (rev w). unfold trimEnd. split_and!.
  - rewrite <- rev_app_distr, <- Hs. by rewrite rev_involutive.
  - by apply Forall_rev.
  - by rewrite rev_involutive.
Qed.

Lemma trimEnd_app s w : allSpace w → trimEnd (s ++ w) = trimEnd s.
Proof.
  intros Hw. unfold trimEnd. rewrite rev_app_distr, trimStart_app; [done|].
  by apply Forall_rev.
Qed.

Lemma trimEnd_id s : noSpaceAhead (rev s) → trimEnd s = s.
Proof. intros H. unfold trimEnd. by rewrite trimStart_id, rev_involutive. Qed.

Lemma trim_split s :
  ∃ w1 w2, s = w1 ++ trim s ++ w2 ∧ allSpace w1 ∧ allSpace w2 ∧
           noSpaceAhead (trim s) ∧ noSpaceAhead (rev (trim s)).
Proof.
  destruct (trimStart_split s) as (w1 & Hs & Hw1 & Hn1).
  destruct (trimEnd_split (trimStart s)) as (w2 & Ht & Hw2 & Hn2).
  exists w1, w2. unfold trim. split_and!; try done.
  - by rewrite <- Ht.
  - rewrite Ht in Hn1. by destruct (trimEnd (trimStart s)).
Qed.

Lemma trim_idem s : trim (trim s) = trim s.
Proof.
  destruct (trim_split s) as (_ & _ & _ & _ & _ & Hn1 & Hn2).
  unfold trim at 1. by rewrite trimStart_id, trimEnd_id.
Qed.

Lemma trim_nil : trim [] = [].
Proof. done. Qed.

End StringProperties.

(** ** The matcher *)

Section MatcherProperties.
Import JS Regex.
Context {R : Type}.

Implicit Types (s t u w : jsstring) (cap : option jsstring) (k : cont (R := R)).
Implicit Types (K : jsstring → option R).

Lemma rmatch_Lit w s cap k : rmatch (Lit w) (w ++ s) cap k = k s cap.
Proof. simpl. by rewrite startsWith_app, drop_app_length. Qed.

Lemma rmatch_Seq r1 r2 s cap k :
  rmatch (Seq r1 r2) s cap k = rmatch r1 s cap (λ s' cap', rmatch r2 s' cap' k).
Proof. done. Qed.

Lemma rmatch_Star greedy r s cap k :
  rmatch (Star greedy r) s cap k = starLoop (rmatch r) greedy k (S (length s)) s cap.
Proof. done. Qed.

Lemma rmatch_Group r s cap k :
  rmatch (Group r) s cap k
  = rmatch r s cap (λ s' _, k s' (Some (take (length s - length s') s))).
Proof. done. Qed.


Lemma starLoop_greedy_class (p : ascii → bool) w : ∀ s cap k fuel,
  Forall (λ c, p c = true) w →
  match s with [] => True | c :: _ => p c = false end →
  length (w ++ s) < fuel →
  starLoop (rmatch (Class p)) true k fuel (w ++ s) cap
  = backtrack (λ t, k t cap) w s.
Proof.
  induction w as [|c w IH]; intros s cap k fuel Hw Hs Hfuel.
  - destruct fuel as [|fuel]; [simpl in Hfuel; lia|]. simpl.
    destruct s as [|c s]; [done|]. by rewrite Hs.
  - destruct fuel as [|fuel]; [simpl in Hfuel; lia|].
    apply Forall_cons in Hw as [Hc Hw]. simpl. rewrite Hc.
    destruct (Nat.ltb_spec (length (w ++ s)) (S (length (w ++ s)))); [|lia].
    rewrite IH; [done..|]. simpl in Hfuel. lia.
Qed.

Lemma backtrack_Some K w s x : K s = Some x → backtrack K w s = Some x.
Proof. intros H. induction w as [|c w IH]; simpl; [done|]. by rewrite IH. Qed.


Lemma starLoop_lazy_any s : ∀ cap k fuel,
  length s < fuel →
  starLoop (rmatch (Class anyChar)) false k fuel s cap
  = firstSuffix (λ t, k t cap) s.
Proof.
  induction s as [|c s IH]; intros cap k fuel Hfuel;
    (destruct fuel as [|fuel]; [simpl in Hfuel; lia|]); simpl; [done|].
  destruct (Nat.ltb_spec (length s) (S (length s))); [|lia].
  rewrite IH; [done|]. simpl in Hfuel. lia.
Qed.

Lemma firstSuffix_skip K u s :
  (∀ j, j < length u → K (drop j (u ++ s)) = None) →
  firstSuffix K (u ++ s) = firstSuffix K s.
Proof.
  induction u as [|c u IH]; intros H; [done|].
  pose proof (H 0 ltac:(simpl; lia)) as H0. simpl in H0.
  simpl. rewrite H0. simpl.
  apply IH. intros j Hj. apply (H (S j)). simpl. lia.
Qed.

Lemma firstSuffix_Some K s x : K s = Some x → firstSuffix K s = Some x.
Proof. intros H. destruct s; simpl; by rewrite H. Qed.

End MatcherProperties.

(** ** The tool-call extractor *)

Section BraceCounter.
Import Parser.


Lemma findJsonEnd_complete s : ∀ i d k,
  (1 ≤ d)%Z → 1 ≤ k ≤ length s →
  (d + braceDepth (take k s) = 0)%Z →
  (∀ j, j < k → (1 ≤ d + braceDepth (take j s))%Z) →
  findJsonEnd s i d = Some (i + k).
Proof.
  induction s as [|c s IH]; intros i d k Hd Hk Hz Hpos; simpl in *; [lia|].
  destruct k as [|k]; [lia|]. simpl in Hz.
  assert (k = 0 ∨ 1 ≤ k ≤ length s) as [-> | Hk'] by lia.
  - simpl in Hz. unfold braceDelta in Hz.
    repeat case_bool_decide; try lia.
    destruct (Z.eqb_spec (d - 1) 0); [|lia]. f_equal. lia.
  - assert (1 ≤ d + braceDelta c)%Z as Hd'.
    { specialize (Hpos 1 ltac:(lia)). simpl in Hpos. lia. }
    assert (findJsonEnd s (S i) (d + braceDelta c) = Some (i + S k)) as Hrec.
    { replace (i + S k) with (S i + k) by lia. apply IH; [done|lia|lia|].
      intros j Hj. specialize (Hpos (S j) ltac:(lia)). simpl in Hpos. lia. }
    unfold braceDelta in *. repeat case_bool_decide.
    + done.
    + destruct (Z.eqb_spec (d - 1) 0); [lia|]. by replace (d - 1)%Z with (d + -1)%Z by lia.
    + by replace d with (d + 0)%Z at 1 by lia.
Qed.

End BraceCounter.

Section Extractor.
Import Json Regex Parser.

Implicit Types (response s : jsstring) (acc : ParseResult).

Lemma foldl_fencedStep_toolCalls ms : ∀ acc,
  toolCalls (foldl fencedStep acc ms)
  = toolCalls acc ++ omap (λ m, tryParseToolCall (candidate m)) ms.
Proof.
  induction ms as [|m ms IH]; intros acc; simpl; [by rewrite app_nil_r|].
  rewrite IH. unfold fencedStep.
  destruct (tryParseToolCall (candidate m)); simpl; [|done].
  by rewrite <- app_assoc.
Qed.

Lemma afterFenced_toolCalls response :
  toolCalls (afterFenced response) = taggedCalls response ++ fencedCalls response.
Proof. unfold afterFenced. by rewrite foldl_fencedStep_toolCalls. Qed.


Lemma bareStep_cases response acc toolName :
  bareStep response acc toolName = acc ∨
  ∃ jsonStr parsed,
    bareCandidate response toolName = Some jsonStr ∧
    tryParseToolCall jsonStr = Some parsed ∧
    bareStep response acc toolName =
      {| text := JS.trim (JS.replaceString (text acc) jsonStr []);
         toolCalls := toolCalls acc ++ [parsed] |}.
Proof.
  unfold bareStep. destruct (bareCandidate response toolName) as [jsonStr|]; [|by left].
  destruct (tryParseToolCall jsonStr) as [parsed|] eqn:E; [|by left].
  right. by exists jsonStr, parsed.
Qed.


(** *** A single tagged block *)

Lemma orElse_None_r {A} (x : option A) : orElse x None = x.
Proof. by destruct x. Qed.





Lemma search_here r s i rest cap :
  matchHere r s = Some (rest, cap) →
  search r s i = Some (mkMatch i (take (length s - length rest) s) cap).
Proof. intros H. destruct s; simpl; by rewrite H. Qed.





Lemma foldl_bareStep_none response names : ∀ acc,
  (∀ toolName jsonStr, toolName ∈ names →
     bareCandidate response toolName = Some jsonStr →
     tryParseToolCall jsonStr = None) →
  foldl (bareStep response) acc names = acc.
Proof.
  induction names as [|nm names IH]; intros acc H; [done|]. simpl.
  assert (bareStep response acc nm = acc) as ->.
  { unfold bareStep. destruct (bareCandidate response nm) as [jsonStr|] eqn:E; [|done].
    by rewrite (H nm jsonStr (list_elem_of_here _ _) E). }
  apply IH. intros toolName jsonStr Hin. apply H. by right.
Qed.

Lemma readToolCall_Some parsed call :
  readToolCall parsed = Some call ↔
  ∃ members n,
    parsed = JObject members ∧
    getMember members (str "name") = Some (JString n) ∧ n ≠ [] ∧
    call = callOf members n.
Proof.
  unfold readToolCall, callOf. split.
  - destruct parsed as [|b|lx|x|xs|members]; try done.
    destruct (getMember members (str "name")) as [[|b|lx|n|xs|ms]|] eqn:E; try done.
    destruct n as [|c n]; [done|]. simpl. intros [= <-]. by exists members, (c :: n).
  - intros (members & n & -> & -> & Hn & ->). by destruct n.
Qed.

Lemma tryParseToolCall_Some s call :
  tryParseToolCall s = Some call →
  ∃ s' members n,
    (s' = s ∨ s' = repaired s ∨ s' = truncated s) ∧
    JSON_parse s' = Some (JObject members) ∧
    getMember members (str "name") = Some (JString n) ∧ n ≠ [] ∧
    call = callOf members n.
Proof.
  unfold tryParseToolCall. fold (repaired s). fold (truncated s).
  assert (∀ s', JSON_parse s' ≫= readToolCall = Some call →
            ∃ members n, JSON_parse s' = Some (JObject members) ∧
              getMember members (str "name") = Some (JString n) ∧ n ≠ [] ∧
              call = callOf members n) as Hread.
  { intros s'. destruct (JSON_parse s') as [parsed|]; [|done]. simpl.
    intros (members & n & -> & ? & ? & ?)%readToolCall_Some. by exists members, n. }
  destruct (JSON_parse s ≫= readToolCall) as [c1|] eqn:E1.
  { intros [= ->]. apply Hread in E1 as (members & n & ?). exists s, members, n. tauto. }
  destruct (JSON_parse (repaired s) ≫= readToolCall) as [c2|] eqn:E2.
  { intros [= ->]. apply Hread in E2 as (members & n & ?).
    exists (repaired s), members, n. tauto. }
  intros E3. apply Hread in E3 as (members & n & ?).
  exists (truncated s), members, n. tauto.
Qed.



End Extractor.

(** ** Worked examples *)

Section WorkedExamples.
Import Effect Planning Examples.

Lemma chainPlan_dag : dag chainPlan.
Proof.
  split.
  - apply (bool_decide_unpack _). by vm_compute.
  - exists chainRank. intros t d Ht Hd.
    change (tasks chainPlan) with
      [ mkTask (str "task-1") (str "Add route") (str "Add the health route")
               pending [] None 0 3 None;
        mkTask (str "task-2") (str "Add handler") (str "Answer with ok")
               pending [str "task-1"] None 0 3 None;
        mkTask (str "task-3") (str "Add test") (str "Test the endpoint")
               pending [str "task-2"] None 0 3 None ] in *.
    repeat (apply elem_of_cons in Ht as [-> | Ht]); simpl in Hd;
      repeat (apply elem_of_cons in Hd as [-> | Hd]);
      try (by apply not_elem_of_nil in Hd); try (by apply not_elem_of_nil in Ht);
      (split; [apply (bool_decide_unpack _); by vm_compute | vm_compute; lia]).
Defined.

(** The first task of the chain is returned, then returned again. *)
Lemma getNextTask_first_eligible_witness :
  plan chainManager = Some chainPlan ∧ dag chainPlan ∧
  ∃ m', getNextTask chainManager = (Some 0, m') ∧ getNextTask m' = (Some 0, m').
Proof.
  split; [reflexivity|]. split; [exact chainPlan_dag|].
  pose proof (getNextTask_first_eligible chainManager chainPlan eq_refl chainPlan_dag) as H.
  destruct (getNextTask chainManager) as [[i|] m'] eqn:E.
  - destruct H as (_ & _ & _ & _ & Hagain).
    assert (i = 0) as -> by (vm_compute in E; congruence).
    by exists m'.
  - vm_compute in E. discriminate E.
Defined.

(** Three failed runs of the first task with [maxAttempts = 3]. *)
Lemma task_retry_bound_witness :
  plan chainManager = Some chainPlan ∧
  (∃ t, findTask (str "task-1") (tasks chainPlan) = Some (0, t) ∧
        attempts t = 0 ∧ maxAttempts t = 3) ∧
  ∃ t', taskAt (foldl (λ m e, failedRun (str "task-1") e m) chainManager
                  [str "e1"; str "e2"; str "e3"]) 0 = Some t' ∧
        status t' = failed ∧ attempts t' = 3.
Proof.
  split; [reflexivity|].
  set (t := mkTask (str "task-1") (str "Add route") (str "Add the health route")
                   pending [] None 0 3 None).
  assert (findTask (str "task-1") (tasks chainPlan) = Some (0, t)) as Hf
    by (by vm_compute).
  split; [by exists t|].
  pose proof (task_retry_bound chainManager chainPlan (str "task-1") (str "e1") 0 t
                eq_refl Hf) as (_ & _ & _ & Hruns).
  destruct (Hruns [str "e1"; str "e2"; str "e3"] eq_refl ltac:(done)) as (_ & Hmax).
  destruct (Hmax eq_refl) as [(t' & Ht' & Hs & Ha) _].
  by exists t'.
Defined.




(** C8, as stated, fails: the plan is in progress, not approved, and
    [execute] does not fail; it runs the pending task and returns
    true. *)
Lemma execute_accepts_plan_in_progress :
  (∃ p, plan (Executor.planManager runningState) = Some p ∧
        plan_status p = plan_in_progress ∧ plan_status p ≠ plan_approved) ∧
  ∃ st', Executor.execute plainExecutor 2 runningState = Some (st', Returned true).
Proof.
  split.
  - exists runningPlan. by split_and!.
  - eexists. by vm_compute.
Qed.

(** Twenty turns that all ask for an unregistered tool. *)
Lemma busy_askingAgent : busy askingAgent.
Proof.
  split.
  - intros msgs w. exists w, (tagged bashBody). split; [done|]. by vm_compute.
  - intros tool params dir w Hin. by apply not_elem_of_nil in Hin.
Defined.

(** A fresh plan is a draft, and is approved. *)
Lemma plan_status_monotone_witness :
  plan chainManager = Some chainPlan ∧ plan_status chainPlan = plan_draft ∧
  approvePlan chainManager
    = (true, set_plan (Some (set_plan_status plan_approved chainPlan)) chainManager).
Proof.
  split; [reflexivity|]. split; [reflexivity|].
  destruct (plan_status_monotone chainManager) as (_ & _ & H & _).
  exact (H chainPlan eq_refl eq_refl).
Defined.


(** An unregistered tool, then a tool that refuses: two failure blocks. *)
Lemma tool_failures_do_not_abort_witness :
  Agent.getToolByName (Agent.tools refusingAgent) (Parser.name globCall) = None ∧
  Agent.getToolByName (Agent.tools refusingAgent) (Parser.name bashCall)
    = Some refusingTool ∧
  Agent.runToolCalls refusingAgent [globCall; bashCall] [] agentState =
    (agentState,
     Returned
       [ Parser.formatToolResult (str "glob") false [] (Some (str "Unknown tool: glob"));
         Parser.formatToolResult (str "bash") false [] (Some (str "Permission denied")) ]).
Proof.
  assert (Agent.getToolByName (Agent.tools refusingAgent) (Parser.name globCall) = None)
    as H1 by (by vm_compute).
  assert (Agent.getToolByName (Agent.tools refusingAgent) (Parser.name bashCall)
            = Some refusingTool) as H2 by (by vm_compute).
  split; [exact H1|]. split; [exact H2|].
  destruct (tool_failures_do_not_abort refusingAgent (λ _, str "You are OpenCoder."))
    as (Hunknown & Hrefused & _).
  rewrite (Hunknown globCall [bashCall] [] agentState H1).
  rewrite (Hrefused bashCall [] _ agentState refusingTool tt
             (Agent.mkToolResult false [] (Some (str "Permission denied")))
             H2 eq_refl eq_refl).
  reflexivity.
Defined.

(** The build fails: the test command is not handed to the shell. *)
Lemma verifier_reports_failures_witness :
  build buildAndTest = Some (str "npm run build") ∧
  JS.truthy (str "npm run build") = true ∧
  ∃ result,
    Verifier.verifyAll (logged failingShell) projVerifier buildAndTest (tt, [])
      = ((tt, [str "npm run build"]), Returned (false, [result])) ∧
    Verifier.success result = false ∧ Verifier.command result = str "npm run build".
Proof.
  split; [reflexivity|]. split; [reflexivity|].
  destruct (verifier_reports_failures failingShell projVerifier) as (_ & _ & H).
  exact (H buildAndTest tt [] (str "npm run build") tt []
           None (Some (str "error TS2304")) (Some 2%Z) false (str "Command failed")
           eq_refl eq_refl eq_refl eq_refl).
Defined.

(** The plan in progress with one task is executed to its end. *)
Lemma execute_contract_witness :
  isApproved (Executor.planManager runningState) = true ∧
  uniqueIds (Executor.planManager runningState) ∧
  ∃ fuel st' b, Executor.execute plainExecutor fuel runningState = Some (st', Returned b).
Proof.
  assert (isApproved (Executor.planManager runningState) = true) as H1 by reflexivity.
  assert (uniqueIds (Executor.planManager runningState)) as H2
    by (apply (bool_decide_unpack _); by vm_compute).
  split; [exact H1|]. split; [exact H2|].
  destruct (execute_contract plainExecutor runningState) as (_ & _ & H).
  destruct (H H1) as (_ & _ & _ & Hend).
  exact (Hend H2).
Defined.

(** Twenty completions that all ask for a tool: twenty calls. *)
Lemma run_iteration_bound_witness :
  busy askingAgent ∧
  chats (Agent.run (counting askingAgent) (λ _, str "You are OpenCoder.")
           (str "list the files") countedState).1 = 20.
Proof.
  split; [exact busy_askingAgent|].
  destruct (run_iteration_bound askingAgent (λ _, str "You are OpenCoder."))
    as (_ & _ & _ & _ & _ & H).
  exact (proj1 (H busy_askingAgent (str "list the files") countedState)).
Defined.


End WorkedExamples.

(** * Further properties *)

(** ** The plan manager *)
Section PlanManagerMore.
Import Planning.
Implicit Types (m : PlanManager) (p : Plan) (t u : Task).
Implicit Types (ts : list Task) (i j k n : nat) (taskId err : jsstring).

Lemma nat_of_digit d : d < 10 → nat_of_ascii (digit d) - 48 = d.
Proof.
  intros Hd. unfold digit. rewrite nat_ascii_embedding by lia. lia.
Qed.

Lemma decimal_loop_value fuel : ∀ n acc,
  n < fuel →
  ∃ ds, decimal_loop fuel n acc = ds ++ acc ∧ numeralValue ds = n.
Proof.
  induction fuel as [|fuel IH]; intros n acc Hn; [lia|].
  cbn [decimal_loop].
  destruct (n / 10 =? 0) eqn:E.
  - apply Nat.eqb_eq in E. exists [digit (n mod 10)]. split; [done|].
    unfold numeralValue. cbn [fold_left]. rewrite nat_of_digit
      by (apply Nat.mod_upper_bound; lia).
    pose proof (Nat.div_mod_eq n 10). lia.
  - apply Nat.eqb_neq in E.
    assert (n / 10 < fuel) as Hlt.
    { pose proof (Nat.div_mod_eq n 10). pose proof (Nat.mod_upper_bound n 10). lia. }
    destruct (IH (n / 10) (digit (n mod 10) :: acc) Hlt) as (ds & -> & Hv).
    exists (ds ++ [digit (n mod 10)]). split; [by rewrite <- app_assoc|].
    unfold numeralValue in *. rewrite fold_left_app. cbn [fold_left]. rewrite Hv.
    rewrite nat_of_digit by (apply Nat.mod_upper_bound; lia).
    pose proof (Nat.div_mod_eq n 10). lia.
Qed.

Lemma decimal_value n : numeralValue (decimal n) = n.
Proof.
  unfold decimal.
  destruct (decimal_loop_value (S n) n [] ltac:(lia)) as (ds & -> & Hv).
  by rewrite app_nil_r.
Qed.

Lemma decimal_inj n n' : decimal n = decimal n' → n = n'.
Proof.
  intros H. rewrite <- (decimal_value n), <- (decimal_value n'). by rewrite H.
Qed.


(** X1. [createPlan] installs a draft whose cursor is at the first
    task; the tasks are those of the input in their order, named
    [task-1], [task-2], ... by their position, all pending, never
    attempted, with the attempt bound of the configuration; the ids are
    pairwise distinct; the plan is not approved, and [approvePlan]
    accepts it. *)
Theorem createPlan_installs_fresh_draft uuid8 now dir goal summary
    (inputs : list TaskInput) m :
  let p := (createPlan uuid8 now dir goal summary inputs m).1 in
  let m' := (createPlan uuid8 now dir goal summary inputs m).2 in
  plan m' = Some p ∧ config m' = config m ∧ planDir m' = planDir m ∧
  plan_status p = plan_draft ∧ currentTaskIndex p = 0 ∧
  length (tasks p) = length inputs ∧
  (∀ i t, tasks p !! i = Some t →
     id t = str "task-" ++ decimal (i + 1) ∧ status t = pending ∧
     attempts t = 0 ∧ maxAttempts t = maxTaskAttempts (config m) ∧
     ∃ x, inputs !! i = Some x ∧ title t = in_title x ∧
          description t = in_description x ∧ dependencies t = in_dependencies x) ∧
  NoDup (id <$> tasks p) ∧
  isApproved m' = false ∧
  (approvePlan m').1 = true.
Proof.
  cbv zeta. unfold createPlan. cbn [fst snd plan config planDir set_plan plan_status
    currentTaskIndex tasks].
  assert (∀ i t,
    imap (λ i x,
      {| id := str "task-" ++ decimal (i + 1); title := in_title x;
         description := in_description x; status := pending;
         dependencies := in_dependencies x; verifyCommand := in_verifyCommand x;
         attempts := 0; maxAttempts := maxTaskAttempts (config m);
         error := in_error x |}) inputs !! i = Some t →
    id t = str "task-" ++ decimal (i + 1) ∧ status t = pending ∧
    attempts t = 0 ∧ maxAttempts t = maxTaskAttempts (config m) ∧
    ∃ x, inputs !! i = Some x ∧ title t = in_title x ∧
         description t = in_description x ∧ dependencies t = in_dependencies x) as Hlook.
  { intros i t. rewrite list_lookup_imap.
    destruct (inputs !! i) as [x|] eqn:E; [|done]. simpl. intros [= <-]. simpl.
    split_and!; try done. by exists x. }
  split_and!; try done.
  - by rewrite length_imap.
  - apply NoDup_alt. intros i j x Hi Hj.
    rewrite list_lookup_fmap in Hi, Hj.
    destruct (imap _ inputs !! i) as [t|] eqn:Ei; [|done].
    destruct (imap _ inputs !! j) as [u|] eqn:Ej; [|done].
    simpl in Hi, Hj. injection Hi as Hi. injection Hj as Hj.
    apply Hlook in Ei as (Hti & _). apply Hlook in Ej as (Huj & _).
    rewrite Hti in Hi. rewrite Huj in Hj. rewrite <- Hj in Hi.
    apply app_inv_head in Hi. apply decimal_inj in Hi. lia.
Qed.

(** ** The cursor and the shape of the task list *)

Lemma updateTask_shape taskId (f : Task → Task) p :
  (∀ t, id (f t) = id t) →
  id <$> tasks (updateTask taskId f p) = id <$> tasks p ∧
  currentTaskIndex (updateTask taskId f p) = currentTaskIndex p.
Proof.
  intros Hf. unfold updateTask.
  destruct (findTask taskId (tasks p)) as [[i t]|] eqn:E; [|done].
  simpl. split; [|done].
  apply list_eq. intros j. rewrite !list_lookup_fmap.
  destruct (decide (j = i)) as [->|Hne].
  - rewrite list_lookup_alter_eq. destruct (tasks p !! i) as [u|]; [|done].
    simpl. by rewrite Hf.
  - by rewrite list_lookup_alter_ne by done.
Qed.

Lemma insert_shape ts i t t' :
  ts !! i = Some t → id t' = id t → id <$> <[i := t']> ts = id <$> ts.
Proof.
  intros Hi Hid. apply list_eq. intros j. rewrite !list_lookup_fmap.
  destruct (decide (j = i)) as [->|Hne].
  - rewrite list_lookup_insert_eq by (by eapply lookup_lt_Some).
    rewrite Hi. simpl. by rewrite Hid.
  - by rewrite list_lookup_insert_ne by done.
Qed.

Lemma checkPlanCompletion_shape m p :
  plan m = Some p →
  ∃ p', plan (checkPlanCompletion m) = Some p' ∧ tasks p' = tasks p ∧
        currentTaskIndex p' = currentTaskIndex p.
Proof.
  intros Hp. unfold checkPlanCompletion. rewrite Hp.
  repeat case_match; eauto.
Qed.

Lemma getNextTask_from_cursor m p i m' :
  plan m = Some p → getNextTask m = (Some i, m') →
  currentTaskIndex p ≤ i ∧ m' = set_plan (Some (set_currentTaskIndex i p)) m ∧
  ∃ t, tasks p !! i = Some t ∧ status t = pending.
Proof.
  intros Hp. unfold getNextTask. rewrite Hp.
  pose proof (getNextTask_loop_spec p (length (tasks p) - currentTaskIndex p)
                (currentTaskIndex p) eq_refl) as Hspec.
  destruct (getNextTask_loop p _ _) as [k|]; [|done].
  intros [= <- <-]. destruct Hspec as (Hle & (t & Ht & Hr) & _).
  split; [done|]. split; [done|]. exists t. split; [done|].
  unfold runnable in Hr. apply andb_true_iff in Hr as [Hr _].
  by apply bool_decide_eq_true in Hr.
Qed.

Lemma call_shape c m p :
  plan m = Some p →
  ∃ p', plan (call c m) = Some p' ∧ id <$> tasks p' = id <$> tasks p ∧
        currentTaskIndex p ≤ currentTaskIndex p'.
Proof.
  intros Hp. destruct c; simpl.
  - unfold approvePlan. rewrite Hp. case_bool_decide; simpl; eauto.
  - unfold startExecution. rewrite Hp. case_bool_decide; simpl; eauto.
  - destruct (getNextTask m) as [[i|] m'] eqn:E.
    + destruct (getNextTask_from_cursor _ _ _ _ Hp E) as (Hle & -> & _).
      simpl. eauto.
    + unfold getNextTask in E. rewrite Hp in E.
      destruct (getNextTask_loop _ _ _); [done|]. injection E as <-. simpl. eauto.
  - unfold setVerifyCommands. rewrite Hp. simpl. eauto.
  - unfold markTaskInProgress. rewrite Hp. simpl.
    eexists. split; [done|].
    destruct (updateTask_shape taskId
                (λ t, set_attempts (S (attempts t)) (set_status in_progress t)) p)
      as [-> ->]; done.
  - unfold markTaskCompleted. rewrite Hp.
    edestruct (checkPlanCompletion_shape
                 (set_plan (Some (updateTask taskId
                    (λ t, set_error None (set_status completed t)) p)) m))
      as (p' & -> & Ht & Hc); [done|].
    exists p'. split; [done|]. rewrite Ht, Hc.
    destruct (updateTask_shape taskId (λ t, set_error None (set_status completed t)) p)
      as [-> ->]; done.
  - unfold markTaskFailed. rewrite Hp.
    destruct (findTask taskId (tasks p)) as [[i t]|] eqn:E; [|eauto].
    apply findTask_Some in E as (Hi & _ & _).
    repeat case_match; simpl; eexists; (split; [done|]); simpl;
      (split; [by eapply insert_shape|done]).
Qed.

Lemma calls_shape cs : ∀ m p,
  plan m = Some p →
  ∃ p', plan (calls cs m) = Some p' ∧ id <$> tasks p' = id <$> tasks p ∧
        currentTaskIndex p ≤ currentTaskIndex p'.
Proof.
  induction cs as [|c cs IH]; intros m p Hp; [by exists p|].
  destruct (call_shape c m p Hp) as (p1 & Hp1 & Hid1 & Hc1).
  destruct (IH (call c m) p1 Hp1) as (p2 & Hp2 & Hid2 & Hc2).
  exists p2. unfold calls in *. simpl. split; [done|]. split; [congruence|lia].
Qed.

(** X2. Whatever calls are made on a manager that holds a plan, the
    ids of the tasks stay what they were, in their order, and the cursor
    never moves back; a task returned by [getNextTask] is therefore at
    or after the position the cursor had at any earlier time, it is
    pending, and it is the task [getCurrentTask] then returns. *)
Theorem cursor_never_moves_back m p cs :
  plan m = Some p →
  ∃ p', plan (calls cs m) = Some p' ∧
        id <$> tasks p' = id <$> tasks p ∧
        currentTaskIndex p ≤ currentTaskIndex p' ∧
        ∀ i m2, getNextTask (calls cs m) = (Some i, m2) →
          currentTaskIndex p ≤ i ∧
          getCurrentTask m2 = taskAt m2 i ∧
          ∃ t, taskAt m2 i = Some t ∧ status t = pending.
Proof.
  intros Hp. destruct (calls_shape cs m p Hp) as (p' & Hp' & Hid & Hc).
  exists p'. split_and!; try done.
  intros i m2 E.
  destruct (getNextTask_from_cursor _ _ _ _ Hp' E) as (Hle & -> & t & Ht & Hs).
  split; [lia|]. split; [done|]. by exists t.
Qed.


(** ** Completion *)

Lemma forallb_Forall_completed ts :
  forallb (λ t, bool_decide (status t = completed)) ts = true
  ↔ Forall (λ t, status t = completed) ts.
Proof.
  rewrite forallb_forall, Forall_forall. split; intros H t Ht.
  - assert (In t ts) as Hin by (by apply list_elem_of_In).
    apply H in Hin. by apply bool_decide_eq_true in Hin.
  - apply bool_decide_eq_true. apply H. by apply list_elem_of_In.
Qed.

Lemma existsb_Exists_failed ts :
  existsb (λ t, bool_decide (status t = failed)) ts = true
  ↔ Exists (λ t, status t = failed) ts.
Proof.
  rewrite existsb_exists, Exists_exists. split; intros (t & Ht & H); exists t.
  - split; [by apply list_elem_of_In|by apply bool_decide_eq_true in H].
  - split; [by apply list_elem_of_In|by apply bool_decide_eq_true].
Qed.

Lemma markTaskCompleted_plan m p taskId :
  plan m = Some p →
  plan (markTaskCompleted taskId m) =
    Some (let q := updateTask taskId (λ t, set_error None (set_status completed t)) p in
          if forallb (λ t, bool_decide (status t = completed)) (tasks q)
          then set_plan_status plan_completed q
          else if existsb (λ t, bool_decide (status t = failed)) (tasks q)
                  && stopOnFirstFailure (config m)
               then set_plan_status plan_failed q
               else q).
Proof.
  intros Hp. unfold markTaskCompleted. rewrite Hp.
  unfold checkPlanCompletion. cbn [plan set_plan config]. cbv zeta.
  destruct (forallb _ _); [done|]. by destruct (_ && _).
Qed.

Lemma markTaskCompleted_tasks m p taskId i t :
  plan m = Some p → findTask taskId (tasks p) = Some (i, t) →
  ∃ p', plan (markTaskCompleted taskId m) = Some p' ∧
        tasks p' = <[i := set_error None (set_status completed t)]> (tasks p).
Proof.
  intros Hp E. rewrite (markTaskCompleted_plan m p taskId Hp). cbv zeta.
  eexists. split; [done|].
  assert (tasks (updateTask taskId (λ t, set_error None (set_status completed t)) p)
          = <[i := set_error None (set_status completed t)]> (tasks p)) as <-.
  { unfold updateTask. rewrite E. cbn [tasks set_tasks].
    apply (alter_found (λ t, set_error None (set_status completed t))).
    by apply findTask_Some in E as (? & _). }
  destruct (forallb _ _); [done|]. by destruct (_ && _).
Qed.

Lemma length_filter_insert (P : Task → Prop) `{!∀ t, Decision (P t)} ts i t t' :
  ts !! i = Some t →
  length (filter P (<[i := t']> ts)) + (if decide (P t) then 1 else 0)
  = length (filter P ts) + (if decide (P t') then 1 else 0).
Proof.
  intros Hi.
  rewrite insert_take_drop by (by eapply lookup_lt_Some).
  rewrite <- (take_drop_middle ts i t Hi) at 3.
  rewrite !filter_app, !filter_cons, !length_app.
  destruct (decide (P t)), (decide (P t')); simpl; lia.
Qed.

(** X3. [markTaskCompleted] marks the first task carrying the id, if
    there is one, and then settles the plan whether or not a task was
    found: when every task is then completed (also when there is no
    task) the plan becomes completed; otherwise it becomes failed when
    some task is failed and the configuration stops on the first
    failure; otherwise its status stays. *)
Theorem markTaskCompleted_settles_plan m p taskId :
  plan m = Some p →
  ∃ p', plan (markTaskCompleted taskId m) = Some p' ∧
    (∀ i t, findTask taskId (tasks p) = Some (i, t) →
       tasks p' = <[i := set_error None (set_status completed t)]> (tasks p)) ∧
    (findTask taskId (tasks p) = None → tasks p' = tasks p) ∧
    (Forall (λ t, status t = completed) (tasks p') → plan_status p' = plan_completed) ∧
    (¬ Forall (λ t, status t = completed) (tasks p') →
       Exists (λ t, status t = failed) (tasks p') →
       stopOnFirstFailure (config m) = true → plan_status p' = plan_failed) ∧
    (¬ Forall (λ t, status t = completed) (tasks p') →
       (¬ Exists (λ t, status t = failed) (tasks p')
        ∨ stopOnFirstFailure (config m) = false) →
       plan_status p' = plan_status p).
Proof.
  intros Hp. unfold markTaskCompleted. rewrite Hp.
  set (q := updateTask taskId (λ t, set_error None (set_status completed t)) p).
  assert (plan_status q = plan_status p) as Hq.
  { unfold q, updateTask. by destruct (findTask taskId (tasks p)) as [[??]|]. }
  assert (∀ i t, findTask taskId (tasks p) = Some (i, t) →
            tasks q = <[i := set_error None (set_status completed t)]> (tasks p)) as Hfound.
  { intros i t E. unfold q, updateTask. rewrite E. cbn [tasks set_tasks].
    apply (alter_found (λ t, set_error None (set_status completed t))).
    by apply findTask_Some in E as (? & _). }
  assert (findTask taskId (tasks p) = None → tasks q = tasks p) as Hnone.
  { intros E. unfold q, updateTask. by rewrite E. }
  unfold checkPlanCompletion. cbn [plan set_plan config].
  destruct (forallb _ (tasks q)) eqn:Eall.
  - apply forallb_Forall_completed in Eall.
    eexists. split; [done|]. cbn [tasks set_plan_status plan_status].
    split_and!; try done.
  - assert (¬ Forall (λ t, status t = completed) (tasks q)) as Hnot.
    { intros H. apply forallb_Forall_completed in H. congruence. }
    destruct (existsb _ (tasks q)) eqn:Eany; cbn [andb].
    + apply existsb_Exists_failed in Eany.
      destruct (stopOnFirstFailure (config m)) eqn:Estop.
      * eexists. split; [done|]. cbn [tasks set_plan_status plan_status].
        split_and!; try done. intros _ [H|H]; [done|discriminate H].
      * exists q. split_and!; try done.
    + assert (¬ Exists (λ t, status t = failed) (tasks q)) as Hnone'.
      { intros H. apply existsb_Exists_failed in H. congruence. }
      exists q. split_and!; try done.
Qed.

Lemma filter_completed_insert ts i t t' :
  ts !! i = Some t → status t ≠ completed → status t' = completed →
  length (filter (λ t, status t = completed) (<[i := t']> ts))
  = S (length (filter (λ t, status t = completed) ts)).
Proof.
  intros Hi Ht Ht'.
  rewrite insert_take_drop by (by eapply lookup_lt_Some).
  rewrite <- (take_drop_middle ts i t Hi) at 3.
  rewrite !filter_app, !filter_cons.
  destruct (decide (status t' = completed)); [|done].
  destruct (decide (status t = completed)); [done|].
  rewrite !length_app. simpl. lia.
Qed.

Lemma filter_completed_all ts :
  length (filter (λ t, status t = completed) ts) = length ts
  ↔ Forall (λ t, status t = completed) ts.
Proof.
  induction ts as [|t ts IH]; [by split|].
  rewrite filter_cons, Forall_cons.
  pose proof (length_filter (λ t, status t = completed) ts) as Hle.
  destruct (decide (status t = completed)); simpl.
  - rewrite <- IH. split; [intros [= H]; by split|intros [_ ->]; done].
  - split; [lia|tauto].
Qed.

(** X4. [getProgress] is (0, 0) without a plan; with a plan it counts
    the completed tasks and all tasks, so the first is at most the
    second and they are equal exactly when every task is completed;
    [markTaskCompleted] on a task that was not completed adds one to the
    first, and on a completed task changes nothing. *)
Theorem getProgress_counts_completed m :
  (plan m = None → getProgress m = (0, 0)) ∧
  (∀ p, plan m = Some p →
     (getProgress m).2 = length (tasks p) ∧
     (getProgress m).1 ≤ (getProgress m).2 ∧
     ((getProgress m).1 = (getProgress m).2
      ↔ Forall (λ t, status t = completed) (tasks p)) ∧
     (∀ taskId i t,
        findTask taskId (tasks p) = Some (i, t) → status t ≠ completed →
        getProgress (markTaskCompleted taskId m)
        = (S (getProgress m).1, (getProgress m).2)) ∧
     (∀ taskId i t,
        findTask taskId (tasks p) = Some (i, t) → status t = completed →
        getProgress (markTaskCompleted taskId m) = getProgress m)).
Proof.
  split; [intros Hp; unfold getProgress; by rewrite Hp|].
  intros p Hp. unfold getProgress at 1 2 3 4 5. rewrite Hp. cbn [fst snd].
  split; [done|]. split; [apply length_filter|].
  split; [apply filter_completed_all|].
  split.
  - intros taskId i t E Hs.
    destruct (markTaskCompleted_tasks m p taskId i t Hp E) as (p' & Hp' & Hf).
    unfold getProgress. rewrite Hp', Hp, Hf.
    apply findTask_Some in E as (Hi & _).
    rewrite (filter_completed_insert _ _ t) by done.
    by rewrite length_insert.
  - intros taskId i t E Hs.
    destruct (markTaskCompleted_tasks m p taskId i t Hp E) as (p' & Hp' & Hf).
    unfold getProgress. rewrite Hp', Hp, Hf.
    apply findTask_Some in E as (Hi & _).
    rewrite length_insert. f_equal.
    rewrite insert_take_drop by (by eapply lookup_lt_Some).
    rewrite <- (take_drop_middle (tasks p) i t Hi) at 3.
    rewrite !filter_app, !filter_cons. simpl.
    destruct (decide (completed = completed)); [|done].
    destruct (decide (status t = completed)); [|done].
    by rewrite !length_app.
Qed.

(** ** Retries *)

Lemma findTask_insert_ne taskId ts i j t t' u :
  findTask taskId ts = Some (j, u) → ts !! i = Some t → id t' = id t → j ≠ i →
  findTask taskId (<[i := t']> ts) = Some (j, u).
Proof.
  intros E Hi Hid Hne. unfold findTask in *.
  apply list_find_Some in E as (Hj & Hu & Hmin).
  apply list_find_Some. split; [by rewrite list_lookup_insert_ne|].
  split; [done|]. intros k y Hk Hlt.
  destruct (decide (k = i)) as [->|Hki].
  - rewrite list_lookup_insert_eq in Hk by (by eapply lookup_lt_Some).
    injection Hk as <-. rewrite Hid. by apply (Hmin i t).
  - rewrite list_lookup_insert_ne in Hk by done. by apply (Hmin k y).
Qed.

(** X5. A task that fails with attempts left is retried at once: in a
    plan with distinct ids, when [getNextTask] has returned a task and
    its run fails before the last attempt, the next call of
    [getNextTask] returns the same task, pending again, with one attempt
    more and the error recorded. *)
Theorem failed_task_is_retried_next m p i m1 t err :
  plan m = Some p → NoDup (id <$> tasks p) →
  getNextTask m = (Some i, m1) → tasks p !! i = Some t →
  S (attempts t) < maxAttempts t →
  ∃ m2 t',
    getNextTask (failedRun (id t) err m1) = (Some i, m2) ∧
    taskAt m2 i = Some t' ∧
    status t' = pending ∧ attempts t' = S (attempts t) ∧ error t' = Some err.
Proof.
  intros Hp Hnd Hnext Hi Hlt.
  pose proof (getNextTask_from_cursor _ _ _ _ Hp Hnext) as (Hle & -> & _).
  assert (runnable p t = true) as Hrun.
  { unfold getNextTask in Hnext. rewrite Hp in Hnext.
    pose proof (getNextTask_loop_spec p (length (tasks p) - currentTaskIndex p)
                  (currentTaskIndex p) eq_refl) as Hspec.
    destruct (getNextTask_loop p _ _) as [k|]; [|done].
    injection Hnext as -> _. destruct Hspec as (_ & (t0 & Ht0 & Hr) & _).
    congruence. }
  set (p1 := set_currentTaskIndex i p).
  set (m1 := set_plan (Some p1) m).
  assert (findTask (id t) (tasks p1) = Some (i, t)) as Hf by (by apply findTask_at).
  set (t1 := set_attempts (S (attempts t)) (set_status in_progress t)).
  set (t' := set_status pending (set_error (Some err) t1)).
  set (p2 := set_tasks (<[i := t']> (tasks p)) p1).
  assert (failedRun (id t) err m1 = set_plan (Some p2) m) as Hrun2.
  { unfold failedRun.
    rewrite (markTaskInProgress_found m1 p1 (id t) i t eq_refl Hf).
    fold t1.
    erewrite (markTaskFailed_found _ (set_tasks (<[i := t1]> (tasks p1)) p1) (id t) err i t1);
      [|reflexivity|by apply (findTask_insert (id t) (tasks p1) i t t1)].
    assert ((maxAttempts t1 <=? attempts t1) = false) as ->
      by (apply Nat.leb_gt; simpl; lia).
    unfold p2, t'. cbn [tasks set_tasks]. by rewrite list_insert_insert_eq. }
  rewrite Hrun2.
  assert (runnable p2 t' = true) as Hrun'.
  { unfold runnable in *. apply andb_true_iff in Hrun as [Hst Hdeps].
    apply bool_decide_eq_true in Hst.
    apply andb_true_iff. split; [by apply bool_decide_eq_true|].
    unfold depsComplete in *. cbn [dependencies t' t1 set_status set_error set_attempts].
    rewrite forallb_forall in Hdeps. apply forallb_forall. intros d Hd.
    specialize (Hdeps d Hd). unfold depComplete in *.
    destruct (findTask d (tasks p)) as [[j u]|] eqn:E; [|done].
    apply bool_decide_eq_true in Hdeps.
    assert (j ≠ i) as Hne.
    { intros ->. apply findTask_Some in E as (Hj & _). congruence. }
    cbn [tasks p2 set_tasks].
    rewrite (findTask_insert_ne d (tasks p) i j t t' u E Hi eq_refl Hne).
    by apply bool_decide_eq_true. }
  assert (tasks p2 !! i = Some t') as Hi'.
  { cbn [tasks p2 set_tasks]. apply list_lookup_insert_eq. by eapply lookup_lt_Some. }
  exists (set_plan (Some (set_currentTaskIndex i p2)) (set_plan (Some p2) m)), t'.
  split.
  - unfold getNextTask. cbn [plan set_plan].
    change (currentTaskIndex p2) with i.
    by rewrite (getNextTask_loop_again p2 _ i t' Hi' Hrun' eq_refl).
  - split; [exact Hi'|]. done.
Qed.

End PlanManagerMore.

(** ** The conversation *)

Section ContextProperties.
Import Context.
Implicit Types (c : ConversationContext) (ms : list Message) (content : jsstring).

Lemma dialogue_insert_system ms i x content :
  ms !! i = Some x → role x = system →
  filter (λ m, role m ≠ system) (<[i := mkMessage system content]> ms)
  = filter (λ m, role m ≠ system) ms.
Proof.
  intros Hi Hx.
  rewrite insert_take_drop by (by eapply lookup_lt_Some).
  rewrite <- (take_drop_middle ms i x Hi) at 3.
  rewrite !filter_app, !filter_cons. simpl.
  destruct (decide (system ≠ system)); [done|].
  by destruct (decide (role x ≠ system)).
Qed.

Lemma find_system_insert ms i x content :
  list_find (λ m, role m = system) ms = Some (i, x) →
  list_find (λ m, role m = system) (<[i := mkMessage system content]> ms)
  = Some (i, mkMessage system content).
Proof.
  intros E. apply list_find_Some in E as (Hi & Hx & Hmin).
  apply list_find_Some. split_and!.
  - apply list_lookup_insert_eq. by eapply lookup_lt_Some.
  - done.
  - intros j y Hj Hlt. rewrite list_lookup_insert_ne in Hj by lia. by eapply Hmin.
Qed.

Lemma dialogue_addSystemMessage content c :
  dialogue (addSystemMessage content c) = dialogue c.
Proof.
  unfold addSystemMessage, dialogue.
  destruct (list_find (λ m, role m = system) (messages c)) as [[i x]|] eqn:E.
  - apply list_find_Some in E as (Hi & Hx & _). cbn [messages set_messages].
    by apply (dialogue_insert_system _ _ x).
  - cbn [messages set_messages]. rewrite filter_cons. simpl.
    by destruct (decide (system ≠ system)).
Qed.

(** X6. The conversation has one slot for the system prompt:
    [addSystemMessage] overwrites the first system message or, when
    there is none, puts one in front; a second call overwrites the
    first, the other messages are not touched, the first system message
    is then the new one, the conversation grows by one message exactly
    when it had no system message, and [clearContext] after it leaves
    that message alone. *)
Theorem addSystemMessage_fills_one_slot content content' c :
  addSystemMessage content' (addSystemMessage content c) = addSystemMessage content' c ∧
  dialogue (addSystemMessage content c) = dialogue c ∧
  (∃ i, list_find (λ m, role m = system) (messages (addSystemMessage content c))
        = Some (i, mkMessage system content)) ∧
  length (messages (addSystemMessage content c))
    = match list_find (λ m, role m = system) (messages c) with
      | Some _ => length (messages c)
      | None => S (length (messages c))
      end ∧
  clearContext (addSystemMessage content c) = set_messages [mkMessage system content] c.
Proof.
  unfold addSystemMessage, clearContext, dialogue.
  destruct (list_find (λ m, role m = system) (messages c)) as [[i x]|] eqn:E.
  - pose proof (find_system_insert _ _ _ content E) as E'.
    cbn [messages set_messages]. rewrite E'. cbn [messages set_messages].
    pose proof E as (Hi & Hx & _)%list_find_Some.
    split_and!.
    + unfold set_messages. cbn. by rewrite list_insert_insert_eq.
    + by apply (dialogue_insert_system _ _ x).
    + by exists i.
    + by rewrite length_insert.
    + done.
  - cbn [messages set_messages].
    assert (list_find (λ m, role m = system) (mkMessage system content :: messages c)
            = Some (0, mkMessage system content)) as E'.
    { apply list_find_Some. split_and!; [done|done|intros; lia]. }
    rewrite E'. split_and!.
    + done.
    + rewrite filter_cons. simpl. by destruct (decide (system ≠ system)).
    + by exists 0.
    + done.
    + done.
Qed.

(** X7. [getMessageCount] counts the messages that are not system
    messages: a user message, an assistant message and a tool result
    each add one, the system prompt adds none, and [clearContext] brings
    the count to zero, keeps at most one message and is idempotent. *)
Theorem getMessageCount_counts_dialogue content c toolName :
  getMessageCount (addUserMessage content c) = S (getMessageCount c) ∧
  getMessageCount (addAssistantMessage content c) = S (getMessageCount c) ∧
  getMessageCount (addToolResult toolName content c) = S (getMessageCount c) ∧
  getMessageCount (addSystemMessage content c) = getMessageCount c ∧
  getMessageCount (clearContext c) = 0 ∧
  clearContext (clearContext c) = clearContext c ∧
  length (messages (clearContext c)) ≤ 1.
Proof.
  unfold getMessageCount.
  split_and!.
  - unfold addUserMessage. cbn [messages set_messages].
    rewrite filter_app, length_app, filter_cons. simpl. lia.
  - unfold addAssistantMessage. cbn [messages set_messages].
    rewrite filter_app, length_app, filter_cons. simpl. lia.
  - unfold addToolResult. cbn [messages set_messages].
    rewrite filter_app, length_app, filter_cons. simpl. lia.
  - pose proof (dialogue_addSystemMessage content c) as H.
    unfold dialogue in H. by rewrite H.
  - unfold clearContext.
    destruct (list_find _ (messages c)) as [[i x]|] eqn:E; [|done].
    apply list_find_Some in E as (_ & Hx & _).
    cbn [messages set_messages]. rewrite filter_cons.
    by destruct (decide (role x ≠ system)).
  - unfold clearContext.
    destruct (list_find _ (messages c)) as [[i x]|] eqn:E.
    + apply list_find_Some in E as (_ & Hx & _).
      cbn [messages set_messages].
      assert (list_find (λ m, role m = system) [x] = Some (0, x)) as ->.
      { apply list_find_Some. split_and!; [done|done|intros; lia]. }
      done.
    + cbn [messages set_messages]. done.
  - unfold clearContext.
    destruct (list_find _ (messages c)) as [[i x]|]; cbn; lia.
Qed.

End ContextProperties.

Section AgentHistory.
Import Effect Context Json Parser Agent.
Context {W : Type}.
Variable config : AgentConfig W.
Variable buildSystemPrompt : ConversationContext → jsstring.
Implicit Types (st : State W) (call : ParsedToolCall) (fr : jsstring).

Lemma runToolCall_context call st :
  context (runToolCall config call st).1 = context st.
Proof.
  destruct (getToolByName (tools config) (name call)) as [tool|] eqn:E.
  - rewrite (runToolCall_known config call tool st E).
    by destruct (execute tool _ _ _) as [w' [result|e]].
  - by rewrite (runToolCall_unknown config call st E).
Qed.

Lemma runToolCalls_context calls : ∀ acc st,
  context (runToolCalls config calls acc st).1 = context st.
Proof.
  induction calls as [|call calls IH]; intros acc st; [done|].
  cbn [runToolCalls]. unfold bind.
  pose proof (runToolCall_context call st) as Hc.
  destruct (runToolCall config call st) as [st1 [x|e]]; simpl in Hc.
  - by rewrite IH.
  - done.
Qed.

Lemma loop_appends n : ∀ fr st,
  ∃ more,
    messages (context (loop config n fr st).1) = messages (context st) ++ more ∧
    Forall (λ m, role m ≠ system) more ∧
    workingDirectory (context (loop config n fr st).1) = workingDirectory (context st) ∧
    planMode (context (loop config n fr st).1) = planMode (context st).
Proof.
  induction n as [|n IH]; intros fr st.
  - rewrite loop_exhausted. exists []. by rewrite app_nil_r.
  - destruct (provider_chat config (messages (context st)) (world st))
      as [w' [response|e]] eqn:Hchat.
    + destruct (toolCalls (parseToolCalls response)) as [|tc tcs] eqn:Hcalls.
      * rewrite (loop_no_tool_call config n fr st w' response Hchat Hcalls).
        exists [mkMessage assistant response]. split_and!; try done.
        by repeat constructor.
      * rewrite (loop_tool_calls config n fr st w' response Hchat)
          by (by rewrite Hcalls).
        pose proof (runToolCalls_context (toolCalls (parseToolCalls response)) []
                      (mkState w' (context st))) as Hctx.
        destruct (runToolCalls config _ [] (mkState w' (context st)))
          as [st1 [toolResults|e]]; cbn [fst context] in Hctx.
        -- destruct (IH (narrative fr response)
                       (mkState (world st1)
                          (addUserMessage (join [lf; lf] toolResults)
                             (addAssistantMessage response (context st1)))))
             as (more & Hm & Hns & Hwd & Hpm).
           exists ([mkMessage assistant response;
                    mkMessage user (join [lf; lf] toolResults)] ++ more).
           rewrite Hm, Hwd, Hpm, Hctx. cbn. rewrite <- !app_assoc.
           split_and!; try done.
           by repeat constructor.
        -- exists []. cbn. rewrite Hctx, app_nil_r. done.
    + rewrite (loop_chat_throws config n fr st w' e Hchat).
      exists []. by rewrite app_nil_r.
Qed.

(** X8. [run] only adds to the conversation, whether it returns or
    throws: the system prompt is put in its slot, the user message is
    appended, and everything else the run leaves behind comes after it
    and is no system message; the earlier dialogue is kept as it was,
    and so are the working directory and the mode flag. *)
Theorem run_only_appends userMessage st :
  let st' := (run config buildSystemPrompt userMessage st).1 in
  ∃ more,
    messages (context st')
      = messages (addSystemMessage (buildSystemPrompt (context st)) (context st))
        ++ mkMessage user userMessage :: more ∧
    Forall (λ m, role m ≠ system) more ∧
    dialogue (context st') = dialogue (context st) ++ mkMessage user userMessage :: more ∧
    workingDirectory (context st') = workingDirectory (context st) ∧
    planMode (context st') = planMode (context st).
Proof.
  cbv zeta. rewrite run_loop.
  destruct (loop_appends MAX_TOOL_ITERATIONS [] (entry buildSystemPrompt userMessage st))
    as (more & Hm & Hns & Hwd & Hpm).
  exists more. rewrite Hwd, Hpm. unfold dialogue. rewrite Hm.
  unfold entry. cbn [context messages addUserMessage set_messages workingDirectory planMode].
  rewrite <- app_assoc. cbn [app].
  assert (∀ l, Forall (λ m, role m ≠ system) l →
               filter (λ m, role m ≠ system) l = l) as Hall.
  { intros l Hl. induction Hl as [|x l Hx _ IHl]; [done|].
    rewrite filter_cons. destruct (decide (role x ≠ system)); [|done]. by f_equal. }
  pose proof (dialogue_addSystemMessage (buildSystemPrompt (context st)) (context st))
    as Hd.
  unfold dialogue in Hd.
  split; [done|]. split; [done|]. split.
  - rewrite filter_app, Hd, filter_cons. simpl. by rewrite (Hall more Hns).
  - unfold addSystemMessage. by destruct (list_find _ _) as [[??]|].
Qed.

End AgentHistory.

Section AgentReturns.
Import Effect Context Json Parser Agent.
Context {W : Type}.
Variable config : AgentConfig W.
Variable buildSystemPrompt : ConversationContext → jsstring.
Implicit Types (st : State W) (call : ParsedToolCall) (fr : jsstring).

Lemma loop_returns n : ∀ fr st,
  reliable config → ∃ st' x, loop config n fr st = (st', Returned x).
Proof.
  induction n as [|n IH]; intros fr st Hrel.
  - rewrite loop_exhausted. by eexists _, _.
  - destruct Hrel as [Hchat Htools].
    destruct (Hchat (messages (context st)) (world st)) as (w' & response & Hc).
    destruct (toolCalls (parseToolCalls response)) as [|tc tcs] eqn:Hcalls.
    + rewrite (loop_no_tool_call config n fr st w' response Hc Hcalls). by eexists _, _.
    + rewrite (loop_tool_calls config n fr st w' response Hc) by (by rewrite Hcalls).
      destruct (runToolCalls_returns config (toolCalls (parseToolCalls response)) []
                  (mkState w' (context st)) Htools) as (st1 & rs & ->).
      by apply IH.
Qed.


End AgentReturns.

(** ** The extraction of tool calls *)

Section ParserMore.
Import Json Regex Parser.
Implicit Types (response s : jsstring) (acc : ParseResult).

(** ** Replies without markup *)

Lemma startsWith_head_absent s c w : c ∉ s → JS.startsWith s (c :: w) = false.
Proof.
  destruct s as [|b s]; [done|]. intros Hc. cbn [JS.startsWith].
  case_bool_decide; [|done]. subst b. exfalso. apply Hc. by left.
Qed.

Lemma search_head_absent c w r2 s : ∀ i,
  c ∉ s → search (Seq (Lit (c :: w)) r2) s i = None.
Proof.
  induction s as [|b s IH]; intros i Hc.
  - cbn [search]. unfold matchHere. cbn [rmatch]. by rewrite startsWith_head_absent.
  - cbn [search]. unfold matchHere. cbn [rmatch]. rewrite startsWith_head_absent by done.
    apply IH. intros H. apply Hc. by right.
Qed.

Lemma execAll_no_match r s : search r s 0 = None → execAll r s = [].
Proof.
  intros H. unfold execAll. cbn [execLoop]. unfold exec.
  assert ((length s <? 0) = false) as -> by (by apply Nat.ltb_ge; lia).
  by rewrite drop_0, H.
Qed.

Lemma replaceAll_no_match r repl s : search r s 0 = None → replaceAll r repl s = s.
Proof. intros H. unfold replaceAll. cbn [replaceLoop]. by rewrite H. Qed.

Lemma indexOf_from_head_absent c w s : ∀ i,
  c ∉ s → JS.indexOf_from s (c :: w) i = None.
Proof.
  induction s as [|b s IH]; intros i Hc.
  - done.
  - cbn [JS.indexOf_from]. rewrite startsWith_head_absent by done.
    apply IH. intros H. apply Hc. by right.
Qed.

(** X10. A reply without an angle bracket, a backtick or an opening
    brace holds no tool call: [parseToolCalls] returns it trimmed, as
    the narrative text, with no invocation. *)
Theorem plain_reply_is_narrative response :
  "<"%char ∉ response → "`"%char ∉ response → "{"%char ∉ response →
  parseToolCalls response = {| text := JS.trim response; toolCalls := [] |}.
Proof.
  intros Hlt Hbt Hbr.
  assert (search toolCallRegex response 0 = None) as Htag
    by (by apply search_head_absent).
  assert (search jsonBlockRegex response 0 = None) as Hfence
    by (by apply search_head_absent).
  assert (afterFenced response = {| text := JS.trim response; toolCalls := [] |}) as Haf.
  { unfold afterFenced, afterTagged, taggedCalls.
    by rewrite (execAll_no_match _ _ Hfence), (execAll_no_match _ _ Htag),
               (replaceAll_no_match _ _ _ Htag). }
  unfold parseToolCalls. rewrite Haf. cbn [toolCalls length].
  rewrite bool_decide_eq_true_2 by done.
  apply foldl_bareStep_none. intros toolName jsonStr _ H.
  unfold bareCandidate, JS.indexOf, startPattern in H.
  change (str "{" ++ ?x) with ("{"%char :: x) in H.
  by rewrite indexOf_from_head_absent in H.
Qed.

(** ** Names *)

Lemma lookup_mapping_Some key v :
  lookup mapping key = Some v →
  v = str "read_file" ∨ v = str "write_file" ∨ v = str "edit_file".
Proof.
  unfold mapping. cbn [lookup].
  repeat case_bool_decide; intros [= <-]; tauto.
Qed.

Lemma normalizeToolName_idem n0 n :
  n0 ≠ [] → normalizeToolName n0 = Name n →
  n ≠ [] ∧ normalizeToolName n = Name n.
Proof.
  intros Hn0. unfold normalizeToolName at 1.
  destruct (lookup mapping (JS.toLowerCase n0)) as [v|] eqn:E.
  - intros [= <-]. apply lookup_mapping_Some in E as [-> | [-> | ->]]; by vm_compute.
  - destruct (_ || _) eqn:Ei; [done|]. intros [= <-]. split; [done|].
    unfold normalizeToolName. by rewrite E, Ei.
Qed.

Lemma normalizeToolName_Inherited n0 key :
  normalizeToolName n0 = Inherited key →
  key = str "constructor" ∨ key = str "__proto__".
Proof.
  unfold normalizeToolName.
  destruct (lookup mapping (JS.toLowerCase n0)); [done|].
  destruct (bool_decide (JS.toLowerCase n0 = str "constructor")) eqn:E1.
  - apply bool_decide_eq_true in E1. cbn [orb]. intros [= <-]. by left.
  - destruct (bool_decide (JS.toLowerCase n0 = str "__proto__")) eqn:E2; [|done].
    apply bool_decide_eq_true in E2. cbn [orb]. intros [= <-]. by right.
Qed.

Lemma foldl_bareStep_calls response names : ∀ acc call,
  call ∈ toolCalls (foldl (bareStep response) acc names) →
  call ∈ toolCalls acc ∨ ∃ s, tryParseToolCall s = Some call.
Proof.
  induction names as [|nm names IH]; intros acc call Hin; [by left|].
  cbn [foldl] in Hin. apply IH in Hin as [Hin|Hin]; [|by right].
  destruct (bareStep_cases response acc nm) as [Heq | (jsonStr & parsed & _ & Hp & Heq)];
    rewrite Heq in Hin; [by left|].
  cbn [toolCalls] in Hin. apply elem_of_app in Hin as [Hin|Hin]; [by left|].
  apply list_elem_of_singleton in Hin as ->. right. by exists jsonStr.
Qed.

Lemma parseToolCalls_calls response call :
  call ∈ toolCalls (parseToolCalls response) →
  ∃ s, tryParseToolCall s = Some call.
Proof.
  assert (call ∈ toolCalls (afterFenced response) →
          ∃ s, tryParseToolCall s = Some call) as Haf.
  { rewrite afterFenced_toolCalls. unfold taggedCalls, fencedCalls.
    intros [Hin|Hin]%elem_of_app;
      apply list_elem_of_omap in Hin as (m & _ & Hm); by exists (candidate m). }
  unfold parseToolCalls. case_bool_decide; [|done].
  intros Hin. apply foldl_bareStep_calls in Hin as [Hin|Hin]; [by apply Haf|done].
Qed.

(** X11. Every invocation that [parseToolCalls] returns carries a
    normalized name: either a non-empty string that
    [normalizeToolName] leaves as it is and that is, in lower case, none
    of the synonyms of the table, or one of the two objects inherited
    from [Object.prototype]. *)
Theorem parsed_names_are_normalized response call :
  call ∈ toolCalls (parseToolCalls response) →
  (∃ n, name call = Name n ∧ n ≠ [] ∧ normalizeToolName n = Name n ∧
        JS.toLowerCase n ∉ (mapping.*1)) ∨
  (∃ key, name call = Inherited key ∧
          (key = str "constructor" ∨ key = str "__proto__")).
Proof.
  intros Hin. apply parseToolCalls_calls in Hin as (s & Hs).
  apply tryParseToolCall_Some in Hs as (s' & members & n0 & _ & _ & _ & Hn0 & ->).
  cbn [name callOf].
  destruct (normalizeToolName n0) as [n|key] eqn:E.
  - left. exists n. destruct (normalizeToolName_idem n0 n Hn0 E) as [Hn Hid].
    split_and!; try done.
    intros Hkey. unfold normalizeToolName in Hid.
    destruct (lookup mapping (JS.toLowerCase n)) as [v|] eqn:El.
    + injection Hid as ->.
      apply lookup_mapping_Some in El as [-> | [-> | ->]]; vm_compute in Hkey;
        repeat (apply elem_of_cons in Hkey as [Hkey|Hkey]; [discriminate Hkey|]);
        by apply not_elem_of_nil in Hkey.
    + clear -El Hkey. unfold mapping in *. cbn [lookup fmap list_fmap fst] in *.
      repeat (apply elem_of_cons in Hkey as [Hkey|Hkey];
              [rewrite Hkey in El; repeat case_bool_decide; done|]).
      by apply not_elem_of_nil in Hkey.
  - right. exists key. split; [done|]. by eapply normalizeToolName_Inherited.
Qed.


(** ** The narrative text *)

Lemma trim_sublist s : JS.trim s `sublist_of` s.
Proof.
  destruct (trim_split s) as (w1 & w2 & Hs & _).
  rewrite Hs at 2. apply sublist_inserts_l, sublist_inserts_r. done.
Qed.

Lemma replaceString_sublist s w : JS.replaceString s w [] `sublist_of` s.
Proof.
  destruct (replaceString_excises s w) as [[_ ->]|(a & b & Hs & -> & _)]; [done|].
  rewrite Hs. apply sublist_app; [done|]. by apply sublist_inserts_l.
Qed.

Lemma replaceLoop_sublist r fuel : ∀ s,
  replaceLoop r (constant []) fuel s `sublist_of` s.
Proof.
  induction fuel as [|fuel IH]; intros s; [done|].
  cbn [replaceLoop]. destruct (search r s 0) as [m|]; [|done].
  unfold constant. cbn [app].
  assert (drop (endIndex m) s `sublist_of` drop (index m) s) as Hrest.
  { unfold endIndex. rewrite <- drop_drop. apply sublist_drop. }
  assert (∀ y, y `sublist_of` drop (index m) s → take (index m) s ++ y `sublist_of` s)
    as Hglue.
  { intros y Hy. rewrite <- (take_drop (index m) s) at 2. by apply sublist_app. }
  apply Hglue.
  destruct (matched m) as [|c0 w].
  - destruct (drop (endIndex m) s) as [|c rest'] eqn:E; [apply sublist_nil_l|].
    etrans; [|exact Hrest]. by apply sublist_skip.
  - etrans; [apply IH|exact Hrest].
Qed.

Lemma excerpt_step response acc w calls :
  excerpt response acc →
  excerpt response
    {| text := JS.trim (JS.replaceString (text acc) w []); toolCalls := calls |}.
Proof.
  intros (x & Hx & Hsub). exists (JS.replaceString (text acc) w []).
  split; [done|]. etrans; [apply replaceString_sublist|].
  rewrite Hx. etrans; [apply trim_sublist|done].
Qed.

(** X12. The narrative text that [parseToolCalls] returns is trimmed
    and is made of characters of the response in their order: nothing
    is added to it, so it is never longer than the response. *)
Theorem narrative_is_trimmed_excerpt response :
  JS.trim (text (parseToolCalls response)) = text (parseToolCalls response) ∧
  text (parseToolCalls response) `sublist_of` response ∧
  length (text (parseToolCalls response)) ≤ length response.
Proof.
  assert (excerpt response (parseToolCalls response)) as (x & Hx & Hsub).
  { assert (excerpt response (afterTagged response)) as H1.
    { eexists. split; [reflexivity|]. apply replaceLoop_sublist. }
    assert (∀ ms acc, excerpt response acc → excerpt response (foldl fencedStep acc ms))
      as H2.
    { induction ms as [|m ms IH]; intros acc Hacc; [done|].
      cbn [foldl]. apply IH. unfold fencedStep.
      destruct (tryParseToolCall (candidate m)); [|done]. by apply excerpt_step. }
    assert (∀ names acc, excerpt response acc →
              excerpt response (foldl (bareStep response) acc names)) as H3.
    { induction names as [|nm names IH]; intros acc Hacc; [done|].
      cbn [foldl]. apply IH. unfold bareStep.
      destruct (bareCandidate response nm); [|done].
      destruct (tryParseToolCall _); [|done]. by apply excerpt_step. }
    unfold parseToolCalls, afterFenced. case_bool_decide; [apply H3|]; by apply H2. }
  rewrite Hx. split; [apply trim_idem|].
  assert (JS.trim x `sublist_of` response) as H
    by (etrans; [apply trim_sublist|done]).
  split; [done|]. by apply sublist_length.
Qed.

End ParserMore.

(** ** The verifier *)

Section VerifierOutput.
Import Effect Verifier.
Context {W : Type}.
Variable execAsync : jsstring → jsstring → N → W → W * Settled.
Variable v : Verifier.


End VerifierOutput.

(** ** The executor *)

Section ExecutorLiveness.
Import Effect Planning Executor.
Context {W : Type}.
Variable ex : Executor (W := W).
Implicit Types (st : State (W := W)) (m : PlanManager) (t u : Task) (i j : nat).
Implicit Types (p : Plan) (ts : list Task).

Lemma actsOutside_ret {A} (a : A) : actsOutside W (ret a).
Proof. intros st. exists (world st), (context st). by destruct st. Qed.

Lemma actsOutside_throw {A} e : actsOutside W (throw (A := A) e).
Proof. intros st. exists (world st), (context st). by destruct st. Qed.

Lemma actsOutside_get : actsOutside W get.
Proof. intros st. exists (world st), (context st). by destruct st. Qed.

Lemma actsOutside_bind {A B} (c : M (State (W := W)) A) (f : A → M (State (W := W)) B) :
  actsOutside W c → (∀ a, actsOutside W (f a)) → actsOutside W (bind c f).
Proof.
  intros Hc Hf st. unfold bind. destruct (Hc st) as (w & ctx & Hst).
  destruct (c st) as [st1 [a|e]]; simpl in *; [|by eauto].
  destruct (Hf a st1) as (w' & ctx' & ->). subst st1. by exists w', ctx'.
Qed.

Lemma actsOutside_tryCatch {A} (c : M (State (W := W)) A) (h : jsstring → M (State (W := W)) A) :
  actsOutside W c → (∀ e, actsOutside W (h e)) → actsOutside W (tryCatch c h).
Proof.
  intros Hc Hh st. unfold tryCatch. destruct (Hc st) as (w & ctx & Hst).
  destruct (c st) as [st1 [a|e]]; simpl in *; [by eauto|].
  destruct (Hh e st1) as (w' & ctx' & ->). subst st1. by exists w', ctx'.
Qed.

Lemma actsOutside_onWorld {A} (c : M W A) : actsOutside W (onWorld c).
Proof.
  intros st. unfold onWorld. destruct (c (world st)) as [w r].
  exists w, (context st). by destruct st.
Qed.

Lemma actsOutside_notify f : actsOutside W (notify f).
Proof.
  intros st. destruct f as [g|]; simpl.
  - exists (g (world st)), (context st). by destruct st.
  - exists (world st), (context st). by destruct st.
Qed.

Lemma actsOutside_agentRun prompt : actsOutside W (agentRun ex prompt).
Proof.
  intros st. unfold agentRun. destruct (Agent.run _ _ _ _) as [ast r].
  by exists (Agent.world ast), (Agent.context ast).
Qed.

Lemma actsOutside_if {A} (b : bool) (c1 c2 : M (State (W := W)) A) :
  actsOutside W c1 → actsOutside W c2 → actsOutside W (if b then c1 else c2).
Proof. by destruct b. Qed.

Lemma actsOutside_attemptFix t e : actsOutside W (attemptFix ex t e).
Proof.
  unfold attemptFix. apply actsOutside_tryCatch.
  - apply actsOutside_bind; [apply actsOutside_agentRun|]. intros; apply actsOutside_ret.
  - intros; apply actsOutside_ret.
Qed.

Lemma actsOutside_executeTask t : actsOutside W (executeTask ex t).
Proof.
  unfold executeTask, notifyVerification.
  repeat first
    [ apply actsOutside_ret | apply actsOutside_throw | apply actsOutside_get
    | apply actsOutside_onWorld | apply actsOutside_notify | apply actsOutside_agentRun
    | apply actsOutside_attemptFix
    | apply actsOutside_tryCatch | apply actsOutside_bind | apply actsOutside_if
    | match goal with |- ∀ _, actsOutside W _ => intros ? end
    | match goal with |- actsOutside W (match ?x with _ => _ end) => destruct x end ].
Qed.

(** One turn of the loop on a task whose run succeeds. *)
Lemma iteration_success st i m1 task0 :
  succeeding ex →
  shouldStop st = false → stopCalled ex (world st) = false →
  getNextTask (planManager st) = (Some i, m1) → taskAt m1 i = Some task0 →
  ∃ st',
    iteration ex st = (st', Continue) ∧
    planManager st' =
      markTaskCompleted
        (id (default task0 (taskAt (markTaskInProgress (id task0) m1) i)))
        (markTaskInProgress (id task0) m1) ∧
    shouldStop st' = false ∧ isRunning st' = isRunning st.
Proof.
  intros Hsucc Hstop Hcalled Hnext Htask.
  unfold iteration. rewrite Hstop, Hcalled, Hnext, Htask. cbn [orb].
  set (st1 := set_planManager m1 st).
  destruct (actsOutside_notify (option_map (λ f, f task0) (onTaskStart (callbacks ex))) st1)
    as (w2 & c2 & Hst2).
  rewrite Hst2.
  set (st2 := set_context c2 (set_world w2 st1)).
  change (planManager st2) with m1.
  set (st3 := set_planManager (markTaskInProgress (id task0) m1) st2).
  change (planManager st3) with (markTaskInProgress (id task0) m1).
  set (task := default task0 (taskAt (markTaskInProgress (id task0) m1) i)).
  destruct (Hsucc task st3) as (result & Hr & Hok).
  { change (planManager st3) with (markTaskInProgress (id task0) m1).
    unfold taskAt in Htask. unfold markTaskInProgress.
    destruct (plan m1); [by eexists|done]. }
  destruct (actsOutside_executeTask task st3) as (w4 & c4 & Hst4).
  destruct (executeTask ex task st3) as [st4 r]. cbn [fst snd] in Hr, Hst4. subst r st4.
  cbn [planManager set_context set_world].
  change (planManager st3) with (markTaskInProgress (id task0) m1).
  replace (default task (taskAt (markTaskInProgress (id task0) m1) i)) with task
    by (unfold task; by destruct (taskAt (markTaskInProgress (id task0) m1) i)).
  rewrite Hok.
  match goal with
  | |- context [ (notify ?f1 (set_planManager ?mm ?s4)).1 ] =>
      destruct (actsOutside_notify f1 (set_planManager mm s4)) as (w6 & c6 & Hst6);
      rewrite Hst6
  end.
  match goal with
  | |- ∃ st', ((notify ?f2 ?s6).1, Continue) = _ ∧ _ =>
      destruct (actsOutside_notify f2 s6) as (w7 & c7 & Hst7); rewrite Hst7
  end.
  eexists. split; [reflexivity|]. done.
Qed.


Lemma first_pending_runnable p j0 t0 :
  NoDup (id <$> tasks p) → backwardDeps (tasks p) →
  (∀ j u, tasks p !! j = Some u →
     (status u = pending ∧ currentTaskIndex p ≤ j) ∨ status u = completed) →
  list_find (λ t, status t = pending) (tasks p) = Some (j0, t0) →
  getNextTask_loop p (length (tasks p) - currentTaskIndex p) (currentTaskIndex p)
  = Some j0.
Proof.
  intros Hnd Hback Hst (Hj0 & Hpend & Hmin)%list_find_Some.
  assert (currentTaskIndex p ≤ j0) as Hle.
  { destruct (Hst j0 t0 Hj0) as [[_ H]|H]; [done|congruence]. }
  assert (runnable p t0 = true) as Hrun.
  { unfold runnable. apply andb_true_iff. split; [by apply bool_decide_eq_true|].
    unfold depsComplete. apply forallb_forall. intros d Hd%list_elem_of_In.
    destruct (Hback j0 t0 d Hj0 Hd) as (j & Hlt & Hj).
    rewrite list_lookup_fmap in Hj.
    destruct (tasks p !! j) as [u|] eqn:Eu; [|done]. injection Hj as <-.
    unfold depComplete. rewrite (findTask_at _ _ _ Hnd Eu).
    apply bool_decide_eq_true.
    destruct (Hst j u Eu) as [[H _]|H]; [|done]. by destruct (Hmin j u Eu Hlt). }
  pose proof (getNextTask_loop_spec p (length (tasks p) - currentTaskIndex p)
                (currentTaskIndex p) eq_refl) as Hspec.
  destruct (getNextTask_loop p _ _) as [k|].
  - destruct Hspec as (Hk & (t & Ht & Hr) & Hbefore). f_equal.
    assert (status t = pending) as Htp.
    { unfold runnable in Hr. apply andb_true_iff in Hr as [Hr _].
      by apply bool_decide_eq_true in Hr. }
    destruct (Nat.lt_trichotomy k j0) as [Hlt|[->|Hgt]]; [|done|].
    + by destruct (Hmin k t Ht Hlt).
    + rewrite (Hbefore j0 t0) in Hrun; [done|lia|done].
  - rewrite (Hspec j0 t0) in Hrun; [done|lia|done].
Qed.

Lemma ran_spec t :
  set_error None (set_status completed
    (set_attempts (S (attempts t)) (set_status in_progress t))) = ran t.
Proof. by destruct t. Qed.

Lemma onCourse_step ts0 st p j0 t0 :
  succeeding ex → neverStopped ex →
  onCourse ts0 st → plan (planManager st) = Some p →
  list_find (λ t, status t = pending) (tasks p) = Some (j0, t0) →
  ∃ st' p',
    iteration ex st = (st', Continue) ∧ onCourse ts0 st' ∧
    plan (planManager st') = Some p' ∧
    tasks p' = <[j0 := ran t0]> (tasks p) ∧
    (Forall (λ t, status t = completed) (tasks p') → plan_status p' = plan_completed) ∧
    isRunning st' = isRunning st.
Proof.
  intros Hsucc Hnever (p0 & Hp0 & Hstop & Hnd & Hback & Hst & Hrel) Hp Hfind.
  assert (p0 = p) as -> by congruence. clear Hp0.
  pose proof Hfind as (Hj0 & Hpend & Hmin)%list_find_Some.
  pose proof (first_pending_runnable p j0 t0 Hnd Hback Hst Hfind) as Hloop.
  set (p1 := set_currentTaskIndex j0 p).
  set (m1 := set_plan (Some p1) (planManager st)).
  assert (getNextTask (planManager st) = (Some j0, m1)) as Hnext.
  { unfold getNextTask. by rewrite Hp, Hloop. }
  assert (taskAt m1 j0 = Some t0) as Htask by done.
  destruct (iteration_success st j0 m1 t0 Hsucc Hstop (Hnever _) Hnext Htask)
    as (st' & Hit & Hm' & Hstop' & Hrun').
  pose proof (findTask_at _ _ _ Hnd Hj0) as Hf.
  set (t1 := set_attempts (S (attempts t0)) (set_status in_progress t0)) in *.
  rewrite (markTaskInProgress_found m1 p1 (id t0) j0 t0 eq_refl Hf) in Hm'.
  fold t1 in Hm'.
  set (p2 := set_tasks (<[j0 := t1]> (tasks p1)) p1) in *.
  assert (tasks p2 !! j0 = Some t1) as Hj2.
  { apply list_lookup_insert_eq. by eapply lookup_lt_Some. }
  assert (taskAt (set_plan (Some p2) m1) j0 = Some t1) as Ht1 by done.
  rewrite Ht1 in Hm'. change (default t0 (Some t1)) with t1 in Hm'.
  change (id t1) with (id t0) in Hm'.
  assert (findTask (id t0) (tasks p2) = Some (j0, t1)) as Hf2
    by (by apply (findTask_insert _ _ _ t0)).
  pose proof (markTaskCompleted_plan (set_plan (Some p2) m1) p2 (id t0) eq_refl) as Hplan.
  rewrite <- Hm' in Hplan. cbv zeta in Hplan.
  set (q := updateTask (id t0) (λ t, set_error None (set_status completed t)) p2) in *.
  assert (tasks q = <[j0 := ran t0]> (tasks p)) as Hq.
  { unfold q, updateTask. rewrite Hf2. cbn [tasks set_tasks].
    rewrite (alter_found (λ t, set_error None (set_status completed t)) _ _ _ Hj2).
    cbn [tasks p2 p1 set_tasks set_currentTaskIndex].
    rewrite list_insert_insert_eq. unfold t1. by rewrite ran_spec. }
  assert (currentTaskIndex q = j0) as Hcq.
  { unfold q, updateTask. by rewrite Hf2. }
  assert (existsb (λ t, bool_decide (status t = failed)) (tasks q) = false) as Hnofail.
  { apply not_true_iff_false. intros (u & Hu & Hfailed)%existsb_exists.
    apply bool_decide_eq_true in Hfailed. apply list_elem_of_In in Hu.
    rewrite Hq in Hu. apply list_elem_of_lookup in Hu as (j & Hu).
    apply list_lookup_insert_Some in Hu as [(-> & <- & _)|(Hne & Hu)]; [done|].
    destruct (Hst j u Hu) as [[H _]|H]; congruence. }
  rewrite Hnofail in Hplan. cbn [andb] in Hplan.
  set (p' := if forallb (λ t, bool_decide (status t = completed)) (tasks q)
             then set_plan_status plan_completed q else q) in *.
  assert (tasks p' = tasks q ∧ currentTaskIndex p' = j0) as [Htp' Hcp'].
  { unfold p'. by destruct (forallb _ _). }
  exists st', p'. split; [done|]. split.
  - exists p'. split; [done|]. split; [done|]. rewrite Htp', Hq.
    split_and!.
    + by rewrite (ids_insert _ _ t0).
    + intros i t d Hi Hd. rewrite (ids_insert _ _ t0) by done.
      apply list_lookup_insert_Some in Hi as [(<- & <- & _)|(Hne & Hi)].
      * by apply (Hback j0 t0).
      * by apply (Hback i t).
    + intros j u Hu. rewrite Hcp'.
      apply list_lookup_insert_Some in Hu as [(<- & <- & _)|(Hne & Hu)]; [by right|].
      destruct (Hst j u Hu) as [[Hup Hc]|Hu']; [|by right]. left. split; [done|].
      destruct (Nat.lt_ge_cases j j0) as [Hlt|Hge]; [|done].
      by destruct (Hmin j u Hu Hlt).
    + apply Forall2_lookup. intros j.
      pose proof (proj1 (Forall2_lookup _ _ _) Hrel j) as Hj.
      destruct (decide (j = j0)) as [->|Hne].
      * rewrite list_lookup_insert_eq by (by eapply lookup_lt_Some).
        rewrite Hj0 in Hj. destruct (ts0 !! j0) as [t00|]; [|inversion Hj].
        assert (t0 = t00 ∨ (status t00 = pending ∧ t0 = ran t00)) as Hr
          by (by inversion Hj).
        constructor. destruct Hr as [<-|[_ Heq]]; [by right|].
        rewrite Heq in Hpend. done.
      * by rewrite list_lookup_insert_ne.
  - split; [done|]. split; [by rewrite Htp', Hq|]. split; [|done].
    intros Hall. unfold p'. rewrite Htp' in Hall.
    apply forallb_Forall_completed in Hall. by rewrite Hall.
Qed.

Lemma onCourse_end ts0 st p :
  neverStopped ex →
  onCourse ts0 st → plan (planManager st) = Some p →
  list_find (λ t, status t = pending) (tasks p) = None →
  iteration ex st = (st, Break) ∧ Forall (λ t, status t = completed) (tasks p).
Proof.
  intros Hnever (p0 & Hp0 & Hstop & Hnd & Hback & Hst & Hrel) Hp Hfind.
  assert (p0 = p) as -> by congruence. clear Hp0.
  assert (∀ j u, tasks p !! j = Some u → status u ≠ pending) as Hnone.
  { intros j u Hu. apply list_find_None in Hfind. rewrite Forall_lookup in Hfind.
    by apply (Hfind j u). }
  split.
  - unfold iteration. rewrite Hstop, (Hnever _). cbn [orb].
    unfold getNextTask. rewrite Hp.
    pose proof (getNextTask_loop_spec p (length (tasks p) - currentTaskIndex p)
                  (currentTaskIndex p) eq_refl) as Hspec.
    destruct (getNextTask_loop p _ _) as [k|]; [|done].
    destruct Hspec as (_ & (t & Ht & Hr) & _).
    unfold runnable in Hr. apply andb_true_iff in Hr as [Hr _].
    apply bool_decide_eq_true in Hr. by destruct (Hnone k t Ht).
  - apply Forall_lookup. intros j u Hu.
    destruct (Hst j u Hu) as [[H _]|H]; [by destruct (Hnone j u Hu)|done].
Qed.

Lemma onCourse_loop ts0 n : ∀ st p,
  succeeding ex → neverStopped ex →
  onCourse ts0 st → plan (planManager st) = Some p →
  length (filter (λ t, status t = pending) (tasks p)) = n →
  ∃ st' p',
    loop ex (S n) st = Some st' ∧ onCourse ts0 st' ∧
    plan (planManager st') = Some p' ∧
    Forall (λ t, status t = completed) (tasks p') ∧
    (0 < n → plan_status p' = plan_completed) ∧
    isRunning st' = isRunning st.
Proof.
  induction n as [|n IH]; intros st p Hsucc Hnever Hon Hp Hn.
  - assert (list_find (λ t, status t = pending) (tasks p) = None) as Hfind.
    { apply list_find_None. apply length_zero_iff_nil in Hn.
      apply Forall_forall. intros u Hu Hpu.
      assert (u ∈ filter (λ t, status t = pending) (tasks p)) as Hin
        by (by apply list_elem_of_filter).
      rewrite Hn in Hin. by apply not_elem_of_nil in Hin. }
    destruct (onCourse_end ts0 st p Hnever Hon Hp Hfind) as [Hit Hall].
    exists st, p. cbn [loop]. rewrite Hit. split_and!; try done. lia.
  - destruct (list_find (λ t, status t = pending) (tasks p)) as [[j0 t0]|] eqn:Hfind.
    + destruct (onCourse_step ts0 st p j0 t0 Hsucc Hnever Hon Hp Hfind)
        as (st1 & p1 & Hit & Hon1 & Hp1 & Ht1 & Hdone1 & Hrun1).
      pose proof Hfind as (Hj0 & Hpend & _)%list_find_Some.
      assert (length (filter (λ t, status t = pending) (tasks p1)) = n) as Hn1.
      { rewrite Ht1.
        pose proof (length_filter_insert (λ t, status t = pending) (tasks p) j0 t0
                      (ran t0) Hj0) as H.
        rewrite decide_True in H by done. rewrite decide_False in H by done. lia. }
      destruct (IH st1 p1 Hsucc Hnever Hon1 Hp1 Hn1)
        as (st' & p' & Hloop & Hon' & Hp' & Hall & Hstatus & Hrun').
      exists st', p'. split.
      { change (loop ex (S (S n)) st) with
          (match iteration ex st with
           | (st', Continue) => loop ex (S n) st'
           | (st', Break) => Some st'
           end). by rewrite Hit. }
      split_and!; try done; [|congruence].
      intros _. destruct n as [|n]; [|apply Hstatus; lia].
      cbn [loop] in Hloop.
      assert (list_find (λ t, status t = pending) (tasks p1) = None) as Hfind1.
      { apply list_find_None. apply length_zero_iff_nil in Hn1.
        apply Forall_forall. intros u Hu Hpu.
        assert (u ∈ filter (λ t, status t = pending) (tasks p1)) as Hin
          by (by apply list_elem_of_filter).
        rewrite Hn1 in Hin. by apply not_elem_of_nil in Hin. }
      destruct (onCourse_end ts0 st1 p1 Hnever Hon1 Hp1 Hfind1) as [Hit1 Hall1].
      rewrite Hit1 in Hloop. injection Hloop as <-.
      assert (p' = p1) as -> by congruence. by apply Hdone1.
    + apply list_find_None in Hfind.
      destruct (filter (λ t, status t = pending) (tasks p)) as [|u l] eqn:E; [done|].
      assert (u ∈ filter (λ t, status t = pending) (tasks p)) as Hin
        by (rewrite E; left).
      apply list_elem_of_filter in Hin as [Hpu Hin].
      rewrite Forall_forall in Hfind. by destruct (Hfind u Hin).
Qed.


Lemma notify_world f st : ∃ w, (notify f st).1 = set_world w st.
Proof.
  destruct f as [g|]; simpl; [by eexists|]. exists (world st). by destruct st.
Qed.

Lemma finish_spec st :
  ∃ w,
    finish ex st =
      (set_world w (set_isRunning false st),
       Returned match plan (planManager st) with
                | Some p => bool_decide (plan_status p = plan_completed)
                | None => false
                end).
Proof.
  unfold finish.
  match goal with
  | |- context [ (notify ?f ?s).1 ] => destruct (notify_world f s) as (w & Hst)
  end.
  exists w. by rewrite Hst.
Qed.

(** X15. [execute] carries a plan to completion when every run
    succeeds. For a plan that is approved or in progress, with distinct
    ids, whose dependencies all name earlier tasks, whose tasks are
    pending or completed with the pending ones at or after the cursor
    and at least one of them pending: if every run of a task succeeds
    and nobody calls [stop], then [execute] returns true after one turn
    of the loop per pending task and one more, is no longer running, and
    leaves the plan completed, every pending task having run exactly
    once and every other task being as it was. *)
Theorem execute_completes_plan st p :
  plan (planManager st) = Some p →
  plan_status p = plan_approved ∨ plan_status p = plan_in_progress →
  NoDup (id <$> tasks p) → backwardDeps (tasks p) →
  (∀ j u, tasks p !! j = Some u →
     (status u = pending ∧ currentTaskIndex p ≤ j) ∨ status u = completed) →
  (∃ u, u ∈ tasks p ∧ status u = pending) →
  succeeding ex → neverStopped ex →
  ∃ st' p',
    execute ex (S (length (filter (λ t, status t = pending) (tasks p)))) st
      = Some (st', Returned true) ∧
    isRunning st' = false ∧
    plan (planManager st') = Some p' ∧
    plan_status p' = plan_completed ∧
    tasks p' = afterRun <$> tasks p.
Proof.
  intros Hp Hstatus Hnd Hback Hst (u0 & Hu0 & Hpu0) Hsucc Hnever.
  assert (isApproved (planManager st) = true) as Happ
    by (apply isApproved_iff; eauto).
  destruct (prepare_in_progress st Happ) as (p0 & Hp0 & Hprep).
  assert (p0 = p) as -> by congruence. clear Hp0.
  set (pp := set_plan_status plan_in_progress p) in *.
  assert (onCourse (tasks p) (prepare st)) as Hon.
  { exists pp. rewrite Hprep. split_and!; try done.
    apply Forall2_lookup. intros j. change (tasks pp) with (tasks p).
    destruct (tasks p !! j); constructor. by left. }
  assert (plan (planManager (prepare st)) = Some pp) as Hpp by (by rewrite Hprep).
  set (n := length (filter (λ t, status t = pending) (tasks p))).
  destruct (onCourse_loop (tasks p) n (prepare st) pp Hsucc Hnever Hon Hpp eq_refl)
    as (st1 & p1 & Hloop & Hon1 & Hp1 & Hall & Hdone & Hrun).
  assert (0 < n) as Hpos.
  { unfold n.
    assert (u0 ∈ filter (λ t, status t = pending) (tasks p)) as Hin
      by (by apply list_elem_of_filter).
    destruct (filter _ (tasks p)); [by apply not_elem_of_nil in Hin|simpl; lia]. }
  specialize (Hdone Hpos).
  destruct (finish_spec st1) as (w & Hfin).
  exists (set_world w (set_isRunning false st1)), p1.
  unfold execute. rewrite Happ. cbn [negb]. rewrite Hloop, Hfin, Hp1, Hdone.
  rewrite bool_decide_eq_true_2 by done.
  split_and!; try done.
  destruct Hon1 as (p1' & Hp1' & _ & _ & _ & _ & Hrel).
  assert (p1' = p1) as -> by congruence.
  apply list_eq. intros j. rewrite list_lookup_fmap.
  pose proof (proj1 (Forall2_lookup _ _ _) Hrel j) as Hj.
  destruct (tasks p !! j) as [t|], (tasks p1 !! j) as [t'|] eqn:E';
    inversion Hj as [? ? Hr|]; subst; [|done].
  cbn. f_equal. unfold afterRun.
  destruct Hr as [->|[Hpt ->]].
  - rewrite Forall_lookup in Hall. pose proof (Hall j t E') as Hc.
    rewrite decide_False; [done|congruence].
  - by rewrite decide_True.
Qed.

Lemma getNextTask_loop_none p n i :
  Forall (λ t, status t ≠ pending) (tasks p) → getNextTask_loop p n i = None.
Proof.
  intros Hall. revert i. induction n as [|n IH]; intros i; [done|].
  cbn [getNextTask_loop]. destruct (tasks p !! i) as [t|] eqn:E; [|done].
  rewrite Forall_lookup in Hall. pose proof (Hall i t E) as Ht.
  unfold runnable. rewrite bool_decide_eq_false_2 by done. cbn [andb]. apply IH.
Qed.

(** X16. A plan with nothing to run is never completed by [execute]:
    when [getNextTask] finds no task (in particular when no task is
    pending, as in a plan without tasks or whose tasks are all
    completed), [execute] leaves the loop at its first turn and returns
    false, the plan being in progress and the executor no longer
    running. *)
Theorem execute_without_runnable_task st p :
  plan (planManager st) = Some p →
  plan_status p = plan_approved ∨ plan_status p = plan_in_progress →
  (Forall (λ t, status t ≠ pending) (tasks p) →
   (getNextTask (planManager st)).1 = None) ∧
  ((getNextTask (planManager st)).1 = None →
   ∃ st',
     execute ex 1 st = Some (st', Returned false) ∧
     planManager st' = set_plan (Some (set_plan_status plan_in_progress p)) (planManager st) ∧
     isRunning st' = false).
Proof.
  intros Hp Hstatus. split.
  - intros Hall. unfold getNextTask. rewrite Hp.
    by rewrite getNextTask_loop_none.
  - intros Hnone.
    assert (isApproved (planManager st) = true) as Happ
      by (apply isApproved_iff; eauto).
    destruct (prepare_in_progress st Happ) as (p0 & Hp0 & Hprep).
    assert (p0 = p) as -> by congruence. clear Hp0.
    assert (getNextTask_loop p (length (tasks p) - currentTaskIndex p)
              (currentTaskIndex p) = None) as Hloop.
    { unfold getNextTask in Hnone. rewrite Hp in Hnone.
      by destruct (getNextTask_loop p _ _). }
    assert (∃ st1, iteration ex (prepare st) = (st1, Break) ∧
                   planManager st1 = planManager (prepare st)) as (st1 & Hit & Hm1).
    { unfold iteration.
      destruct (shouldStop (prepare st) || stopCalled ex (world (prepare st)));
        [by eexists|].
      unfold getNextTask. rewrite Hprep. cbn [plan set_plan].
      change (tasks (set_plan_status plan_in_progress p)) with (tasks p).
      change (currentTaskIndex (set_plan_status plan_in_progress p))
        with (currentTaskIndex p).
      assert (∀ n i, getNextTask_loop (set_plan_status plan_in_progress p) n i
                     = getNextTask_loop p n i) as Hsame.
      { induction n as [|n IH]; intros i; [done|]. cbn [getNextTask_loop].
        change (tasks (set_plan_status plan_in_progress p)) with (tasks p).
        destruct (tasks p !! i); [|done]. by rewrite IH. }
      rewrite Hsame, Hloop. eexists. split; [done|]. by rewrite Hprep. }
    destruct (finish_spec st1) as (w & Hfin).
    exists (set_world w (set_isRunning false st1)).
    unfold execute. rewrite Happ. cbn [negb loop]. rewrite Hit, Hfin, Hm1, Hprep.
    cbn [plan set_plan plan_status set_plan_status].
    rewrite bool_decide_eq_false_2 by done. split_and!; try done.
    cbn [planManager set_world set_isRunning]. by rewrite Hm1, Hprep.
Qed.

End ExecutorLiveness.

Section TaskRuns.
Import Effect Planning Executor.
Context {W : Type}.
Variable ex : Executor (W := W).
Implicit Types (st : State (W := W)) (m : PlanManager) (t u : Task) (i j : nat).

Lemma agentRun_returns prompt st :
  reliable (agent ex) →
  ∃ st' response, agentRun ex prompt st = (st', Returned response) ∧
                  planManager st' = planManager st.
Proof.
  intros Hrel. unfold agentRun.
  rewrite run_loop.
  destruct (loop_returns (agent ex) Agent.MAX_TOOL_ITERATIONS []
              (entry (buildSystemPrompt ex) prompt (Agent.mkState (world st) (context st)))
              Hrel) as (ast & x & ->).
  by eexists _, _.
Qed.

Lemma runCommand_passes command st :
  passing ex →
  ∃ st' v, onWorld (Verifier.runCommand (execAsync ex) (verifier ex) command) st
           = (st', Returned v) ∧
           Verifier.success v = true ∧ planManager st' = planManager st.
Proof.
  intros Hpass. unfold onWorld, Verifier.runCommand.
  destruct (Hpass command (Verifier.workingDirectory (verifier ex))
              (Verifier.timeout (verifier ex)) (world st)) as (out & err & H).
  destruct (execAsync ex _ _ _ _) as [w' s]. cbn [snd] in H. subst s.
  by eexists _, _.
Qed.

Lemma executeTask_success t st :
  reliable (agent ex) → passing ex →
  is_Some (plan (planManager st)) →
  ∃ r, (executeTask ex t st).2 = Returned r ∧ success r = true.
Proof.
  intros Hrel Hpass [p Hp].
  unfold executeTask, tryCatch.
  destruct (agentRun_returns (buildTaskPrompt t) st Hrel) as (st1 & response & Hrun & Hm1).
  unfold bind at 1. rewrite Hrun.
  unfold bind at 1. unfold get at 1.
  rewrite Hm1, Hp.
  unfold bind at 1. unfold ret at 1.
  set (commands := verifyCommands p).
  match goal with
  | |- context [ bind ?V1 ?K st1 ] =>
      assert (∃ st2 v1, V1 st1 = (st2, Returned v1) ∧ notFailed v1 = true)
        as (st2 & v1 & Hv1 & Hok1); [|unfold bind at 1; rewrite Hv1]
  end.
  { destruct (_ && _); [|by eexists _, _].
    destruct (runCommand_passes (default [] (build commands)) st1 Hpass)
      as (st2 & v & Hv & Hsv & _).
    unfold Verifier.runBuild, bind at 1. rewrite Hv.
    unfold bind at 1.
    destruct (notifyVerification ex v st2) as [st3 [[]|e]] eqn:En.
    - rewrite Hsv. by eexists _, _.
    - unfold notifyVerification, notify in En. by destruct (option_map _ _). }
  unfold bind at 1.
  destruct (runTestAfterEachTask (config ex) && truthyOpt (test commands) && notFailed v1).
  - destruct (runCommand_passes (default [] (test commands)) st2 Hpass)
      as (st3 & v & Hv & Hsv & _).
    unfold Verifier.runTests, bind at 1. rewrite Hv.
    unfold bind at 1.
    destruct (notifyVerification ex v st3) as [st4 [[]|e]] eqn:En.
    + rewrite Hsv. eexists. split; [reflexivity|]. done.
    + unfold notifyVerification, notify in En. by destruct (option_map _ _).
  - eexists. split; [reflexivity|]. done.
Qed.


End TaskRuns.
(** * Properties of the tools *)

Section SplitProperties.
Import JS Agent.
Implicit Types (s w a b sep : jsstring) (c : ascii).

Lemma indexOf_Some s w i :
  indexOf s w = Some i →
  ∃ a b, s = a ++ w ++ b ∧ i = length a ∧
         ∀ a' b', s = a' ++ w ++ b' → length a ≤ length a'.
Proof.
  intros H. apply indexOf_from_Some in H as (a & b & Hs & Hi & Hmin).
  exists a, b. split; [done|]. split; [lia|done].
Qed.

Lemma indexOf_first a w b :
  (∀ a' b', a ++ w ++ b = a' ++ w ++ b' → length a ≤ length a') →
  indexOf (a ++ w ++ b) w = Some (length a).
Proof.
  intros Hmin. destruct (indexOf (a ++ w ++ b) w) as [i|] eqn:E.
  - apply indexOf_Some in E as (a0 & b0 & Hs & -> & Hmin0).
    f_equal. pose proof (Hmin a0 b0 Hs). pose proof (Hmin0 a b eq_refl). lia.
  - by destruct (indexOf_from_None _ _ _ E a b).
Qed.

Lemma indexOf_None s w : indexOf s w = None ↔ ∀ a b, s ≠ a ++ w ++ b.
Proof.
  split; [apply indexOf_from_None|].
  intros H. destruct (indexOf s w) as [i|] eqn:E; [|done].
  apply indexOf_Some in E as (a & b & Hs & _). by destruct (H a b).
Qed.

Lemma splitLoop_nonempty fuel s sep : splitLoop fuel s sep ≠ [].
Proof. destruct fuel; simpl; [done|]. by destruct (indexOf s sep). Qed.

Lemma join_cons sep x rest :
  rest ≠ [] → join sep (x :: rest) = x ++ sep ++ join sep rest.
Proof. by destruct rest. Qed.

Lemma splitLoop_join sep fuel : ∀ s, join sep (splitLoop fuel s sep) = s.
Proof.
  induction fuel as [|fuel IH]; intros s; [done|].
  cbn [splitLoop]. destruct (indexOf s sep) as [j|] eqn:E; [|done].
  rewrite join_cons by apply splitLoop_nonempty. rewrite IH.
  apply indexOf_Some in E as (a & b & -> & -> & _).
  rewrite take_app_length. f_equal. f_equal.
  rewrite <- drop_drop, drop_app_length. by rewrite drop_app_length.
Qed.

Lemma split_join s sep : sep ≠ [] → join sep (split s sep) = s.
Proof. destruct sep; [done|]. intros _. apply splitLoop_join. Qed.


Lemma pieces_nonempty c s : pieces c s ≠ [].
Proof.
  destruct s as [|d s]; [done|]. simpl. case_bool_decide; [done|].
  by destruct (pieces c s).
Qed.

Lemma pieces_absent c s : c ∉ s → pieces c s = [s].
Proof.
  induction s as [|d s IH]; [done|]. intros Hc. simpl.
  rewrite bool_decide_eq_false_2 by (intros ->; apply Hc; by left).
  rewrite IH; [done|]. intros H. apply Hc. by right.
Qed.

Lemma pieces_app c a b : pieces c (a ++ c :: b) = pieces c a ++ pieces c b.
Proof.
  induction a as [|d a IH]; simpl.
  - by rewrite bool_decide_eq_true_2.
  - case_bool_decide; [by rewrite IH|]. rewrite IH.
    pose proof (pieces_nonempty c a). by destruct (pieces c a).
Qed.

Lemma pieces_free c s x : x ∈ pieces c s → c ∉ x.
Proof.
  revert x. induction s as [|d s IH]; intros x Hx; simpl in Hx.
  - apply list_elem_of_singleton in Hx as ->. apply not_elem_of_nil.
  - case_bool_decide.
    + apply elem_of_cons in Hx as [->|Hx]; [apply not_elem_of_nil|by apply IH].
    + pose proof (pieces_nonempty c s). destruct (pieces c s) as [|h t]; [done|].
      apply elem_of_cons in Hx as [->|Hx].
      * intros [->|Hc]%elem_of_cons; [done|]. apply (IH h); [by left|done].
      * apply IH. by right.
Qed.

Lemma pieces_length c s : length (pieces c s) = S (length (filter (λ d, d = c) s)).
Proof.
  induction s as [|d s IH]; [done|]. simpl. rewrite filter_cons.
  case_bool_decide.
  - rewrite decide_True by done. simpl. by rewrite IH.
  - rewrite decide_False by done. pose proof (pieces_nonempty c s).
    destruct (pieces c s); [done|]. simpl in *. lia.
Qed.

Lemma indexOf_char_absent c s : indexOf s [c] = None → c ∉ s.
Proof.
  intros H Hc. apply list_elem_of_split in Hc as (a & b & ->).
  by destruct (proj1 (indexOf_None _ _) H a b).
Qed.

Lemma splitLoop_pieces c fuel : ∀ s,
  length s ≤ fuel → splitLoop fuel s [c] = pieces c s.
Proof.
  induction fuel as [|fuel IH]; intros s Hs.
  - destruct s; [done|simpl in Hs; lia].
  - cbn [splitLoop]. destruct (indexOf s [c]) as [j|] eqn:E.
    + apply indexOf_Some in E as (a & b & -> & -> & Hmin).
      rewrite take_app_length.
      rewrite <- drop_drop, drop_app_length. cbn [app drop length].
      assert (c ∉ a) as Ha.
      { intros Hc. apply list_elem_of_split in Hc as (a1 & a2 & ->).
        specialize (Hmin a1 (a2 ++ [c] ++ b)).
        rewrite <- !app_assoc in Hmin. specialize (Hmin eq_refl).
        rewrite length_app in Hmin. simpl in Hmin. lia. }
      rewrite pieces_app, (pieces_absent c a Ha). cbn [app].
      rewrite IH; [done|]. rewrite drop_0, !length_app in *. simpl in Hs. lia.
    + by rewrite pieces_absent by (by apply indexOf_char_absent).
Qed.

Lemma split_pieces c s : split s [c] = pieces c s.
Proof. by apply splitLoop_pieces. Qed.

Lemma pieces_join c xs :
  xs ≠ [] → pieces c (join [c] xs) = concat (pieces c <$> xs).
Proof.
  induction xs as [|x xs IH]; [done|]. intros _.
  destruct xs as [|y xs].
  - simpl. by rewrite app_nil_r.
  - rewrite join_cons by done. cbn [app]. rewrite pieces_app, IH by done. done.
Qed.

Lemma concat_pieces_free c (xs : list jsstring) :
  Forall (λ x, c ∉ x) xs → concat (pieces c <$> xs) = xs.
Proof.
  induction 1 as [|x xs Hx _ IH]; [done|].
  rewrite fmap_cons. cbn [concat]. by rewrite (pieces_absent c x Hx), IH.
Qed.

Lemma getSubstitution_literal matched before after template :
  "$"%char ∉ template → getSubstitution matched before after template = template.
Proof.
  induction template as [|c r IH]; [done|]. intros Hc. cbn [getSubstitution].
  rewrite bool_decide_eq_false_2 by (intros ->; apply Hc; by left).
  rewrite IH; [done|]. intros H. apply Hc. by right.
Qed.

Lemma indexOf_leftmost a o b :
  indexOf (a ++ o ++ b) o = Some (length a) →
  ∀ a' b', a ++ o ++ b = a' ++ o ++ b' → length a ≤ length a'.
Proof.
  intros H a' b' E. apply indexOf_Some in H as (a0 & b0 & _ & -> & Hmin).
  by apply (Hmin a' b').
Qed.

Lemma split_single a o b :
  o ≠ [] →
  (∀ a' b', a ++ o ++ b = a' ++ o ++ b' → length a ≤ length a') →
  (∀ x y, b ≠ x ++ o ++ y) →
  split (a ++ o ++ b) o = [a; b].
Proof.
  intros Ho Hfirst Hlast. destruct o as [|c o]; [done|].
  unfold split. destruct (length (a ++ (c :: o) ++ b)) as [|fuel] eqn:El.
  { rewrite !length_app in El. simpl in El. lia. }
  cbn [splitLoop]. rewrite (indexOf_first a (c :: o) b Hfirst).
  rewrite take_app_length, <- drop_drop, drop_app_length, drop_app_length.
  f_equal. destruct fuel; [done|]. cbn [splitLoop].
  by rewrite (proj2 (indexOf_None b (c :: o)) Hlast).
Qed.

End SplitProperties.


Section EditProperties.
Import Effect JS Agent Tools.
Context {W : Type}.
Variable resolve : jsstring → jsstring → jsstring.
Variable isAbsolute : jsstring → bool.
Variable home : jsstring.
Variable dirname : jsstring → jsstring.
Variable readFile : jsstring → W → W * Settlement jsstring.
Variable writeFile : jsstring → jsstring → W → W * Settlement unit.
Variable mkdir : jsstring → W → W * Settlement unit.

Lemma mode_replace params :
  edit_mode params ≠ Some (str "append") →
  edit_mode params ≠ Some (str "insert") →
  let mode :=
    match edit_mode params with
    | Some m => if truthy m then m else str "replace"
    | None => str "replace"
    end in
  bool_decide (mode = str "append") = false ∧
  bool_decide (mode = str "insert") = false.
Proof.
  intros Ha Hi mode. subst mode. destruct (edit_mode params) as [m|]; [|done].
  destruct m as [|c m]; [done|]. cbn [truthy].
  split; apply bool_decide_eq_false_2; congruence.
Qed.

Lemma split_twice a o b c :
  o ≠ [] → 3 ≤ length (split (a ++ o ++ b ++ o ++ c) o).
Proof.
  intros Ho. set (s := a ++ o ++ b ++ o ++ c).
  destruct o as [|d o]; [done|]. unfold split.
  destruct (indexOf s (d :: o)) as [j|] eqn:Ej.
  2:{ by destruct (proj1 (indexOf_None _ _) Ej a (b ++ (d :: o) ++ c)). }
  pose proof Ej as Hj.
  apply indexOf_Some in Hj as (a0 & b0 & Hs & -> & Hmin).
  specialize (Hmin a (b ++ (d :: o) ++ c) eq_refl).
  assert (drop (length a0 + length (d :: o)) s
          = drop (length a0 + length (d :: o)) (a ++ (d :: o) ++ b) ++ (d :: o) ++ c)
    as Hrest.
  { unfold s. rewrite <- drop_app_le.
    - by rewrite <- !app_assoc.
    - rewrite !length_app. lia. }
  destruct (length s) as [|fuel] eqn:El.
  { unfold s in El. rewrite !length_app in El. simpl in El. lia. }
  cbn [splitLoop]. rewrite Ej.
  destruct fuel as [|fuel].
  { unfold s in El. rewrite !length_app in El. simpl in El. lia. }
  cbn [splitLoop]. rewrite Hrest.
  set (x := drop (length a0 + length (d :: o)) (a ++ (d :: o) ++ b)).
  destruct (indexOf (x ++ (d :: o) ++ c) (d :: o)) as [j'|] eqn:Ej'.
  2:{ by destruct (proj1 (indexOf_None _ _) Ej' x c). }
  pose proof (splitLoop_nonempty fuel
                (drop (j' + length (d :: o)) (x ++ (d :: o) ++ c)) (d :: o)) as Hne.
  destruct (splitLoop fuel _ _); [done|]. simpl. lia.
Qed.

(** X17. In replace mode, which is the mode unless [append] or [insert]
    is asked for, [edit_file] rewrites the single occurrence of
    [old_string] in the content and keeps what is around it. With
    [replace_all] the new text is put in as it is; without it the new
    text goes through the replacement patterns of
    [String.prototype.replace], where a dollar sign followed by a
    dollar sign, an ampersand, a backtick or an apostrophe is expanded,
    so that it is put in as it is only if it has no dollar sign. *)
Theorem replace_rewrites_the_single_occurrence params path a o b n :
  edit_mode params ≠ Some (str "append") →
  edit_mode params ≠ Some (str "insert") →
  old_string params = Some o → o ≠ [] →
  (∀ a' b', a ++ o ++ b = a' ++ o ++ b' → length a ≤ length a') →
  (∀ x y, b ≠ x ++ o ++ y) →
  edit params path (a ++ o ++ b) n =
    (if default false (replace_all params)
     then EditTo (a ++ n ++ b)
                 (str "Successfully replaced 1 occurrence(s) in " ++ path)
     else EditTo (a ++ getSubstitution o a b n ++ b)
                 (str "Successfully replaced 1 occurrence in " ++ path)) ∧
  ("$"%char ∉ n → getSubstitution o a b n = n).
Proof.
  intros Hnota Hnoti Hold Ho Hfirst Hlast.
  split; [|apply getSubstitution_literal].
  destruct (mode_replace params Hnota Hnoti) as [Ea Ei].
  unfold edit. rewrite Hold, Ea, Ei.
  assert (truthy o = true) as -> by (by destruct o).
  cbn [negb].
  pose proof (indexOf_first a o b Hfirst) as Hidx.
  unfold includes. rewrite Hidx. cbn [negb].
  rewrite (split_single a o b Ho Hfirst Hlast).
  cbn [length Nat.sub Nat.ltb Nat.leb andb].
  destruct (default false (replace_all params)).
  - cbn [join]. done.
  - unfold replace. rewrite Hidx.
    rewrite take_app_length, <- drop_drop, drop_app_length, drop_app_length. done.
Qed.

(** X18. In insert mode with a line number of at least 1, [edit_file]
    puts the lines of the new text before the line of that number, or
    after the last line when the content has fewer lines; the other
    lines are kept, in order. The lines of a text are what
    [split('\n')] gives, and joining them gives the text back. *)
Theorem insert_puts_lines_before_line params path content n (lineNumber : Z) :
  edit_mode params = Some (str "insert") →
  line_number params = Some lineNumber → (1 ≤ lineNumber)%Z →
  let lines := split content [lf] in
  let k := Z.to_nat (lineNumber - 1) `min` length lines in
  ∃ newContent,
    edit params path content n
      = EditTo newContent
          (str "Successfully inserted content at line " ++ decimalZ lineNumber
           ++ str " in " ++ path) ∧
    split newContent [lf] = take k lines ++ split n [lf] ++ drop k lines ∧
    join [lf] lines = content.
Proof.
  intros Hmode Hline Hpos lines k.
  unfold edit. rewrite Hmode, Hline. cbn [truthy str list_ascii_of_string].
  rewrite bool_decide_eq_false_2 by done.
  rewrite bool_decide_eq_true_2 by done.
  assert ((lineNumber <? 1)%Z = false) as -> by lia.
  eexists. split; [reflexivity|].
  fold lines. fold k. split; [|by apply split_join].
  rewrite !split_pieces. unfold lines. rewrite !split_pieces.
  set (ls := pieces lf content).
  assert (Forall (λ x, lf ∉ x) ls) as Hfree.
  { apply Forall_forall. intros x Hx. by apply (pieces_free lf content). }
  rewrite pieces_join by (by destruct (take _ ls)).
  rewrite !fmap_app, !concat_app. cbn [fmap list_fmap concat]. rewrite app_nil_r.
  rewrite !concat_pieces_free; [done|by apply Forall_drop|by apply Forall_take].
Qed.

Lemma endsWith_char s c : endsWith s [c] = true ↔ ∃ r, s = r ++ [c].
Proof.
  unfold endsWith. rewrite startsWith_prefix. split.
  - intros [r Hr]. exists (rev r). apply (f_equal (@rev ascii)) in Hr.
    rewrite rev_involutive in Hr. by rewrite Hr.
  - intros [r ->]. exists (rev r). by rewrite rev_app_distr.
Qed.

(** X19. In append mode [edit_file] puts the new text on a line of its
    own after the content: after the line feed the content ends with,
    or after a line feed that it adds, also when the content is empty.
    The lines of the result are those of the content, without the empty
    one after a final line feed, and then those of the new text. *)
Theorem append_adds_lines_at_the_end params path content n :
  edit_mode params = Some (str "append") →
  ∃ newContent kept,
    edit params path content n
      = EditTo newContent (str "Successfully appended content to " ++ path) ∧
    (content = kept ++ [lf] ∨ (content = kept ∧ ∀ r, content ≠ r ++ [lf])) ∧
    newContent = kept ++ [lf] ++ n ∧
    split newContent [lf] = split kept [lf] ++ split n [lf].
Proof.
  intros Hmode. unfold edit. rewrite Hmode. cbn [truthy str list_ascii_of_string].
  rewrite bool_decide_eq_true_2 by done.
  destruct (endsWith content [lf]) eqn:E.
  - apply endsWith_char in E as [kept ->].
    exists ((kept ++ [lf]) ++ n), kept. split; [done|]. split; [by left|].
    rewrite <- app_assoc. split; [done|].
    rewrite !split_pieces. apply pieces_app.
  - exists (content ++ [lf] ++ n), content. split; [done|]. split.
    + right. split; [done|]. intros r Hr.
      assert (endsWith content [lf] = true) by (apply endsWith_char; by exists r).
      congruence.
    + split; [done|]. rewrite !split_pieces. apply pieces_app.
Qed.


(** X21. In replace mode [edit_file] refuses an [old_string] that the
    content does not have, and, unless [replace_all] is set, one that
    the content has at two places: it fails, and the file is not
    written, whatever [writeFile] would do. *)
Theorem edit_refuses_missing_or_ambiguous params workingDirectory rawPath o n
    content w w1 :
  edit_path params = Some rawPath → rawPath ≠ [] →
  new_string params = Some n →
  edit_mode params ≠ Some (str "append") →
  edit_mode params ≠ Some (str "insert") →
  old_string params = Some o → o ≠ [] →
  readFile (resolvePath resolve isAbsolute home rawPath workingDirectory) w
    = (w1, Done content) →
  ((∀ x y, content ≠ x ++ o ++ y) ∨
   (default false (replace_all params) = false ∧
    ∃ a b c, content = a ++ o ++ b ++ o ++ c)) →
  ∃ error,
    EditFileTool_execute resolve isAbsolute home readFile writeFile
      params workingDirectory w
    = (w1, Returned (Tool_failure error)).
Proof.
  intros Hpath Hraw Hnew Hnota Hnoti Hold Ho Hread Hcase.
  unfold EditFileTool_execute. rewrite Hpath, Hnew.
  assert (truthy rawPath = true) as -> by (by destruct rawPath).
  cbn [negb]. rewrite Hread.
  destruct (mode_replace params Hnota Hnoti) as [Ea Ei].
  unfold edit. rewrite Hold, Ea, Ei.
  assert (truthy o = true) as -> by (by destruct o).
  cbn [negb]. unfold includes.
  destruct Hcase as [Hmissing | [Hoff (a & b & c & ->)]].
  - rewrite (proj2 (indexOf_None content o) Hmissing). cbn [negb]. by eexists.
  - destruct (indexOf _ o) eqn:Ei'; cbn [negb]; [|by eexists].
    rewrite Hoff. pose proof (split_twice a o b c Ho) as Hlen.
    assert ((1 <? length (split (a ++ o ++ b ++ o ++ c) o) - 1) = true) as ->
      by (apply Nat.ltb_lt; lia).
    cbn [negb andb]. by eexists.
Qed.

(** X22. When the directory can be made and the file written,
    [write_file] reports as the number of lines one more than the
    number of line feeds of the content. *)
Theorem write_reports_line_count params workingDirectory rawPath content w w1 w2 u u' :
  write_path params = Some rawPath → rawPath ≠ [] →
  write_content params = Some content →
  let path := resolvePath resolve isAbsolute home rawPath workingDirectory in
  mkdir (dirname path) w = (w1, Done u) →
  writeFile path content w1 = (w2, Done u') →
  WriteFileTool_execute resolve isAbsolute home dirname writeFile mkdir
    params workingDirectory w
  = (w2, Returned
           (Tool_success
              (str "Successfully wrote "
               ++ Planning.decimal (S (length (filter (λ c, c = lf) content)))
               ++ str " lines to " ++ path))).
Proof.
  intros Hpath Hraw Hcontent path Hmkdir Hwrite.
  unfold WriteFileTool_execute. rewrite Hpath, Hcontent.
  assert (truthy rawPath = true) as -> by (by destruct rawPath).
  cbn [negb]. fold path. rewrite Hmkdir, Hwrite.
  by rewrite split_pieces, pieces_length.
Qed.

End EditProperties.
Section MatcherFinds.
Import JS Regex.
Context {R : Type}.
Implicit Types (k : @cont R).

Lemma starLoop_class_finds (p : ascii → bool) k w : ∀ s cap fuel,
  Forall (λ c, p c = true) w → length (w ++ s) < fuel → k s cap ≠ None →
  starLoop (rmatch (Class p)) true k fuel (w ++ s) cap ≠ None.
Proof.
  induction w as [|c w IH]; intros s cap fuel Hw Hfuel Hk;
    destruct fuel as [|fuel]; try lia; cbn [starLoop app].
  - unfold orElse. by destruct (rmatch _ _ _ _).
  - apply Forall_cons in Hw as [Hc Hw]. cbn [rmatch]. rewrite Hc.
    assert ((length (w ++ s) <? length (c :: w ++ s)) = true) as ->
      by (apply Nat.ltb_lt; simpl; lia).
    pose proof (IH s cap fuel Hw ltac:(simpl in Hfuel; lia) Hk) as Hmore.
    unfold orElse. by destruct (starLoop _ _ _ _ _ _).
Qed.

Lemma rmatch_Plus_class_finds (p : ascii → bool) k w s cap :
  w ≠ [] → Forall (λ c, p c = true) w → k s cap ≠ None →
  rmatch (Plus (Class p)) (w ++ s) cap k ≠ None.
Proof.
  intros Hne Hw Hk. destruct w as [|c w]; [done|].
  apply Forall_cons in Hw as [Hc Hw]. cbn [rmatch app]. rewrite Hc.
  apply starLoop_class_finds; [done|lia|done].
Qed.

Lemma rmatch_Star_class_finds (p : ascii → bool) k w s cap :
  Forall (λ c, p c = true) w → k s cap ≠ None →
  rmatch (Star true (Class p)) (w ++ s) cap k ≠ None.
Proof. intros Hw Hk. cbn [rmatch]. apply starLoop_class_finds; [done|lia|done]. Qed.

End MatcherFinds.

Section BashProperties.
Import JS Regex Effect Agent Tools.

Lemma search_unfold r s i :
  search r s i =
    match matchHere r s with
    | Some (rest, cap) => Some (mkMatch i (take (length s - length rest) s) cap)
    | None => match s with [] => None | _ :: s' => search r s' (S i) end
    end.
Proof. by destruct s. Qed.

Lemma search_finds r a t : ∀ i, matchHere r t ≠ None → search r (a ++ t) i ≠ None.
Proof.
  induction a as [|c a IH]; intros i Ht; rewrite search_unfold.
  - cbn [app]. by destruct (matchHere r t) as [[rest cap]|].
  - cbn [app]. destruct (matchHere r (c :: a ++ t)) as [[rest cap]|]; [done|]. apply IH, Ht.
Qed.

Lemma test_finds r a t : matchHere r t ≠ None → test r (a ++ t) = true.
Proof.
  intros Ht. unfold test. pose proof (search_finds r a t 0 Ht).
  by destruct (search r (a ++ t) 0).
Qed.

Lemma testRemoveRoot_unfold s :
  testRemoveRoot s =
    match rmatch removeRoot s None noWordAhead with
    | Some _ => true
    | None => match s with [] => false | _ :: s' => testRemoveRoot s' end
    end.
Proof. by destruct s. Qed.

Lemma testRemoveRoot_finds a t :
  rmatch removeRoot t None noWordAhead ≠ None → testRemoveRoot (a ++ t) = true.
Proof.
  induction a as [|c a IH]; intros Ht; rewrite testRemoveRoot_unfold.
  - cbn [app]. by destruct (rmatch removeRoot t None noWordAhead).
  - cbn [app]. destruct (rmatch removeRoot (c :: a ++ t) None noWordAhead); [done|]. apply IH, Ht.
Qed.

Lemma makeFilesystem_blocked a b : dangerous (a ++ str "mkfs." ++ b) = true.
Proof.
  unfold dangerous. rewrite (test_finds makeFilesystem).
  - by rewrite !orb_true_r.
  - unfold matchHere, makeFilesystem. by rewrite rmatch_Lit.
Qed.

Lemma diskDump_blocked a ws b :
  blank ws → dangerous (a ++ str "dd" ++ ws ++ str "if=" ++ b) = true.
Proof.
  intros [Hne Hws]. unfold dangerous. rewrite (test_finds diskDump).
  - by rewrite !orb_true_r.
  - unfold matchHere, diskDump. cbn [seq].
    rewrite rmatch_Seq, (rmatch_Lit (str "dd")), rmatch_Seq.
    apply (rmatch_Plus_class_finds space); [done|done|].
    by rewrite (rmatch_Lit (str "if=")).
Qed.

Lemma removeRoot_blocked a ws ws' b :
  blank ws → blank ws' →
  noWordFirst b →
  dangerous (a ++ str "rm" ++ ws ++ str "-rf" ++ ws' ++ str "/" ++ b) = true.
Proof.
  intros [Hne Hws] [Hne' Hws'] Hb. unfold dangerous.
  rewrite testRemoveRoot_finds; [done|].
  unfold removeRoot. cbn [seq].
  rewrite rmatch_Seq, (rmatch_Lit (str "rm")), rmatch_Seq.
  apply (rmatch_Plus_class_finds space); [done|done|].
  rewrite rmatch_Seq, (rmatch_Lit (str "-rf")), rmatch_Seq.
  apply (rmatch_Plus_class_finds space); [done|done|].
  rewrite (rmatch_Lit (str "/")).
  unfold noWordAhead. destruct b as [|c b]; [done|]. simpl in Hb. by rewrite Hb.
Qed.

Lemma forkBomb_blocked a body b :
  Forall (λ c, isLineTerminator c = false) body →
  dangerous (a ++ str ":(){" ++ body ++ str "}" ++ b) = true.
Proof.
  intros Hbody. unfold dangerous. rewrite (test_finds forkBomb).
  - by rewrite !orb_true_r.
  - unfold matchHere, forkBomb. cbn [seq].
    rewrite rmatch_Seq, (rmatch_Lit (str ":(){")), rmatch_Seq.
    apply (rmatch_Star_class_finds dot).
    + eapply Forall_impl; [exact Hbody|]. intros c Hc. unfold dot. by rewrite Hc.
    + by rewrite (rmatch_Lit (str "}")).
Qed.


Section BashSafety.
Context {W : Type}.
Variable resolve : jsstring → jsstring → jsstring.
Variable isAbsolute : jsstring → bool.
Variable home : jsstring.
Variable execAsync : jsstring → jsstring → N → W → W * Verifier.Settled.

(** X23. [bash] blocks a command that has, anywhere in it, [mkfs.], or
    [dd] and [if=] with white space between them, or [rm], [-rf] and a
    slash with white space between them and no word character after the
    slash, or [:(){] and later on the same line a closing brace: it
    fails with the notice of the block, and the shell is not run,
    whatever it would do. *)
Theorem dangerous_commands_never_reach_the_shell params workingDirectory command w :
  bash_command params = Some command →
  ((∃ a b, command = a ++ str "mkfs." ++ b) ∨
   (∃ a ws b, blank ws ∧ command = a ++ str "dd" ++ ws ++ str "if=" ++ b) ∨
   (∃ a ws ws' b, blank ws ∧ blank ws' ∧ noWordFirst b ∧
      command = a ++ str "rm" ++ ws ++ str "-rf" ++ ws' ++ str "/" ++ b) ∨
   (∃ a body b, Forall (λ c, isLineTerminator c = false) body ∧
      command = a ++ str ":(){" ++ body ++ str "}" ++ b)) →
  BashTool_execute resolve isAbsolute home execAsync params workingDirectory w
  = (w, Returned
          (Tool_failure (str "This command has been blocked for safety reasons."))).
Proof.
  intros Hcommand Hshape.
  assert (dangerous command = true) as Hd.
  { destruct Hshape as [(a & b & ->) | [(a & ws & b & Hws & ->)
      | [(a & ws & ws' & b & Hws & Hws' & Hb & ->) | (a & body & b & Hbody & ->)]]].
    - apply makeFilesystem_blocked.
    - by apply diskDump_blocked.
    - by apply removeRoot_blocked.
    - by apply forkBomb_blocked. }
  unfold BashTool_execute. rewrite Hcommand.
  destruct command as [|c command]; [done|].
  cbn [truthy negb]. by rewrite Hd.
Qed.


End BashSafety.
End BashProperties.
(** * Properties of the planner *)

Section PatternProperties.
Import JS Regex Pattern.

Implicit Types (x y z : MatchState) (k : continuation).

Lemma ahead_refl x : ahead x x.
Proof. by split. Qed.

Lemma ahead_trans x y z : ahead x y → ahead y z → ahead x z.
Proof. unfold ahead. lia. Qed.

Lemma repeatMatcher_ahead step inner greedy k :
  (∀ x k z, step x k = Some z → ∃ y, ahead x y ∧ k y = Some z) →
  ∀ fuel min max x z,
    repeatMatcher step inner greedy k fuel min max x = Some z →
    ∃ y, ahead x y ∧ k y = Some z.
Proof.
  intros Hstep. induction fuel as [|fuel IH]; intros min max x z H; [done|].
  cbn [repeatMatcher] in H.
  case_bool_decide; [exists x; split; [apply ahead_refl|done]|].
  assert (∀ z,
    step (clear inner x)
      (λ y, if (min =? 0) && (endIndex y =? endIndex x) then None
            else repeatMatcher step inner greedy k fuel (pred min) (pred <$> max) y)
    = Some z → ∃ y, ahead x y ∧ k y = Some z) as Hmore.
  { intros z' Hz. apply Hstep in Hz as (y1 & Hy1 & Hd).
    destruct ((min =? 0) && (endIndex y1 =? endIndex x)); [done|].
    apply IH in Hd as (y2 & Hy2 & Hk). exists y2. split; [|done].
    eapply ahead_trans; [|exact Hy2]. exact Hy1. }
  destruct (negb (min =? 0)); [by apply Hmore|].
  destruct greedy; unfold orElse in H.
  - destruct (step _ _) as [z'|] eqn:E.
    + simplify_eq. by apply Hmore.
    + exists x. split; [apply ahead_refl|done].
  - destruct (k x) as [z'|] eqn:E.
    + simplify_eq. exists x. split; [apply ahead_refl|done].
    + by apply Hmore.
Qed.

Lemma pmatch_ahead ignoreCase r : ∀ x k z,
  pmatch ignoreCase r x k = Some z → ∃ y, ahead x y ∧ k y = Some z.
Proof.
  induction r as [c|p|r1 IH1 r2 IH2|r1 IH1 r2 IH2|min max greedy r1 IH1|n r1 IH1| | |r1 IH1];
    intros x k z H; cbn [pmatch] in H.
  - destruct (rest x) as [|d s'] eqn:E; [done|]. case_bool_decide; [|done].
    eexists. split; [|exact H]. unfold ahead. rewrite E. simpl. lia.
  - destruct (rest x) as [|d s'] eqn:E; [done|]. destruct (p d); [|done].
    eexists. split; [|exact H]. unfold ahead. rewrite E. simpl. lia.
  - apply IH1 in H as (y1 & Hy1 & H). apply IH2 in H as (y2 & Hy2 & H).
    exists y2. split; [by eapply ahead_trans|done].
  - unfold orElse in H. destruct (pmatch ignoreCase r1 x k) eqn:E.
    + simplify_eq. by apply IH1.
    + by apply IH2.
  - by eapply repeatMatcher_ahead in H.
  - apply IH1 in H as (y & Hy & H). eexists. split; [|exact H]. exact Hy.
  - destruct (endIndex x =? 0); [|done]. exists x. split; [apply ahead_refl|done].
  - destruct (rest x); [|done]. exists x. split; [apply ahead_refl|done].
  - destruct (pmatch ignoreCase r1 x Some) as [y|]; [|done].
    eexists. split; [|exact H]. by split.
Qed.

Lemma consuming_plus_set ignoreCase n p greedy :
  consuming ignoreCase (PCapture n (PRepeat 1 None greedy (PSet p))).
Proof.
  intros x k z H. cbn [pmatch repeatMatcher] in H.
  rewrite bool_decide_eq_false_2 in H by done. cbn [Nat.eqb negb] in H.
  cbn [groups] in H.
  change (clear [] x) with (mkMatchState (endIndex x) (rest x) (captures x)) in H.
  cbn [rest endIndex captures] in H.
  destruct (rest x) as [|d s'] eqn:E; [done|]. destruct (p d); [|done].
  cbn [andb Nat.eqb] in H.
  eapply repeatMatcher_ahead in H as (y & Hy & H).
  2:{ intros x' k' z' H'. by apply (pmatch_ahead ignoreCase (PSet p)). }
  eexists. split_and!; [| |exact H].
  - destruct Hy as [Hy1 Hy2]. cbn in Hy1, Hy2. split; cbn; rewrite ?E; simpl; lia.
  - destruct Hy as [Hy1 Hy2]. cbn in Hy1. cbn. lia.
Qed.

Lemma consuming_cat_l ignoreCase r1 r2 :
  consuming ignoreCase r1 → consuming ignoreCase (PCat r1 r2).
Proof.
  intros H1 x k z H. cbn [pmatch] in H.
  apply H1 in H as (y1 & Hy1 & Hlt & H).
  apply pmatch_ahead in H as (y2 & Hy2 & H).
  exists y2. split_and!; [by eapply ahead_trans| |done].
  destruct Hy2. lia.
Qed.

Lemma consuming_cat_r ignoreCase r1 r2 :
  consuming ignoreCase r2 → consuming ignoreCase (PCat r1 r2).
Proof.
  intros H2 x k z H. cbn [pmatch] in H.
  apply pmatch_ahead in H as (y1 & Hy1 & H).
  apply H2 in H as (y2 & Hy2 & Hlt & H).
  exists y2. split_and!; [by eapply ahead_trans| |done].
  destruct Hy1. lia.
Qed.

Lemma consuming_numberedPattern : consuming false Planner.numberedPattern.
Proof.
  unfold Planner.numberedPattern. cbn [cat].
  do 2 apply consuming_cat_r. apply consuming_cat_l, consuming_plus_set.
Qed.

Lemma consuming_taskPattern : consuming true Planner.taskPattern.
Proof.
  unfold Planner.taskPattern. cbn [cat].
  do 2 apply consuming_cat_r. apply consuming_cat_l, consuming_plus_set.
Qed.

Lemma searchFrom_unfold ignoreCase r nGroups i s :
  searchFrom ignoreCase r nGroups i s =
    match pmatch ignoreCase r (mkMatchState i s (replicate nGroups None)) Some with
    | Some y => Some y
    | None => match s with [] => None | _ :: s' => searchFrom ignoreCase r nGroups (S i) s' end
    end.
Proof. by destruct s. Qed.

Lemma searchFrom_consuming ignoreCase r nGroups :
  consuming ignoreCase r →
  ∀ s i z, searchFrom ignoreCase r nGroups i s = Some z →
    i < endIndex z ∧ endIndex z ≤ i + length s.
Proof.
  intros Hr. induction s as [|c s IH]; intros i z H; rewrite searchFrom_unfold in H.
  - destruct (pmatch _ _ _ _) as [y|] eqn:E; [|done]. simplify_eq.
    apply Hr in E as (y & [Hy1 Hy2] & Hlt & Hk). simplify_eq. cbn in *. lia.
  - destruct (pmatch _ _ _ _) as [y|] eqn:E.
    + simplify_eq. apply Hr in E as (y & [Hy1 Hy2] & Hlt & Hk). simplify_eq.
      cbn in *. lia.
    + apply IH in H. simpl. lia.
Qed.

Lemma exec_consuming ignoreCase r nGroups input lastIndex z :
  consuming ignoreCase r →
  exec ignoreCase r nGroups input lastIndex = Some z →
  lastIndex < endIndex z ∧ endIndex z ≤ length input.
Proof.
  intros Hr H. unfold exec in H.
  destruct (Nat.ltb_spec (length input) lastIndex) as [|Hle]; [done|].
  apply (searchFrom_consuming _ _ _ Hr) in H. rewrite length_drop in H. lia.
Qed.

(** The loop over the matches ends by a search that fails: any fuel
    above the length of the input gives the same matches. *)
Lemma execLoop_fuel ignoreCase r nGroups input :
  consuming ignoreCase r →
  ∀ fuel1 fuel2 lastIndex,
    length input < fuel1 + lastIndex → length input < fuel2 + lastIndex →
    execLoop ignoreCase r nGroups input fuel1 lastIndex
    = execLoop ignoreCase r nGroups input fuel2 lastIndex.
Proof.
  intros Hr. induction fuel1 as [|fuel1 IH]; intros fuel2 lastIndex H1 H2.
  - destruct fuel2 as [|fuel2]; [done|]. cbn [execLoop]. unfold exec.
    destruct (Nat.ltb_spec (length input) lastIndex); [done|lia].
  - destruct fuel2 as [|fuel2]; cbn [execLoop].
    + unfold exec. destruct (Nat.ltb_spec (length input) lastIndex); [done|lia].
    + destruct (exec ignoreCase r nGroups input lastIndex) as [y|] eqn:E; [|done].
      apply (exec_consuming _ _ _ _ _ _ Hr) in E as [Hlt Hle].
      f_equal. apply IH; lia.
Qed.

End PatternProperties.

Section PlannerProperties.
Import Effect Planning Pattern Planner.

Lemma chained_lookup tasks i t :
  chained tasks !! i = Some t →
  ∃ t0, tasks !! i = Some t0 ∧ in_title t = in_title t0 ∧
        in_description t = in_description t0 ∧
        in_dependencies t
        = (if i =? 0 then in_dependencies t0 else [str "task-" ++ decimal i]).
Proof.
  unfold chained. rewrite list_lookup_imap.
  destruct (tasks !! i) as [t0|]; [|done]. simpl. intros [= <-].
  exists t0. split; [done|]. by destruct i.
Qed.

Lemma fallbackTask_dependencies y t :
  fallbackTask y = Some t → in_dependencies t = [].
Proof.
  unfold fallbackTask. destruct (captures y !! 1) as [[title|]|]; [|done..].
  by intros [= <-].
Qed.

Lemma fallbackTasks_dependencies patterns response : ∀ tasks,
  fallbackTasks patterns response = Some tasks →
  Forall (λ t, in_dependencies t = []) tasks.
Proof.
  induction patterns as [|[ignoreCase r] more IH]; intros tasks H; cbn [fallbackTasks] in H.
  - by simplify_eq.
  - destruct (mapM fallbackTask (allMatches ignoreCase r response)) as [ts|] eqn:E;
      [|done].
    cbn in H. destruct ts as [|t ts]; [by apply IH|]. simplify_eq.
    apply mapM_Some in E. apply Forall_forall. intros u Hu.
    apply list_elem_of_lookup in Hu as [i Hi].
    destruct (Forall2_lookup_r _ _ _ _ _ E Hi) as (y & _ & Hy).
    by eapply fallbackTask_dependencies.
Qed.

Lemma parsePlanFallback_Some response parsed :
  parsePlanFallback response = Some (Some parsed) →
  ∃ tasks, tasks ≠ [] ∧ Forall (λ t, in_dependencies t = []) tasks ∧
    parsed = mkParsedPlan (str "Implementation plan extracted from AI response.")
               (chained tasks) (mkVerifyCommands None None None).
Proof.
  unfold parsePlanFallback.
  destruct (fallbackTasks taskPatterns response) as [tasks|] eqn:E; [|done].
  cbn. destruct tasks as [|t ts] eqn:Ets; [done|]. intros [= <-].
  exists (t :: ts). split; [done|]. split; [|done].
  by eapply fallbackTasks_dependencies.
Qed.

Lemma readTasks_grows taskMatches : ∀ tasks tasks',
  readTasks taskMatches tasks = Some tasks' → length tasks ≤ length tasks'.
Proof.
  induction taskMatches as [|m ms IH]; intros tasks tasks' H; cbn [readTasks] in H.
  - by simplify_eq.
  - destruct (Regex.group1 m) as [taskContent|]; [|done]. cbn in H.
    destruct (readTask taskContent) as [pushed|]; [|done]. cbn in H.
    apply IH in H. destruct pushed; [rewrite length_app in H; simpl in H|]; lia.
Qed.

Lemma parsePlanResponse_tasks response parsed :
  parsePlanResponse response = Some parsed → parsed_tasks parsed ≠ [].
Proof.
  assert (∀ r, mjoin (parsePlanFallback r) = Some parsed → parsed_tasks parsed ≠ [])
    as Hfallback.
  { intros r H. destruct (parsePlanFallback r) as [[q|]|] eqn:E; try done.
    cbn in H. simplify_eq. apply parsePlanFallback_Some in E as (tasks & Hne & _ & ->).
    cbn. unfold chained. intros Hnil. apply (f_equal length) in Hnil.
    rewrite length_imap in Hnil. by destruct tasks. }
  unfold parsePlanResponse.
  destruct (Regex.search planRegex response 0) as [planMatch|]; [|apply Hfallback].
  destruct (Regex.group1 planMatch) as [planContent|]; [|done]. cbn.
  destruct (match Regex.search summaryRegex planContent 0 with
            | Some summaryMatch => _ | None => _ end) as [summary|]; [|done].
  cbn.
  destruct (match Regex.search verifyRegex planContent 0 with
            | Some verifyMatch => _ | None => _ end) as [verifyCommands|]; [|done].
  cbn.
  destruct (readTasks _ []) as [tasks|]; [|done]. cbn.
  destruct tasks as [|t ts]; [apply Hfallback|].
  cbn. by intros [= <-].
Qed.

Section Fallback.
Variables uuid8 now dir : jsstring.

(** X28. When [parsePlanFallback] finds a plan, the plan that the
    manager creates from it is a chain: it has at least one task, the
    first task depends on nothing and every other task on exactly the
    task before it, so every dependency names an earlier task; the
    summary is the fixed text and there is no verification command.
    The loops over the matches of the two patterns end: their matches
    are never empty, and any fuel above the length of the response
    gives the same matches. *)
Theorem fallback_plan_is_a_chain goal response parsed m :
  parsePlanFallback response = Some (Some parsed) →
  let p :=
    (Planning.createPlan uuid8 now dir goal (parsed_summary parsed)
       (parsed_tasks parsed) m).1 in
  tasks p ≠ [] ∧
  (∀ t, tasks p !! 0 = Some t → dependencies t = []) ∧
  (∀ i t, tasks p !! S i = Some t →
     ∃ t', tasks p !! i = Some t' ∧ dependencies t = [id t']) ∧
  backwardDeps (tasks p) ∧
  summary p = str "Implementation plan extracted from AI response." ∧
  verifyCommands p = mkVerifyCommands None None None ∧
  (∀ ignoreCase r fuel,
     (ignoreCase, r) ∈ taskPatterns → length response < fuel →
     execLoop ignoreCase r 3 response fuel 0 = allMatches ignoreCase r response).
Proof.
  intros H p. apply parsePlanFallback_Some in H as (tasks0 & Hne & Hdeps & ->).
  cbn [parsed_tasks parsed_summary] in p.
  set (ts := tasks p).
  assert (∀ i t, ts !! i = Some t →
            id t = str "task-" ++ decimal (i + 1) ∧
            dependencies t = (if i =? 0 then [] else [str "task-" ++ decimal i]))
    as Hshape.
  { intros i t Hi. unfold ts, p, Planning.createPlan in Hi. cbn [fst tasks] in Hi.
    rewrite list_lookup_imap in Hi.
    destruct (chained tasks0 !! i) as [u|] eqn:Eu; [|done]. cbn in Hi. simplify_eq.
    cbn. split; [done|].
    apply chained_lookup in Eu as (t0 & Ht0 & _ & _ & ->).
    destruct i; [|done]. cbn.
    rewrite Forall_forall in Hdeps. apply Hdeps.
    by apply list_elem_of_lookup_2 in Ht0. }
  assert (length ts = length tasks0) as Hlen.
  { unfold ts, p, Planning.createPlan, chained. cbn [fst tasks]. by rewrite !length_imap. }
  split_and!.
  - intros Hnil. rewrite Hnil in Hlen. by destruct tasks0.
  - intros t Ht. by apply Hshape in Ht as [_ ->].
  - intros i t Ht. pose proof (lookup_lt_Some _ _ _ Ht) as Hlt.
    destruct (lookup_lt_is_Some_2 ts i ltac:(lia)) as [t' Ht'].
    exists t'. split; [done|].
    apply Hshape in Ht as [_ ->]. apply Hshape in Ht' as [-> _].
    cbn. by rewrite Nat.add_1_r.
  - intros i t d Ht Hd. pose proof Ht as Ht0.
    apply Hshape in Ht as [_ Hdep]. rewrite Hdep in Hd.
    destruct i as [|i]; cbn in Hd; [by apply not_elem_of_nil in Hd|].
    apply list_elem_of_singleton in Hd as ->.
    exists i. split; [lia|].
    pose proof (lookup_lt_Some _ _ _ Ht0) as Hlt.
    destruct (lookup_lt_is_Some_2 ts i ltac:(lia)) as [t' Ht'].
    rewrite list_lookup_fmap, Ht'. cbn.
    apply Hshape in Ht' as [-> _]. by rewrite Nat.add_1_r.
  - done.
  - done.
  - intros ignoreCase r fuel Hin Hfuel. unfold allMatches.
    apply execLoop_fuel; [|lia..].
    unfold taskPatterns in Hin.
    apply elem_of_cons in Hin as [Hin|Hin].
    { simplify_eq. apply consuming_numberedPattern. }
    apply list_elem_of_singleton in Hin. simplify_eq. apply consuming_taskPattern.
Qed.

End Fallback.

Section CreatePlan.
Context {W : Type}.
Variable agent : Agent.AgentConfig W.
Variable buildSystemPrompt : Context.ConversationContext → jsstring.
Variables uuid8 now dir : jsstring.

(** X27. [Planner.createPlan] never throws and never installs a plan
    without tasks. Either it reports a success, and the manager then
    holds the plan it returns: a draft for the goal, with at least one
    task, all tasks pending with no attempt made, the cursor at 0, not
    approved. Or it reports a failure with an error text, and the plan
    manager is as it was. *)
Theorem planner_never_plans_without_tasks goal (st : Planner.State W) :
  ∃ res,
    (Planner.createPlan agent buildSystemPrompt uuid8 now dir goal st).2
      = Returned res ∧
    let st' := (Planner.createPlan agent buildSystemPrompt uuid8 now dir goal st).1 in
    if success res then
      ∃ p, plan (planManager st') = Some p ∧ created_plan res = Some p ∧
           error res = None ∧
           plan_status p = plan_draft ∧ Planning.goal p = goal ∧
           tasks p ≠ [] ∧ currentTaskIndex p = 0 ∧
           Forall (λ t, status t = pending ∧ attempts t = 0) (tasks p) ∧
           isApproved (planManager st') = false
    else
      planManager st' = planManager st ∧ created_plan res = None ∧
      is_Some (error res).
Proof.
  unfold Planner.createPlan, tryCatch, bind, agentRun.
  destruct (Agent.run agent buildSystemPrompt _ _) as [ast [response|e]].
  2:{ eexists. split; [reflexivity|]. cbn. by split_and!. }
  destruct (parsePlanResponse response) as [parsed|] eqn:Eparse.
  2:{ eexists. split; [reflexivity|]. cbn. by split_and!. }
  pose proof (parsePlanResponse_tasks _ _ Eparse) as Hne.
  eexists. split; [reflexivity|]. cbn.
  eexists. split_and!; try reflexivity.
  - cbn. intros Hnil. apply (f_equal length) in Hnil.
    rewrite length_imap in Hnil. by destruct (parsed_tasks parsed).
  - cbn. apply Forall_forall. intros t Ht.
    apply list_elem_of_lookup in Ht as [i Hi]. rewrite list_lookup_imap in Hi.
    destruct (parsed_tasks parsed !! i); [|done]. cbn in Hi. by simplify_eq.
Qed.

End CreatePlan.
End PlannerProperties.

Section CleanProperties.
Import JS Regex.

Implicit Types (a b s t w : jsstring).

Lemma clean_nil w : clean w [].
Proof. intros j s Hj. simpl in Hj. lia. Qed.

Lemma clean_app w a b : clean w a → clean w b → clean w (a ++ b).
Proof.
  intros Ha Hb j s Hj. destruct (Nat.lt_ge_cases j (length a)) as [Hlt|Hge].
  - rewrite drop_app_le by lia. rewrite <- app_assoc. by apply Ha.
  - rewrite drop_app_ge by lia. apply Hb. rewrite length_app in Hj. lia.
Qed.

Lemma clean_text c w a : c ∉ a → clean (c :: w) a.
Proof.
  intros Hc j s Hj. destruct (drop j a) as [|d r] eqn:E.
  { apply (f_equal length) in E. rewrite length_drop in E. simpl in E. lia. }
  cbn [app startsWith]. rewrite bool_decide_eq_false_2; [done|].
  intros ->. apply Hc. rewrite <- (take_drop j a), E. apply elem_of_app. right. by left.
Qed.

Lemma clean_concat w (xs : list jsstring) : Forall (clean w) xs → clean w (concat xs).
Proof.
  induction 1 as [|x xs Hx _ IH]; [apply clean_nil|]. by apply clean_app.
Qed.

Lemma clean_cons w c a : clean w (c :: a) → clean w a.
Proof. intros H j s Hj. apply (H (S j) s). simpl. lia. Qed.

Lemma clean_head w c a s : clean w (c :: a) → startsWith (c :: a ++ s) w = false.
Proof. intros H. apply (H 0 s). simpl. lia. Qed.

Lemma indexOf_from_clean w a s : ∀ i,
  clean w a → indexOf_from (a ++ s) w i = indexOf_from s w (i + length a).
Proof.
  induction a as [|c a IH]; intros i Ha.
  - simpl. by rewrite Nat.add_0_r.
  - cbn [app indexOf_from]. rewrite (clean_head w c a s Ha).
    rewrite IH by (by eapply clean_cons). f_equal. simpl. lia.
Qed.

Lemma indexOf_clean w a s :
  clean w a → indexOf (a ++ w ++ s) w = Some (length a).
Proof.
  intros Ha. unfold indexOf. rewrite indexOf_from_clean by done.
  destruct (w ++ s) eqn:E; simpl; rewrite <- ?E, ?startsWith_app; [|done].
  destruct w; [done|done].
Qed.

Lemma search_clean o r a s : ∀ i,
  clean o a →
  search (Seq (Lit o) r) (a ++ s) i = search (Seq (Lit o) r) s (i + length a).
Proof.
  induction a as [|c a IH]; intros i Ha.
  - simpl. by rewrite Nat.add_0_r.
  - cbn [app search]. unfold matchHere at 1. cbn [rmatch].
    rewrite (clean_head o c a s Ha).
    rewrite IH by (by eapply clean_cons). f_equal. simpl. lia.
Qed.

Lemma search_clean_none o r a : ∀ i,
  clean o a → startsWith [] o = false → search (Seq (Lit o) r) a i = None.
Proof.
  intros i Ha Ho. rewrite <- (app_nil_r a), search_clean by done.
  cbn [search]. unfold matchHere. cbn [rmatch]. by rewrite Ho.
Qed.

Lemma firstSuffix_clean {R} (K : jsstring → option R) c a s :
  clean c a → (∀ t, startsWith t c = false → K t = None) →
  firstSuffix K (a ++ s) = firstSuffix K s.
Proof.
  intros Ha HK. apply firstSuffix_skip. intros j Hj.
  apply HK. rewrite drop_app_le by lia. by apply Ha.
Qed.

(** The leftmost match of an enclosing pattern. *)
Lemma enclosed_search o c pre body post i :
  clean o pre → clean c body →
  search (Planner.enclosed o c) (pre ++ o ++ body ++ c ++ post) i
  = Some (mkMatch (i + length pre) (o ++ body ++ c) (Some body)).
Proof.
  intros Hpre Hbody. unfold Planner.enclosed. cbn [seq].
  rewrite search_clean by done.
  set (t0 := body ++ c ++ post).
  set (kf := λ (s' : jsstring) (cap : option jsstring), Some (s', cap)).
  assert (matchHere (Seq (Lit o) (Seq (Group (Star false (Class anyChar))) (Lit c)))
            (o ++ t0) = Some (post, Some body)) as Hm.
  { unfold matchHere. rewrite rmatch_Seq, rmatch_Lit, rmatch_Seq, rmatch_Group, rmatch_Star.
    rewrite starLoop_lazy_any by lia.
    set (K := λ t : jsstring,
           rmatch (Lit c) t (Some (take (length t0 - length t) t0)) kf).
    change (firstSuffix K t0 = Some (post, Some body)).
    unfold t0 at 1. rewrite (firstSuffix_clean K c body) ; [|done|].
    2:{ intros t Ht. unfold K. cbn [rmatch]. by rewrite Ht. }
    apply firstSuffix_Some. unfold K. rewrite rmatch_Lit. unfold kf. do 3 f_equal.
    unfold t0. rewrite !length_app.
    replace (length body + (length c + length post) - (length c + length post))
      with (length body) by lia.
    apply take_app_length. }
  rewrite (search_here _ _ _ _ _ Hm). do 2 f_equal.
  unfold t0. rewrite !length_app.
  replace (length o + (length body + (length c + length post)) - length post)
    with (length (o ++ body ++ c)) by (rewrite !length_app; lia).
  rewrite !app_assoc. rewrite take_app_length'; [done|]. by rewrite !length_app.
Qed.

Lemma lazy_group_until c body post cap :
  clean c body →
  rmatch (Seq (Group (Star false (Class anyChar))) (Lit c)) (body ++ c ++ post) cap
    (λ s' cap', Some (s', cap'))
  = Some (post, Some body).
Proof.
  intros Hbody. set (t0 := body ++ c ++ post).
  set (kf := λ (s' : jsstring) (cap : option jsstring), Some (s', cap)).
  rewrite rmatch_Seq, rmatch_Group, rmatch_Star.
  rewrite starLoop_lazy_any by lia.
  set (K := λ t : jsstring,
         rmatch (Lit c) t (Some (take (length t0 - length t) t0)) kf).
  change (firstSuffix K t0 = Some (post, Some body)).
  unfold t0 at 1. rewrite (firstSuffix_clean K c body); [|done|].
  2:{ intros t Ht. unfold K. cbn [rmatch]. by rewrite Ht. }
  apply firstSuffix_Some. unfold K. rewrite rmatch_Lit. unfold kf. do 3 f_equal.
  unfold t0. rewrite !length_app.
  replace (length body + (length c + length post) - (length c + length post))
    with (length body) by lia.
  apply take_app_length.
Qed.

(** The leftmost match of the pattern of a task block. *)
Lemma taskRegex_search pre attrs body post i :
  clean (str "<task") pre → ">"%char ∉ attrs → clean (str "</task>") body →
  search Planner.taskRegex
    (pre ++ str "<task" ++ attrs ++ str ">" ++ body ++ str "</task>" ++ post) i
  = Some (mkMatch (i + length pre)
            (str "<task" ++ attrs ++ str ">" ++ body ++ str "</task>") (Some body)).
Proof.
  intros Hpre Hattrs Hbody. unfold Planner.taskRegex. cbn [seq].
  rewrite search_clean by done.
  set (t := str "<task" ++ attrs ++ str ">" ++ body ++ str "</task>" ++ post).
  assert (matchHere
            (Seq (Lit (str "<task"))
               (Seq (Star true (Class (noneOf (str ">"))))
                  (Seq (Lit (str ">"))
                     (Seq (Group (Star false (Class anyChar))) (Lit (str "</task>"))))))
            t = Some (post, Some body)) as Hm.
  { unfold matchHere, t. rewrite rmatch_Seq, rmatch_Lit, rmatch_Seq, rmatch_Star.
    rewrite starLoop_greedy_class; [| |done|lia].
    2:{ apply Forall_forall. intros c Hc. unfold noneOf.
        rewrite bool_decide_eq_false_2; [done|].
        intros Hin. apply list_elem_of_singleton in Hin as ->. done. }
    apply backtrack_Some.
    rewrite rmatch_Seq, (rmatch_Lit (str ">")).
    by apply lazy_group_until. }
  rewrite (search_here _ _ _ _ _ Hm). do 2 f_equal.
  unfold t. rewrite !app_assoc. rewrite take_app_length'; [done|].
  rewrite !length_app. simpl. lia.
Qed.

End CleanProperties.

(** A concrete text in which no occurrence of a concrete text starts. *)
Ltac clean_tag :=
  let j := fresh "j" in let s := fresh "s" in let Hj := fresh "Hj" in
  intros j s Hj; repeat (destruct j as [|j]; [reflexivity|]); simpl in Hj; lia.

Ltac clean_parts :=
  repeat first
    [ assumption
    | apply clean_nil
    | apply clean_text; assumption
    | apply clean_text; solve [auto]
    | clean_tag
    | apply clean_app ].



Section PlanTextProperties.
Import JS Regex Planning Planner.

Lemma decimal_loop_digits fuel : ∀ n acc c,
  c ∈ decimal_loop fuel n acc → c ∈ acc ∨ ∃ d, d < 10 ∧ c = digit d.
Proof.
  induction fuel as [|fuel IH]; intros n acc c Hc; cbn [decimal_loop] in Hc; [by left|].
  assert (c ∈ digit (n mod 10) :: acc → c ∈ acc ∨ ∃ d, d < 10 ∧ c = digit d) as Hacc.
  { intros [->|H]%elem_of_cons; [right|by left].
    exists (n mod 10). split; [apply Nat.mod_upper_bound; lia|done]. }
  destruct (n / 10 =? 0); [by apply Hacc|].
  apply IH in Hc as [Hc|Hc]; [by apply Hacc|by right].
Qed.

Lemma decimal_digits n c : c ∈ decimal n → ∃ d, d < 10 ∧ c = digit d.
Proof.
  intros Hc. apply decimal_loop_digits in Hc as [Hc|Hc]; [|done].
  by apply not_elem_of_nil in Hc.
Qed.

Lemma digit_plain d :
  d < 10 →
  digit d ≠ "<"%char ∧ digit d ≠ ","%char ∧ isWhiteSpace (digit d) = false.
Proof. intros Hd. do 10 (destruct d as [|d]; [done|]). lia. Qed.

Lemma decimal_nonempty n : decimal n ≠ [].
Proof.
  intros H. pose proof (decimal_value n) as Hv. rewrite H in Hv.
  cbv in Hv. subst n. done.
Qed.

Lemma decimal_plain n :
  ("<"%char ∉ decimal n) ∧ (","%char ∉ decimal n) ∧ trim (decimal n) = decimal n.
Proof.
  split_and!.
  - intros (d & Hd & E)%decimal_digits. by destruct (digit_plain d Hd) as (H & _ & _).
  - intros (d & Hd & E)%decimal_digits. by destruct (digit_plain d Hd) as (_ & H & _).
  - assert (∀ s, (∀ c, c ∈ s → c ∈ decimal n) → noSpaceAhead s) as Hno.
    { intros [|c s] Hs; [done|]. simpl.
      destruct (decimal_digits n c) as (d & Hd & ->); [apply Hs; by left|].
      by destruct (digit_plain d Hd) as (_ & _ & H). }
    unfold trim. rewrite trimStart_id by (by apply Hno).
    apply trimEnd_id, Hno. intros c Hc.
    by apply list_elem_of_In, in_rev, list_elem_of_In.
Qed.

Lemma filter_Forall_id {A} (P : A → Prop) `{!∀ x, Decision (P x)} (l : list A) :
  Forall P l → filter P l = l.
Proof.
  induction 1 as [|x l Hx _ IH]; [done|]. by rewrite filter_cons_True, IH.
Qed.

Lemma readDependencies_decimals ds :
  readDependencies (Agent.join (str ",") (decimal <$> ds))
  = (λ d, str "task-" ++ decimal d) <$> ds.
Proof.
  unfold readDependencies. destruct ds as [|d ds]; [done|].
  change (str ",") with [","%char]. rewrite split_pieces.
  rewrite pieces_join by done.
  rewrite concat_pieces_free.
  2:{ apply Forall_fmap, Forall_forall. intros n _. apply decimal_plain. }
  rewrite <- list_fmap_compose.
  rewrite filter_Forall_id.
  - apply list_fmap_ext. intros _ n _. unfold compose.
    by destruct (decimal_plain n) as (_ & _ & ->).
  - apply Forall_fmap, Forall_forall. intros n _. unfold compose.
    destruct (decimal_plain n) as (_ & _ & ->). intros H.
    apply (f_equal (drop 5)) in H. by apply decimal_nonempty in H.
Qed.

Lemma join_decimals_plain ds : "<"%char ∉ Agent.join (str ",") (decimal <$> ds).
Proof.
  induction ds as [|d ds IH]; [apply not_elem_of_nil|].
  destruct ds as [|d' ds]; [apply decimal_plain|].
  rewrite fmap_cons, join_cons by done.
  rewrite !elem_of_app. intros [H|[H|H]].
  - by apply (decimal_plain d) in H.
  - apply list_elem_of_singleton in H. done.
  - by apply IH.
Qed.

Lemma readTask_body junk e :
  clean (str "<title>") junk → clean (str "<description>") junk →
  clean (str "<depends>") junk → plainEntry e →
  readTask (junk ++ taskBody e) = Some (Some (entryTask e)).
Proof.
  intros Ht Hd Hp (Ha1 & Ha2 & Htitle & Hdesc & Hgap).
  pose proof (join_decimals_plain (entry_depends e)) as Hdeps.
  unfold readTask, taskBody.
  set (P := Agent.join (str ",") (decimal <$> entry_depends e)) in *.
  unfold titleRegex, descriptionRegex, dependsRegex.
  assert (∀ o c pre body post,
    junk ++ [lf] ++ str "<title>" ++ entry_title e ++ str "</title>" ++ [lf]
      ++ str "<description>" ++ entry_description e ++ str "</description>" ++ [lf]
      ++ str "<depends>" ++ P ++ str "</depends>" ++ [lf]
    = pre ++ o ++ body ++ c ++ post →
    clean o pre → clean c body →
    search (enclosed o c)
      (junk ++ [lf] ++ str "<title>" ++ entry_title e ++ str "</title>" ++ [lf]
       ++ str "<description>" ++ entry_description e ++ str "</description>" ++ [lf]
       ++ str "<depends>" ++ P ++ str "</depends>" ++ [lf]) 0
    = Some (mkMatch (length pre) (o ++ body ++ c) (Some body))) as Hsearch.
  { intros o c pre body post -> Hpre Hbody. by rewrite enclosed_search. }
  rewrite (Hsearch (str "<title>") (str "</title>") (junk ++ [lf]) (entry_title e)
             ([lf] ++ str "<description>" ++ entry_description e
              ++ str "</description>" ++ [lf] ++ str "<depends>" ++ P
              ++ str "</depends>" ++ [lf]));
    [|by rewrite <- !app_assoc|clean_parts..].
  rewrite (Hsearch (str "<description>") (str "</description>")
             (junk ++ [lf] ++ str "<title>" ++ entry_title e ++ str "</title>" ++ [lf])
             (entry_description e)
             ([lf] ++ str "<depends>" ++ P ++ str "</depends>" ++ [lf]));
    [|by rewrite <- !app_assoc|clean_parts..].
  rewrite (Hsearch (str "<depends>") (str "</depends>")
             (junk ++ [lf] ++ str "<title>" ++ entry_title e ++ str "</title>" ++ [lf]
              ++ str "<description>" ++ entry_description e ++ str "</description>"
              ++ [lf])
             P [lf]);
    [|by rewrite <- !app_assoc|clean_parts..].
  cbn [group1 mbind option_bind]. unfold entryTask, P.
  by rewrite readDependencies_decimals.
Qed.


(** *** The continuation of a match is reached *)

Lemma starLoop_reaches {R} (step : jsstring → option jsstring → cont (R := R) → option R)
    greedy (k : cont (R := R)) :
  (∀ s cap k x, step s cap k = Some x → ∃ s' cap', k s' cap' = Some x) →
  ∀ fuel s cap x, starLoop step greedy k fuel s cap = Some x →
    ∃ s' cap', k s' cap' = Some x.
Proof.
  intros Hstep. induction fuel as [|fuel IH]; intros s cap x H; [done|].
  cbn [starLoop] in H.
  assert (∀ x,
    step s cap (λ s' cap', if length s' <? length s
                           then starLoop step greedy k fuel s' cap' else None)
    = Some x → ∃ s' cap', k s' cap' = Some x) as Hmore.
  { intros x' Hx. apply Hstep in Hx as (s1 & c1 & Hx).
    destruct (length s1 <? length s); [|done]. by apply IH in Hx. }
  unfold orElse in H. destruct greedy.
  - destruct (step s cap _) eqn:E; [simplify_eq; by apply Hmore|eauto].
  - destruct (k s cap) eqn:E; [simplify_eq; eauto|by apply Hmore].
Qed.

Lemma rmatch_reaches {R} r : ∀ s cap (k : cont (R := R)) x,
  rmatch r s cap k = Some x → ∃ s' cap', k s' cap' = Some x.
Proof.
  induction r as [w|p|r1 IH1 r2 IH2|r1 IH1|greedy r1 IH1|r1 IH1|r1 IH1|];
    intros s cap k x H; cbn [rmatch] in H.
  - destruct (startsWith s w); [eauto|done].
  - destruct s as [|c s]; [done|]. destruct (p c); [eauto|done].
  - apply IH1 in H as (s1 & c1 & H). by apply IH2 in H.
  - unfold orElse in H. destruct (rmatch r1 s cap _) eqn:E; [|eauto].
    simplify_eq. apply IH1 in E as (s1 & c1 & E).
    destruct (length s1 <? length s); [eauto|done].
  - by apply (starLoop_reaches _ _ _ IH1) in H.
  - apply IH1 in H as (s1 & c1 & H). by apply (starLoop_reaches _ _ _ IH1) in H.
  - apply IH1 in H as (s1 & c1 & H). eauto.
  - destruct s; [eauto|done].
Qed.

Lemma search_matchHere r s : ∀ i m,
  search r s i = Some m → ∃ t rest, matchHere r t = Some (rest, group1 m).
Proof.
  induction s as [|c s IH]; intros i m H; cbn [search] in H.
  - destruct (matchHere r []) as [[rest cap]|] eqn:E; [|done]. simplify_eq. eauto.
  - destruct (matchHere r (c :: s)) as [[rest cap]|] eqn:E; [simplify_eq; eauto|].
    by apply IH in H.
Qed.

Lemma commandRegex_group key s i m :
  search (commandRegex key) s i = Some m → is_Some (group1 m).
Proof.
  intros H. apply search_matchHere in H as (t & rest & H).
  unfold matchHere, commandRegex in H. cbn [seq] in H.
  rewrite rmatch_Seq in H. apply rmatch_reaches in H as (s1 & c1 & H).
  rewrite rmatch_Seq in H. apply rmatch_reaches in H as (s2 & c2 & H).
  rewrite rmatch_Group in H. apply rmatch_reaches in H as (s3 & c3 & H).
  injection H as _ Hg. by rewrite <- Hg.
Qed.

Lemma readCommand_total key verifyContent :
  ∃ command, readCommand key verifyContent = Some command.
Proof.
  unfold readCommand.
  destruct (search (commandRegex key) verifyContent 0) as [m|] eqn:E; [|eauto].
  apply commandRegex_group in E as [g ->]. cbn. eauto.
Qed.

Lemma readVerify_total verifyContent :
  ∃ verifyCommands, readVerify verifyContent = Some verifyCommands.
Proof.
  unfold readVerify.
  destruct (readCommand_total (str "build:") verifyContent) as [b ->].
  destruct (readCommand_total (str "test:") verifyContent) as [t ->].
  destruct (readCommand_total (str "lint:") verifyContent) as [l ->].
  cbn. eauto.
Qed.

(** *** The loop over the task blocks *)

Lemma exec_at r done t :
  exec r (done ++ t) (length done) = search r t (length done).
Proof.
  unfold exec. destruct (Nat.ltb_spec (length (done ++ t)) (length done)) as [H|_].
  - rewrite length_app in H. lia.
  - by rewrite drop_app_length.
Qed.

Lemma clean_taskBody e :
  plainEntry e → clean (str "</task>") (taskBody e).
Proof.
  intros (Ha1 & Ha2 & Htitle & Hdesc & Hgap).
  pose proof (join_decimals_plain (entry_depends e)) as Hdeps.
  unfold taskBody. clean_parts.
Qed.

Lemma clean_taskBlock e :
  plainEntry e → clean (str "</plan>") (taskBlock e).
Proof.
  intros (Ha1 & Ha2 & Htitle & Hdesc & Hgap).
  pose proof (join_decimals_plain (entry_depends e)) as Hdeps.
  unfold taskBlock, taskBody. clean_parts.
Qed.

Lemma length_blocks entries : length entries ≤ length (concat (taskBlock <$> entries)).
Proof.
  induction entries as [|e es IH]; [done|].
  rewrite fmap_cons. cbn [concat]. rewrite length_app.
  assert (1 ≤ length (taskBlock e)); [|simpl; lia].
  unfold taskBlock. rewrite length_app. simpl. lia.
Qed.

Lemma execLoop_blocks tail :
  clean (str "<task") tail →
  ∀ entries done g fuel,
    Forall plainEntry entries → clean (str "<task") g → length entries < fuel →
    group1 <$> execLoop taskRegex
                 (done ++ g ++ concat (taskBlock <$> entries) ++ tail) fuel
                 (length done)
    = (λ e, Some (taskBody e)) <$> entries.
Proof.
  intros Htail. induction entries as [|e es IH]; intros done g fuel Hes Hg Hfuel;
    (destruct fuel as [|fuel]; [simpl in Hfuel; lia|]); cbn [execLoop].
  - rewrite exec_at. unfold taskRegex. cbn [seq concat fmap list_fmap app].
    rewrite search_clean_none; [done| |done]. by apply clean_app.
  - apply Forall_cons in Hes as [He Hes].
    rewrite fmap_cons. cbn [concat].
    set (matched := str "<task" ++ entry_attributes e ++ str ">" ++ taskBody e
                    ++ str "</task>").
    assert (done ++ g ++ (taskBlock e ++ concat (taskBlock <$> es)) ++ tail
            = (done ++ g ++ matched) ++ entry_gap e
              ++ concat (taskBlock <$> es) ++ tail) as HS.
    { unfold taskBlock, matched. by rewrite <- !app_assoc. }
    assert (exec taskRegex
              (done ++ g ++ (taskBlock e ++ concat (taskBlock <$> es)) ++ tail)
              (length done)
            = Some (mkMatch (length done + length g) matched (Some (taskBody e))))
      as ->.
    { rewrite exec_at.
      replace (g ++ (taskBlock e ++ concat (taskBlock <$> es)) ++ tail)
        with (g ++ str "<task" ++ entry_attributes e ++ str ">" ++ taskBody e
              ++ str "</task>" ++ (entry_gap e ++ concat (taskBlock <$> es) ++ tail))
        by (unfold taskBlock; by rewrite <- !app_assoc).
      apply taskRegex_search; [done|apply He|by apply clean_taskBody]. }
    rewrite !fmap_cons. cbn [group1]. f_equal.
    rewrite HS.
    replace (endIndex (mkMatch (length done + length g) matched (Some (taskBody e))))
      with (length (done ++ g ++ matched))
      by (unfold endIndex; cbn [index Regex.matched]; rewrite !length_app; lia).
    apply IH; [done| |simpl in Hfuel; lia].
    apply clean_text. apply He.
Qed.

Lemma readTasks_all ms : ∀ contents ts acc,
  group1 <$> ms = Some <$> contents →
  Forall2 (λ c t, readTask c = Some (Some t)) contents ts →
  readTasks ms acc = Some (acc ++ ts).
Proof.
  induction ms as [|m ms IH]; intros contents ts acc Hms Hts.
  - destruct contents; [|done]. inversion Hts. by rewrite app_nil_r.
  - destruct contents as [|c contents]; [done|].
    rewrite !fmap_cons in Hms. injection Hms as Hm Hms.
    inversion Hts as [|? t ? ts' Hc Hts']; subst.
    cbn [readTasks]. rewrite Hm. cbn [mbind option_bind]. rewrite Hc.
    cbn [mbind option_bind]. rewrite (IH contents ts' _ Hms Hts').
    by rewrite <- app_assoc.
Qed.

(** X25. A plan written in the format that the planning prompt asks
    for is read back. Let the response be any text without [<plan>],
    then the plan, then any text; let the summary, the text of the
    verification block, the titles, the descriptions and the texts
    around the blocks have no opening angle bracket, and the tasks be
    at least one. Then [parsePlanResponse] returns the trimmed summary,
    the commands read from the verification block, and for every task
    block, in order, the trimmed title, the trimmed description and the
    dependencies [task-d] for the numbers [d] listed; the fallback is
    not used. That [<tasks>] itself matches the pattern of a task
    block does no harm. *)
Theorem plan_in_requested_format_is_read_back pre summary verify entries post :
  clean (str "<plan>") pre → "<"%char ∉ summary → "<"%char ∉ verify →
  entries ≠ [] → Forall plainEntry entries →
  ∃ verifyCommands,
    readVerify verify = Some verifyCommands ∧
    parsePlanResponse (pre ++ planText summary verify entries ++ post)
    = Some (mkParsedPlan (trim summary) (entryTask <$> entries) verifyCommands).
Proof.
  intros Hpre Hsummary Hverify Hne Hes.
  destruct (readVerify_total verify) as [verifyCommands Hrv].
  exists verifyCommands. split; [done|].
  destruct entries as [|e es]; [done|]. clear Hne.
  pose proof Hes as Hes0. apply Forall_cons in Hes as [He Hes].
  set (head := [lf] ++ str "<summary>" ++ summary ++ str "</summary>" ++ [lf; lf]
               ++ str "<verify>" ++ verify ++ str "</verify>" ++ [lf; lf]).
  set (tail := str "</tasks>" ++ [lf]).
  set (blocks := concat (taskBlock <$> e :: es)).
  set (planContent := head ++ str "<tasks>" ++ [lf] ++ blocks ++ tail).
  assert (pre ++ planText summary verify (e :: es) ++ post
          = pre ++ str "<plan>" ++ planContent ++ str "</plan>" ++ post) as ->.
  { unfold planText, planContent, head, tail, blocks. by rewrite <- !app_assoc. }
  assert (clean (str "</plan>") blocks) as Hblocks.
  { apply clean_concat, Forall_fmap. eapply Forall_impl; [exact Hes0|].
    intros e'. apply clean_taskBlock. }
  unfold parsePlanResponse, planRegex.
  rewrite enclosed_search; [|done|].
  2:{ unfold planContent, head, tail. clean_parts. }
  cbn [group1 mbind option_bind].
  (* the summary *)
  assert (search summaryRegex planContent 0
          = Some (mkMatch 1 (str "<summary>" ++ summary ++ str "</summary>")
                    (Some summary))) as ->.
  { unfold summaryRegex, planContent, head.
    rewrite <- !app_assoc.
    rewrite (enclosed_search (str "<summary>") (str "</summary>") [lf] summary);
      [done|clean_parts..]. }
  cbn [group1 mbind option_bind].
  (* the verification commands *)
  assert (∃ i matched,
            search verifyRegex planContent 0 = Some (mkMatch i matched (Some verify)))
    as (i & matched & ->).
  { unfold verifyRegex, planContent, head. eexists _, _.
    replace (([lf] ++ str "<summary>" ++ summary ++ str "</summary>" ++ [lf; lf]
              ++ str "<verify>" ++ verify ++ str "</verify>" ++ [lf; lf])
             ++ str "<tasks>" ++ [lf] ++ blocks ++ tail)
      with (([lf] ++ str "<summary>" ++ summary ++ str "</summary>" ++ [lf; lf])
            ++ str "<verify>" ++ verify ++ str "</verify>"
            ++ ([lf; lf] ++ str "<tasks>" ++ [lf] ++ blocks ++ tail))
      by (by rewrite <- !app_assoc).
    apply enclosed_search; clean_parts. }
  cbn [group1 mbind option_bind]. rewrite Hrv. cbn [mbind option_bind].
  (* the tasks *)
  set (junk := [lf] ++ str "<task" ++ entry_attributes e ++ str ">").
  assert (group1 <$> execAll taskRegex planContent
          = Some <$> ((junk ++ taskBody e) :: (taskBody <$> es))) as Hmatches.
  { unfold execAll.
    set (matched1 := str "<task" ++ str "s" ++ str ">" ++ (junk ++ taskBody e)
                     ++ str "</task>").
    assert (planContent
            = (head ++ matched1) ++ entry_gap e ++ concat (taskBlock <$> es) ++ tail)
      as HS.
    { unfold planContent, blocks, matched1, junk, taskBlock.
      rewrite fmap_cons. cbn [concat]. rewrite <- !app_assoc. done. }
    cbn [execLoop]. unfold exec. rewrite drop_0.
    assert ((length planContent <? 0) = false) as -> by (apply Nat.ltb_ge; lia).
    assert (search taskRegex planContent 0
            = Some (mkMatch (length head) matched1 (Some (junk ++ taskBody e)))) as ->.
    { assert (planContent
              = head ++ str "<task" ++ str "s" ++ str ">" ++ (junk ++ taskBody e)
                ++ str "</task>"
                ++ (entry_gap e ++ concat (taskBlock <$> es) ++ tail)) as ->
        by (rewrite HS; unfold matched1; by rewrite <- !app_assoc).
      rewrite (taskRegex_search head (str "s") (junk ++ taskBody e)); [done| | |].
      - unfold head. clean_parts.
      - intros Hin. apply list_elem_of_singleton in Hin. done.
      - unfold junk. pose proof (clean_taskBody e He).
        destruct He as (Ha1 & Ha2 & _). clean_parts. }
    rewrite !fmap_cons. cbn [group1]. f_equal.
    replace (endIndex (mkMatch (length head) matched1 (Some (junk ++ taskBody e))))
      with (length (head ++ matched1))
      by (unfold endIndex; cbn [index Regex.matched]; by rewrite length_app).
    rewrite HS at 1.
    rewrite (execLoop_blocks tail); [by rewrite <- list_fmap_compose| |done| |].
    - unfold tail. clean_parts.
    - apply clean_text. apply He.
    - assert (0 < length tail) by (unfold tail; rewrite length_app; simpl; lia).
      rewrite HS, !length_app. pose proof (length_blocks es). lia. }
  rewrite (readTasks_all _ _ (entryTask <$> e :: es) [] Hmatches).
  2:{ constructor.
      - destruct He as (Ha1 & Ha2 & Ht & Hd & Hg).
        apply readTask_body; [unfold junk; clean_parts..|done].
      - apply Forall2_fmap, Forall_Forall2_diag. eapply Forall_impl; [exact Hes|].
        intros e' He'. apply (readTask_body [] e'); [apply clean_nil..|done]. }
  done.
Qed.

Lemma rmatch_Plus {R} r s cap (k : cont (R := R)) :
  rmatch (Plus r) s cap k
  = rmatch r s cap (λ s1 cap1, starLoop (rmatch r) true k (S (length s1)) s1 cap1).
Proof. done. Qed.

Lemma rmatch_Class {R} p c s cap (k : cont (R := R)) :
  rmatch (Class p) (c :: s) cap k = if p c then k s cap else None.
Proof. done. Qed.

(** X26. A verification command is what follows the first occurrence
    of its key, after white space, up to the end of the line, trimmed.
    The white space after the key may hold line ends: a key with
    nothing else on its line takes the next line that is not blank as
    its command. *)
Theorem verify_command_is_rest_of_line key a ws c r :
  clean key a → allSpace ws →
  c ≠ [] → noSpaceAhead c → Forall (λ x, isLineTerminator x = false) c →
  match r with [] => True | x :: _ => isLineTerminator x = true end →
  readCommand key (a ++ key ++ ws ++ c ++ r) = Some (Some (trim c)).
Proof.
  intros Ha Hws Hc Hhead Hline Hr. unfold readCommand, commandRegex. cbn [seq].
  rewrite search_clean by done.
  set (kf := λ (s' : jsstring) (cap : option jsstring), Some (s', cap)).
  assert (matchHere
            (Seq (Lit key) (Seq (Star true (Class space)) (Group (Plus (Class dot)))))
            (key ++ ws ++ c ++ r) = Some (r, Some c)) as Hm.
  { unfold matchHere. rewrite rmatch_Seq, rmatch_Lit, rmatch_Seq, rmatch_Star.
    rewrite starLoop_greedy_class; [|done| |lia].
    2:{ destruct c as [|x c]; [done|]. exact Hhead. }
    apply backtrack_Some. rewrite rmatch_Group.
    destruct c as [|x c]; [done|]. apply Forall_cons in Hline as [Hx Hline].
    cbn [app]. rewrite rmatch_Plus, rmatch_Class. unfold dot at 1.
    rewrite Hx. cbn [negb].
    rewrite starLoop_greedy_class; [| | |lia].
    - apply backtrack_Some. do 3 f_equal.
      replace (length (x :: c ++ r) - length r) with (length (x :: c))
        by (simpl; rewrite length_app; lia).
      apply (take_app_length (x :: c)).
    - eapply Forall_impl; [exact Hline|]. intros y Hy. unfold dot. by rewrite Hy.
    - destruct r as [|y r]; [done|]. unfold dot. by rewrite Hr. }
  rewrite (search_here _ _ _ _ _ Hm). done.
Qed.

End PlanTextProperties.


(** ** Worked examples of the further properties *)

Section FurtherExamples.
Import Effect Planning Examples MoreExamples PlannerExamples.

Lemma reliable_plainAgent : reliable plainAgent.
Proof.
  split.
  - intros msgs w. by exists w, (str "Done.").
  - intros tool params dir w Hin. by apply not_elem_of_nil in Hin.
Qed.

Lemma passing_plainExecutor : passing plainExecutor.
Proof. intros command cwd timeout w. by exists [], []. Qed.

Lemma succeeding_plainExecutor : succeeding plainExecutor.
Proof.
  intros t st Hp.
  apply executeTask_success; [apply reliable_plainAgent|apply passing_plainExecutor|done].
Qed.

Lemma backwardDeps_chain : backwardDeps (tasks chainPlan).
Proof.
  intros i t d Hi Hd.
  change (tasks chainPlan) with
    [ mkTask (str "task-1") (str "Add route") (str "Add the health route")
             pending [] None 0 3 None;
      mkTask (str "task-2") (str "Add handler") (str "Answer with ok")
             pending [str "task-1"] None 0 3 None;
      mkTask (str "task-3") (str "Add test") (str "Test the endpoint")
             pending [str "task-2"] None 0 3 None ] in *.
  destruct i as [|[|[|i]]]; simplify_eq/=.
  - by apply not_elem_of_nil in Hd.
  - apply list_elem_of_singleton in Hd as ->. exists 0. split; [lia|done].
  - apply list_elem_of_singleton in Hd as ->. exists 1. split; [lia|done].
Qed.

(** After the first task was handed out and failed once, the ids are
    as before and the cursor is where it was. *)
Lemma cursor_never_moves_back_witness :
  plan chainManager = Some chainPlan ∧
  ∃ p', plan (calls [CallGetNextTask; CallMarkTaskInProgress (str "task-1");
                     CallMarkTaskFailed (str "task-1") (str "e1")] chainManager)
          = Some p' ∧
        id <$> tasks p' = [str "task-1"; str "task-2"; str "task-3"] ∧
        0 ≤ currentTaskIndex p'.
Proof.
  split; [reflexivity|].
  destruct (cursor_never_moves_back chainManager chainPlan
              [CallGetNextTask; CallMarkTaskInProgress (str "task-1");
               CallMarkTaskFailed (str "task-1") (str "e1")] eq_refl)
    as (p' & Hp' & Hids & Hc & _).
  exists p'. split; [exact Hp'|]. split; [|exact Hc].
  rewrite Hids. reflexivity.
Defined.

(** Completing the first task of the chain leaves the plan a draft. *)
Lemma markTaskCompleted_settles_plan_witness :
  plan chainManager = Some chainPlan ∧
  ∃ p', plan (markTaskCompleted (str "task-1") chainManager) = Some p' ∧
        tasks p' = <[0 := set_error None (set_status completed firstTask)]>
                     (tasks chainPlan).
Proof.
  split; [reflexivity|].
  destruct (markTaskCompleted_settles_plan chainManager chainPlan (str "task-1") eq_refl)
    as (p' & Hp' & Hfound & _).
  exists p'. split; [exact Hp'|].
  apply (Hfound 0 firstTask). by vm_compute.
Defined.

(** The first task of the chain fails once and is handed out again. *)
Lemma failed_task_is_retried_next_witness :
  plan chainManager = Some chainPlan ∧
  NoDup (id <$> tasks chainPlan) ∧
  getNextTask chainManager
    = (Some 0, set_plan (Some (set_currentTaskIndex 0 chainPlan)) chainManager) ∧
  tasks chainPlan !! 0 = Some firstTask ∧
  S (attempts firstTask) < maxAttempts firstTask ∧
  ∃ m2 t',
    getNextTask (failedRun (id firstTask) (str "e1")
                   (set_plan (Some (set_currentTaskIndex 0 chainPlan)) chainManager))
      = (Some 0, m2) ∧
    taskAt m2 0 = Some t' ∧
    status t' = pending ∧ attempts t' = 1 ∧ error t' = Some (str "e1").
Proof.
  assert (NoDup (id <$> tasks chainPlan)) as Hnd by exact (proj1 chainPlan_dag).
  assert (getNextTask chainManager
          = (Some 0, set_plan (Some (set_currentTaskIndex 0 chainPlan)) chainManager))
    as Hnext by (by vm_compute).
  assert (S (attempts firstTask) < maxAttempts firstTask) as Hlt by (simpl; lia).
  split; [reflexivity|]. split; [exact Hnd|]. split; [exact Hnext|].
  split; [reflexivity|]. split; [exact Hlt|].
  exact (failed_task_is_retried_next chainManager chainPlan 0 _ firstTask (str "e1")
           eq_refl Hnd Hnext eq_refl Hlt).
Defined.


(** A plain sentence. *)
Lemma plain_reply_is_narrative_witness :
  ("<"%char ∉ str " Done. ") ∧ ("`"%char ∉ str " Done. ") ∧
  ("{"%char ∉ str " Done. ") ∧
  Parser.parseToolCalls (str " Done. ")
    = {| Parser.text := str "Done."; Parser.toolCalls := [] |}.
Proof.
  assert (∀ c, c ∉ str " Done. " ↔ bool_decide (c ∈ str " Done. ") = false) as Hdec.
  { intros c. by rewrite bool_decide_eq_false. }
  assert ("<"%char ∉ str " Done. ") as H1 by (by apply Hdec).
  assert ("`"%char ∉ str " Done. ") as H2 by (by apply Hdec).
  assert ("{"%char ∉ str " Done. ") as H3 by (by apply Hdec).
  split; [exact H1|]. split; [exact H2|]. split; [exact H3|].
  exact (plain_reply_is_narrative (str " Done. ") H1 H2 H3).
Defined.

(** The synonym [readfile] comes back as [read_file]. *)
Lemma parsed_names_are_normalized_witness :
  readFileCall ∈ Parser.toolCalls (Parser.parseToolCalls (tagged synonymBody)) ∧
  ((∃ n, Parser.name readFileCall = Parser.Name n ∧ n ≠ [] ∧
         Parser.normalizeToolName n = Parser.Name n ∧
         JS.toLowerCase n ∉ (Parser.mapping.*1)) ∨
   (∃ key, Parser.name readFileCall = Parser.Inherited key ∧
           (key = str "constructor" ∨ key = str "__proto__"))).
Proof.
  assert (readFileCall ∈ Parser.toolCalls (Parser.parseToolCalls (tagged synonymBody)))
    as Hin.
  { assert (Parser.toolCalls (Parser.parseToolCalls (tagged synonymBody)) = [readFileCall])
      as -> by (by vm_compute). by left. }
  split; [exact Hin|].
  exact (parsed_names_are_normalized (tagged synonymBody) readFileCall Hin).
Defined.


(** The approved chain is executed to its end in four turns. *)
Lemma execute_completes_plan_witness :
  plan (Executor.planManager approvedState) = Some approvedChain ∧
  NoDup (id <$> tasks approvedChain) ∧ backwardDeps (tasks approvedChain) ∧
  succeeding plainExecutor ∧ neverStopped plainExecutor ∧
  ∃ st' p',
    Executor.execute plainExecutor 4 approvedState = Some (st', Returned true) ∧
    Executor.isRunning st' = false ∧
    plan (Executor.planManager st') = Some p' ∧
    plan_status p' = plan_completed ∧
    tasks p' = afterRun <$> tasks approvedChain.
Proof.
  assert (NoDup (id <$> tasks approvedChain)) as Hnd by exact (proj1 chainPlan_dag).
  assert (backwardDeps (tasks approvedChain)) as Hback by exact backwardDeps_chain.
  assert (neverStopped plainExecutor) as Hnever by (by intros w).
  split; [reflexivity|]. split; [exact Hnd|]. split; [exact Hback|].
  split; [exact succeeding_plainExecutor|]. split; [exact Hnever|].
  refine (execute_completes_plan plainExecutor approvedState approvedChain eq_refl
            (or_introl eq_refl) Hnd Hback _ _ succeeding_plainExecutor Hnever).
  - intros j u Hu. left.
    change (tasks approvedChain) with (tasks chainPlan) in Hu.
    destruct j as [|[|[|j]]]; vm_compute in Hu; [| | |discriminate Hu];
      injection Hu as <-; (split; [reflexivity|simpl; lia]).
  - exists firstTask. split; [by left|reflexivity].
Defined.

(** A plan without tasks is executed and not completed. *)
Lemma execute_without_runnable_task_witness :
  plan (Executor.planManager emptyState) = Some emptyPlan ∧
  Forall (λ t, status t ≠ pending) (tasks emptyPlan) ∧
  ∃ st',
    Executor.execute plainExecutor 1 emptyState = Some (st', Returned false) ∧
    Executor.isRunning st' = false.
Proof.
  assert (Forall (λ t, status t ≠ pending) (tasks emptyPlan)) as Hall by constructor.
  split; [reflexivity|]. split; [exact Hall|].
  destruct (execute_without_runnable_task plainExecutor emptyState emptyPlan eq_refl
              (or_introl eq_refl)) as [Hnone Hidle].
  destruct (Hidle (Hnone Hall)) as (st' & Hex & _ & Hrun).
  by exists st'.
Defined.

(** The one [cat] of the notes becomes a [dog]. *)
Lemma replace_rewrites_the_single_occurrence_witness :
  JS.indexOf (str "a cat sat") (str "cat") = Some 2 ∧
  JS.indexOf (str " sat") (str "cat") = None ∧
  Tools.edit catParams (str "/proj/notes.txt") (str "a cat sat") (str "dog")
    = Tools.EditTo (str "a dog sat")
        (str "Successfully replaced 1 occurrence in /proj/notes.txt").
Proof.
  assert (JS.indexOf (str "a cat sat") (str "cat") = Some 2) as Hfirst
    by reflexivity.
  assert (JS.indexOf (str " sat") (str "cat") = None) as Hlast by reflexivity.
  split; [exact Hfirst|]. split; [exact Hlast|].
  destruct (replace_rewrites_the_single_occurrence catParams (str "/proj/notes.txt")
              (str "a ") (str "cat") (str " sat") (str "dog"))
    as [Hedit Hplain].
  - discriminate.
  - discriminate.
  - reflexivity.
  - discriminate.
  - apply indexOf_leftmost. exact Hfirst.
  - apply indexOf_None. exact Hlast.
  - rewrite Hplain in Hedit; [exact Hedit|].
    intros Hin. by repeat (apply elem_of_cons in Hin as [Hin|Hin]; [discriminate|]);
      apply not_elem_of_nil in Hin.
Defined.

(** A line put before the second of two lines. *)
Lemma insert_puts_lines_before_line_witness :
  (1 ≤ 2)%Z ∧
  ∃ newContent,
    Tools.edit insertParams (str "/proj/notes.txt")
      (str "one" ++ [lf] ++ str "two") (str "new")
    = Tools.EditTo newContent
        (str "Successfully inserted content at line 2 in /proj/notes.txt") ∧
    JS.split newContent [lf] = [str "one"; str "new"; str "two"].
Proof.
  split; [lia|].
  destruct (insert_puts_lines_before_line insertParams (str "/proj/notes.txt")
              (str "one" ++ [lf] ++ str "two") (str "new") 2%Z
              eq_refl eq_refl ltac:(lia))
    as (newContent & Hedit & Hlines & _).
  exists newContent. split; [exact Hedit|exact Hlines].
Defined.

(** A line appended to notes that end with a line feed. *)
Lemma append_adds_lines_at_the_end_witness :
  Tools.edit_mode appendParams = Some (str "append") ∧
  ∃ newContent,
    Tools.edit appendParams (str "/proj/notes.txt") (str "one" ++ [lf]) (str "two")
    = Tools.EditTo newContent (str "Successfully appended content to /proj/notes.txt") ∧
    JS.split newContent [lf] = [str "one"; str "two"].
Proof.
  split; [reflexivity|].
  destruct (append_adds_lines_at_the_end appendParams (str "/proj/notes.txt")
              (str "one" ++ [lf]) (str "two") eq_refl)
    as (newContent & kept & Hedit & Hkept & _ & Hlines).
  exists newContent. split; [exact Hedit|].
  destruct Hkept as [Hk | [_ Hno]].
  - apply (app_inj_tail (str "one") kept lf lf) in Hk as [<- _]. exact Hlines.
  - destruct (Hno (str "one") eq_refl).
Defined.

(** Two [cat]s in the notes: the edit is refused. *)
Lemma edit_refuses_missing_or_ambiguous_witness :
  readNotes (str "cat and cat") (str "/proj/notes.txt") tt
    = (tt, Tools.Done (str "cat and cat")) ∧
  ∃ error,
    Tools.EditFileTool_execute joinPath startsWithSlash (str "/home/dev")
      (readNotes (str "cat and cat")) writeAny catParams (str "/proj") tt
    = (tt, Returned (Tools.Tool_failure error)).
Proof.
  split; [reflexivity|].
  apply (edit_refuses_missing_or_ambiguous joinPath startsWithSlash (str "/home/dev")
           (readNotes (str "cat and cat")) writeAny catParams (str "/proj")
           (str "notes.txt") (str "cat") (str "dog") (str "cat and cat") tt tt);
    try reflexivity; try discriminate.
  right. split; [reflexivity|]. by exists [], (str " and "), [].
Defined.

(** Two lines that end with a line feed each are reported as three. *)
Lemma write_reports_line_count_witness :
  Tools.WriteFileTool_execute joinPath startsWithSlash (str "/home/dev")
    projectOf writeAny mkdirAny outParams (str "/proj") tt
  = (tt, Returned
           (Tools.Tool_success (str "Successfully wrote 3 lines to /proj/out.txt"))).
Proof.
  apply (write_reports_line_count joinPath startsWithSlash (str "/home/dev")
           projectOf writeAny mkdirAny outParams (str "/proj") (str "out.txt")
           (str "a" ++ [lf] ++ str "b" ++ [lf]) tt tt tt tt tt);
    try reflexivity; discriminate.
Defined.

(** The removal of the root directory is blocked. *)
Lemma dangerous_commands_never_reach_the_shell_witness :
  blank (str " ") ∧
  Tools.BashTool_execute joinPath startsWithSlash (str "/home/dev") shellAny
    removeRootParams (str "/proj") tt
  = (tt, Returned
           (Tools.Tool_failure
              (str "This command has been blocked for safety reasons."))).
Proof.
  assert (blank (str " ")) as Hblank.
  { split; [discriminate|]. by repeat constructor. }
  split; [exact Hblank|].
  apply (dangerous_commands_never_reach_the_shell joinPath startsWithSlash
           (str "/home/dev") shellAny removeRootParams (str "/proj")
           (str "sudo rm -rf /") tt eq_refl).
  right. right. left. exists (str "sudo "), (str " "), (str " "), [].
  split; [exact Hblank|]. split; [exact Hblank|]. split; [exact I|reflexivity].
Defined.

Lemma not_elem_of_decide (c : ascii) (s : jsstring) :
  bool_decide (c ∈ s) = false → c ∉ s.
Proof. apply bool_decide_eq_false_1. Qed.

(** The example plan of the planning prompt is read back from the
    prompt itself. *)
Lemma plan_in_requested_format_is_read_back_witness :
  Planner.buildPlanningPrompt (str "a health endpoint")
    = promptBefore ++ planText promptSummary promptVerify promptEntries ++ promptAfter ∧
  Planner.parsePlanResponse (Planner.buildPlanningPrompt (str "a health endpoint"))
  = Some
      {| Planner.parsed_summary :=
           str "A 2-3 sentence overview of the implementation approach.";
         Planner.parsed_tasks :=
           [ mkTaskInput (str "Short task title")
               (str "Detailed description of what to implement." ++ [lf]
                ++ str "Include specific files to create/modify.") [] None None;
             mkTaskInput (str "Another task") (str "Details here...")
               [str "task-1"] None None ];
         Planner.parsed_verifyCommands :=
           mkVerifyCommands (Some (str "npm run build")) (Some (str "npm test")) None |}.
Proof.
  split; [reflexivity|].
  destruct (plan_in_requested_format_is_read_back promptBefore promptSummary
              promptVerify promptEntries promptAfter)
    as (verifyCommands & Hverify & Hparse).
  - apply clean_text, not_elem_of_decide. reflexivity.
  - apply not_elem_of_decide. reflexivity.
  - apply not_elem_of_decide. reflexivity.
  - discriminate.
  - repeat constructor; apply not_elem_of_decide; reflexivity.
  - vm_compute in Hverify. injection Hverify as <-. exact Hparse.
Defined.

(** A key with nothing else on its line takes the next line. *)
Lemma verify_command_is_rest_of_line_witness :
  clean (str "build:") [lf] ∧ allSpace [lf] ∧
  Planner.readCommand (str "build:")
    ([lf] ++ str "build:" ++ [lf] ++ str "test: npm test" ++ [lf])
  = Some (Some (str "test: npm test")).
Proof.
  assert (clean (str "build:") [lf]) as Hclean.
  { apply clean_text, not_elem_of_decide. reflexivity. }
  assert (allSpace [lf]) as Hspace by (by repeat constructor).
  split; [exact Hclean|]. split; [exact Hspace|].
  apply (verify_command_is_rest_of_line (str "build:") [lf] [lf]
           (str "test: npm test") [lf] Hclean Hspace).
  - discriminate.
  - reflexivity.
  - by repeat constructor.
  - reflexivity.
Defined.

(** A numbered list of two tasks gives a chain of two tasks. *)
Lemma fallback_plan_is_a_chain_witness :
  Planner.parsePlanFallback numberedReply = Some (Some numberedPlan) ∧
  backwardDeps
    (tasks (Planning.createPlan (str "0f0f0f0f") (str "2025-01-01T00:00:00.000Z")
              (str "/proj") (str "tests")
              (Planner.parsed_summary numberedPlan)
              (Planner.parsed_tasks numberedPlan) manager0).1).
Proof.
  assert (Planner.parsePlanFallback numberedReply = Some (Some numberedPlan)) as Hparse
    by (vm_compute; reflexivity).
  split; [exact Hparse|].
  apply (fallback_plan_is_a_chain (str "0f0f0f0f") (str "2025-01-01T00:00:00.000Z")
           (str "/proj") (str "tests") numberedReply numberedPlan manager0 Hparse).
Defined.

End FurtherExamples.
